(** * Seniman: paged output stream, replay, work queue and window manager

    A shallow embedding of
      - [packages/seniman/src/v2/window.js]        (WorkQueue, Window)
      - [packages/seniman/runtime_v2/window_manager.js] (WindowManager)
    together with the properties stated about them.

    JavaScript numbers that hold byte offsets and sizes are modelled as [Z];
    JavaScript strings by their UTF-8 bytes ([string]); a [Buffer] is an
    object in a store of byte arrays and a view ([subarray]) is a window on
    such an object; page objects live in a per-window object store so that
    [mutationGroup.page] and the entries of [pages] alias as they do in the
    source.  Code that can throw returns the exception together with the
    state reached when it was thrown. *)

From Stdlib Require Import ZArith Lia.
From Stdlib.Strings Require Import Byte.
From stdpp Require Import base list strings sorting.

Local Open Scope Z_scope.

(** ** Results of effectful code *)

Inductive Err : Type :=
| TypeError          (* property access or call on undefined / null *)
| RangeError         (* Buffer write outside the view or value out of range *)
| InvalidOffset (readOffset current : Z)  (* new Error(`Invalid offset: ...`) *)
| PlainError         (* new Error() *)
| DanglingRef.       (* a reference outside the object store; no JS counterpart *)

Inductive Res (S A : Type) : Type :=
| Ret (a : A) (s : S)
| Throw (e : Err) (s : S).
Arguments Ret {S A} a s.
Arguments Throw {S A} e s.

Definition M (S A : Type) : Type := S -> Res S A.

Definition ret {S A} (a : A) : M S A := fun s => Ret a s.
Definition throw {S A} (e : Err) : M S A := fun s => Throw e s.
Definition bind {S A B} (m : M S A) (k : A -> M S B) : M S B :=
  fun s => match m s with
           | Ret a s' => k a s'
           | Throw e s' => Throw e s'
           end.
Definition get {S} : M S S := fun s => Ret s s.
Definition modify {S} (f : S -> S) : M S unit := fun s => Ret tt (f s).

Notation "x <- m ;; k" := (bind m (fun x => k))
  (at level 100, m at next level, right associativity).
Notation "m ;;; k" := (bind m (fun _ => k))
  (at level 100, right associativity).

Definition state_of {S A} (r : Res S A) : S :=
  match r with Ret _ s => s | Throw _ s => s end.

Definition returned {S A} (r : Res S A) : option A :=
  match r with Ret a _ => Some a | Throw _ _ => None end.

Definition thrown {S A} (r : Res S A) : option Err :=
  match r with Ret _ _ => None | Throw e _ => Some e end.

(** ** JavaScript [Map], in insertion order *)

Module JsMap.
Section JsMap.
Context {K V : Type} `{EqDecision K}.

Fixpoint get (m : list (K * V)) (k : K) : option V :=
  match m with
  | [] => None
  | (k', v) :: m' => if decide (k' = k) then Some v else get m' k
  end.

Definition has (m : list (K * V)) (k : K) : bool :=
  match get m k with Some _ => true | None => false end.

Fixpoint set (m : list (K * V)) (k : K) (v : V) : list (K * V) :=
  match m with
  | [] => [(k, v)]
  | (k', v') :: m' =>
      if decide (k' = k) then (k, v) :: m' else (k', v') :: set m' k v
  end.

Fixpoint delete (m : list (K * V)) (k : K) : list (K * V) :=
  match m with
  | [] => []
  | (k', v') :: m' =>
      if decide (k' = k) then m' else (k', v') :: delete m' k
  end.

Definition size (m : list (K * V)) : Z := Z.of_nat (length m).

Definition values (m : list (K * V)) : list V := m.*2.
End JsMap.
End JsMap.

(** ** Buffers, views and the buffer pool *)

Record Heap : Type := mkHeap {
  bufs : list (list byte);   (* every Buffer block ever created, by identity *)
  pool : list nat            (* bufferPool's free list, most recent first *)
}.

Record View : Type := mkView {
  v_buffer : nat;            (* the underlying block *)
  v_offset : Z;
  v_length : Z
}.

Definition buffer_length (h : Heap) (b : nat) : Z :=
  match bufs h !! b with
  | Some c => Z.of_nat (length c)
  | None => 0
  end.

(** A pool block seen as a [Buffer]: the view on all of it. *)
Definition whole (h : Heap) (b : nat) : View :=
  mkView b 0 (buffer_length h b).

(** [TypedArray.prototype.subarray]: both indices are clamped to the view,
    a negative index counts from the end. *)
Definition clampIndex (len i : Z) : Z :=
  if i <? 0 then Z.max (len + i) 0 else Z.min i len.

Definition subarray (v : View) (start stop : Z) : View :=
  let s := clampIndex (v_length v) start in
  let e := clampIndex (v_length v) stop in
  mkView (v_buffer v) (v_offset v + s) (Z.max (e - s) 0).

Definition slice {A} (l : list A) (off len : Z) : list A :=
  take (Z.to_nat len) (drop (Z.to_nat off) l).

Definition view_bytes (h : Heap) (v : View) : list byte :=
  match bufs h !! v_buffer v with
  | Some c => slice c (v_offset v) (v_length v)
  | None => []
  end.

(** Overwrite [c] from position [off] on with [bs]; [c] keeps its length. *)
Definition blit (c : list byte) (off : nat) (bs : list byte) : list byte :=
  take (length c) (take off c ++ bs ++ drop (off + length bs) c).

Definition poke (h : Heap) (v : View) (off : Z) (bs : list byte) : Heap :=
  match bufs h !! v_buffer v with
  | Some c =>
      mkHeap (<[v_buffer v := blit c (Z.to_nat (v_offset v + off)) bs]> (bufs h))
             (pool h)
  | None => h
  end.

Definition byte_of_Z (z : Z) : option byte :=
  if (0 <=? z) && (z <=? 255) then Byte.of_N (Z.to_N z) else None.

(** [buf.writeUint8(value, offset)] *)
Definition writeUint8 (v : View) (value offset : Z) : M Heap unit :=
  fun h =>
    match byte_of_Z value with
    | Some b =>
        if (0 <=? offset) && (offset + 1 <=? v_length v)
        then Ret tt (poke h v offset [b])
        else Throw RangeError h
    | None => Throw RangeError h
    end.

(** [buf.writeUint16BE(value, offset)] *)
Definition writeUint16BE (v : View) (value offset : Z) : M Heap unit :=
  fun h =>
    if (0 <=? value) && (value <=? 65535) then
      match byte_of_Z (value / 256), byte_of_Z (value mod 256) with
      | Some hi, Some lo =>
          if (0 <=? offset) && (offset + 2 <=? v_length v)
          then Ret tt (poke h v offset [hi; lo])
          else Throw RangeError h
      | _, _ => Throw RangeError h
      end
    else Throw RangeError h.

(** A continuation byte of a UTF-8 character, [10xxxxxx]. *)
Definition is_continuation (b : byte) : bool :=
  let n := Z.of_N (Byte.to_N b) in (128 <=? n) && (n <? 192).

(** The last position at or before [k] in the UTF-8 text [s] that lies
    between two characters. *)
Fixpoint char_boundary (s : list byte) (k : nat) : nat :=
  match k with
  | O => O
  | S k' =>
      match s !! k with
      | Some b => if is_continuation b then char_boundary s k' else k
      | None => k
      end
  end.

(** [buf.write(string, offset, length)], the string given as its UTF-8
    bytes: at most [length] bytes and never past the end of the view, and
    whole characters only, so a character that does not fit entirely is
    left out; [offset] and [length] are validated against the view's
    length. *)
Definition write (v : View) (s : list byte) (offset len : Z) : M Heap unit :=
  fun h =>
    if (0 <=? offset) && (offset <=? v_length v)
       && (0 <=? len) && (len <=? v_length v)
    then
      let n := Z.min len (v_length v - offset) in
      Ret tt (poke h v offset (take (char_boundary s (Z.to_nat n)) s))
    else Throw RangeError h.

(** [source.copy(target, targetStart, sourceStart, sourceEnd)] for a source
    held by value. *)
Definition copy_into (source : list byte) (target : View)
    (targetStart sourceStart sourceEnd : Z) : M Heap unit :=
  fun h =>
    if targetStart <? 0 then Throw RangeError h
    else if sourceStart <? 0 then Throw RangeError h
    else
      let room := Z.max (v_length target - targetStart) 0 in
      let n := Z.min (Z.max (sourceEnd - sourceStart) 0) room in
      Ret tt (poke h target targetStart (slice source sourceStart n)).

Section Model.

(** [PAGE_SIZE] is exported by [buffer-pool.js], which is not among the
    sources; it is a parameter of the development. *)
Variable PAGE_SIZE : Z.

(** Modelled from the spec: [bufferPool] of [buffer-pool.js] (section 4.1):
    [alloc] removes and returns one fixed-size block from the free list and
    creates a new block only when the list is empty; [returnBuffer] pushes a
    block back onto the free list. *)
Definition bufferPool_alloc : M Heap nat :=
  fun h =>
    match pool h with
    | b :: rest => Ret b (mkHeap (bufs h) rest)
    | [] =>
        Ret (length (bufs h))
            (mkHeap (bufs h ++ [replicate (Z.to_nat PAGE_SIZE) x00]) [])
    end.

Definition bufferPool_returnBuffer (b : nat) : M Heap unit :=
  modify (fun h => mkHeap (bufs h) (b :: pool h)).

(** ** WorkQueue (window.js:84-113) *)

Section WorkQueue.
Context {Node : Type}.
Variable depth : Node -> Z.

(** The [while (i >= 0)] loop of [add]; the counter is [i + 1].  Reading
    [this.queue[i]] outside the array gives [undefined], whose [.depth]
    throws. *)
Fixpoint add_from (queue : list Node) (item : Node) (n : nat)
  : option (list Node) :=
  match n with
  | O => Some (item :: queue)                       (* unshift(item) *)
  | S i =>
      match queue !! i with
      | Some x =>
          if depth x <=? depth item
          then Some (take (S i) queue ++ item :: drop (S i) queue)
                                                    (* splice(i + 1, 0, item) *)
          else add_from queue item i
      | None => None
      end
  end.

Definition add (queue : list Node) (item : Node) : option (list Node) :=
  add_from queue item (length queue).

Definition isEmpty (queue : list Node) : bool :=
  bool_decide (length queue = 0%nat).

(** [this.queue.shift()]: [None] is [undefined]. *)
Definition poll (queue : list Node) : option Node * list Node :=
  match queue with
  | [] => (None, [])
  | x :: rest => (Some x, rest)
  end.
End WorkQueue.

(** ** Window (window.js:148-1149) *)

Record Page : Type := mkPage {
  global_headOffset : Z;
  buffer : nat;
  finalSize : Z
}.

Record MutationGroup : Type := mkMutationGroup {
  page : nat;                (* reference to a page object *)
  pageStartOffset : Z
}.

Record Window : Type := mkWindow {
  id : string;
  port : list (list byte);   (* the messages sent on the current port *)
  destroyFnCallback : option string;
      (* [None] is null; [Some k] is the closure installed by
         WindowManager.initWindow, which captured windowId [k] *)
  connected : bool;
  objs : list Page;          (* the page objects this window created *)
  pages : list nat;          (* this.pages: references into [objs] *)
  global_readOffset : Z;
  global_writeOffset : Z;
  mutationGroup : option MutationGroup;
  deleteBlockCommandBuffer : list byte;
  deleteBlockCount : Z;
  tokenList : list (string * Z);
  lastPongTime : Z
}.

Definition set_port x w := mkWindow (id w) x (destroyFnCallback w) (connected w) (objs w) (pages w) (global_readOffset w) (global_writeOffset w) (mutationGroup w) (deleteBlockCommandBuffer w) (deleteBlockCount w) (tokenList w) (lastPongTime w).
Definition set_destroyFnCallback x w := mkWindow (id w) (port w) x (connected w) (objs w) (pages w) (global_readOffset w) (global_writeOffset w) (mutationGroup w) (deleteBlockCommandBuffer w) (deleteBlockCount w) (tokenList w) (lastPongTime w).
Definition set_connected x w := mkWindow (id w) (port w) (destroyFnCallback w) x (objs w) (pages w) (global_readOffset w) (global_writeOffset w) (mutationGroup w) (deleteBlockCommandBuffer w) (deleteBlockCount w) (tokenList w) (lastPongTime w).
Definition set_objs x w := mkWindow (id w) (port w) (destroyFnCallback w) (connected w) x (pages w) (global_readOffset w) (global_writeOffset w) (mutationGroup w) (deleteBlockCommandBuffer w) (deleteBlockCount w) (tokenList w) (lastPongTime w).
Definition set_pages x w := mkWindow (id w) (port w) (destroyFnCallback w) (connected w) (objs w) x (global_readOffset w) (global_writeOffset w) (mutationGroup w) (deleteBlockCommandBuffer w) (deleteBlockCount w) (tokenList w) (lastPongTime w).
Definition set_global_readOffset x w := mkWindow (id w) (port w) (destroyFnCallback w) (connected w) (objs w) (pages w) x (global_writeOffset w) (mutationGroup w) (deleteBlockCommandBuffer w) (deleteBlockCount w) (tokenList w) (lastPongTime w).
Definition set_global_writeOffset x w := mkWindow (id w) (port w) (destroyFnCallback w) (connected w) (objs w) (pages w) (global_readOffset w) x (mutationGroup w) (deleteBlockCommandBuffer w) (deleteBlockCount w) (tokenList w) (lastPongTime w).
Definition set_mutationGroup x w := mkWindow (id w) (port w) (destroyFnCallback w) (connected w) (objs w) (pages w) (global_readOffset w) (global_writeOffset w) x (deleteBlockCommandBuffer w) (deleteBlockCount w) (tokenList w) (lastPongTime w).
Definition set_deleteBlockCommandBuffer x w := mkWindow (id w) (port w) (destroyFnCallback w) (connected w) (objs w) (pages w) (global_readOffset w) (global_writeOffset w) (mutationGroup w) x (deleteBlockCount w) (tokenList w) (lastPongTime w).
Definition set_deleteBlockCount x w := mkWindow (id w) (port w) (destroyFnCallback w) (connected w) (objs w) (pages w) (global_readOffset w) (global_writeOffset w) (mutationGroup w) (deleteBlockCommandBuffer w) x (tokenList w) (lastPongTime w).
Definition set_tokenList x w := mkWindow (id w) (port w) (destroyFnCallback w) (connected w) (objs w) (pages w) (global_readOffset w) (global_writeOffset w) (mutationGroup w) (deleteBlockCommandBuffer w) (deleteBlockCount w) x (lastPongTime w).
Definition set_lastPongTime x w := mkWindow (id w) (port w) (destroyFnCallback w) (connected w) (objs w) (pages w) (global_readOffset w) (global_writeOffset w) (mutationGroup w) (deleteBlockCommandBuffer w) (deleteBlockCount w) (tokenList w) x.

(** A window together with the process-wide buffer store it allocates
    from. *)
Record WS : Type := mkWS { win : Window; heap : Heap }.

Definition getW : M WS Window := fun s => Ret (win s) s.
Definition modW (f : Window -> Window) : M WS unit :=
  fun s => Ret tt (mkWS (f (win s)) (heap s)).
Definition onHeap {A} (m : M Heap A) : M WS A :=
  fun s => match m (heap s) with
           | Ret a h => Ret a (mkWS (win s) h)
           | Throw e h => Throw e (mkWS (win s) h)
           end.

(** Reading through a page reference. *)
Definition deref (r : nat) : M WS Page :=
  fun s => match objs (win s) !! r with
           | Some p => Ret p s
           | None => Throw DanglingRef s
           end.

(** [this.port.send(view)]: the bytes under the view are handed to the
    transport. *)
Definition send (v : View) : M WS unit :=
  fun s => Ret tt (mkWS (set_port (port (win s) ++ [view_bytes (heap s) v]) (win s))
                        (heap s)).

(** [page.buffer.subarray(start, stop)] *)
Definition page_subarray (p : Page) (start stop : Z) : M WS View :=
  fun s => Ret (subarray (whole (heap s) (buffer p)) start stop) s.

(** window.js:541-554 *)
Definition _allocPage (headOffset : Z) : M WS nat :=
  b <- onHeap bufferPool_alloc ;;
  w <- getW ;;
  let r := length (objs w) in
  modW (fun w => set_pages (pages w ++ [r])
                   (set_objs (objs w ++ [mkPage headOffset b 0]) w)) ;;;
  ret r.

(** window.js:556-570 *)
Definition _flushMutationGroup : M WS unit :=
  w <- getW ;;
  match mutationGroup w with
  | Some mg =>
      (if connected w && (global_writeOffset w - pageStartOffset mg >? 0)
       then
         p <- deref (page mg) ;;
         let offset := pageStartOffset mg - global_headOffset p in
         let size := global_writeOffset w - pageStartOffset mg in
         v <- page_subarray p offset (offset + size) ;;
         send v
       else ret tt)
  | None => ret tt
  end ;;;
  modW (set_mutationGroup None).

(** window.js:572-614 *)
Definition _allocCommandBuffer (size : Z) : M WS View :=
  w <- getW ;;
  mg <- match mutationGroup w with
        | Some mg => ret mg
        | None =>
            r <- match last (pages w) with
                 | None => _allocPage (global_writeOffset w)   (* pageCount == 0 *)
                 | Some r => ret r                            (* pages[pageCount - 1] *)
                 end ;;
            let mg := mkMutationGroup r (global_writeOffset w) in
            modW (set_mutationGroup (Some mg)) ;;;
            ret mg
        end ;;
  p <- deref (page mg) ;;
  let currentPageOffset := global_writeOffset w - global_headOffset p in
  rc <-
      (if currentPageOffset + size >=? PAGE_SIZE
       then
         (* page.finalSize = currentPageOffset, through the reference *)
         modW (fun w => set_objs
                 (<[page mg := mkPage (global_headOffset p) (buffer p)
                                      currentPageOffset]> (objs w)) w) ;;;
         _flushMutationGroup ;;;
         newPage <- _allocPage (global_writeOffset w) ;;
         modW (set_mutationGroup
                 (Some (mkMutationGroup newPage (global_writeOffset w)))) ;;;
         ret (newPage, 0)
       else ret (page mg, currentPageOffset)) ;;
  let '(r, currentPageOffset) := rc in
  modW (fun w => set_global_writeOffset (global_writeOffset w + size) w) ;;;
  q <- deref r ;;
  page_subarray q currentPageOffset (currentPageOffset + size).

(** The [while (true)] loop of registerReadOffset (window.js:402-420).  Each
    round looks at [this.pages[0]] only and either leaves the loop or shifts
    that entry off, so the loop is a recursion on the array; on an empty
    array [page] is undefined and [page.finalSize] throws. *)
Fixpoint freePages (readOffset : Z) (ps : list nat) : M WS unit :=
  match ps with
  | [] => throw TypeError
  | r :: rest =>
      p <- deref r ;;
      if finalSize p =? 0 then ret tt
      else if readOffset >=? global_headOffset p + finalSize p then
        modW (set_pages rest) ;;;                      (* this.pages.shift() *)
        onHeap (bufferPool_returnBuffer (buffer p)) ;;;
        freePages readOffset rest
      else ret tt
  end.

(** window.js:393-421 *)
Definition registerReadOffset (readOffset : Z) : M WS unit :=
  w <- getW ;;
  if readOffset <? global_readOffset w
  then throw (InvalidOffset readOffset (global_readOffset w))
  else
    modW (set_global_readOffset readOffset) ;;;
    freePages readOffset (pages w).

(** The [for] loop of _restreamUnreadPages (window.js:429-443); it returns
    the final value of the local [readOffset]. *)
Fixpoint restreamLoop (ps : list nat) (readOffset : Z) : M WS Z :=
  match ps with
  | [] => ret readOffset
  | r :: rest =>
      p <- deref r ;;
      w <- getW ;;
      let offset := readOffset - global_headOffset p in
      let size :=
        if finalSize p >? 0
        then (global_headOffset p + finalSize p) - readOffset
        else global_writeOffset w - readOffset in
      v <- page_subarray p offset (offset + size) ;;
      send v ;;;
      restreamLoop rest (readOffset + size)
  end.

(** window.js:423-451 *)
Definition _restreamUnreadPages : M WS unit :=
  w <- getW ;;
  if global_writeOffset w >? global_readOffset w then
    readOffset <- restreamLoop (pages w) (global_readOffset w) ;;
    if negb (readOffset =? global_writeOffset w)
    then throw PlainError
    else ret tt
  else ret tt.

(** window.js:453-471; [now] is the value of [Date.now()]. *)
Definition reconnect (newPort : list (list byte)) (readOffset now : Z)
  : M WS unit :=
  modW (set_port newPort) ;;;
  modW (set_connected true) ;;;
  modW (set_lastPongTime now) ;;;
  registerReadOffset readOffset ;;;
  _restreamUnreadPages.

(** window.js:473-476 *)
Definition disconnect : M WS unit := modW (set_connected false).

(** window.js:385-391, with the offset already read from the pong
    message. *)
Definition registerPong (readOffset now : Z) : M WS unit :=
  modW (set_lastPongTime now) ;;;
  modW (set_connected true) ;;;
  registerReadOffset readOffset.

(** window.js:353-355; [pingBuffer] is [Buffer.from([0])]. *)
Definition sendPing : M WS unit :=
  modW (fun w => set_port (port w ++ [[x00]]) w).

Definition CMD_INIT_WINDOW : Z := 2.
Definition CMD_REMOVE_BLOCKS : Z := 9.
Definition CMD_MODIFY_TOKENMAP : Z := 12.

(** window.js:639-643 *)
Definition _streamInitWindow : M WS unit :=
  buf <- _allocCommandBuffer (1 + 21) ;;
  w <- getW ;;
  onHeap (writeUint8 buf CMD_INIT_WINDOW 0) ;;;
  onHeap (write buf (String.list_byte_of_string (id w)) 1 21).

(** window.js:368-383 *)
Definition flushBlockDeleteQueue : M WS unit :=
  w <- getW ;;
  if deleteBlockCount w >? 0 then
    buf <- _allocCommandBuffer (1 + 2 * deleteBlockCount w + 2) ;;
    onHeap (writeUint8 buf CMD_REMOVE_BLOCKS 0) ;;;
    onHeap (copy_into (deleteBlockCommandBuffer w) buf 1 0
                      (deleteBlockCount w * 2)) ;;;
    onHeap (writeUint16BE buf 0 (1 + 2 * deleteBlockCount w)) ;;;
    modW (set_deleteBlockCount 0)
  else ret tt.

(** window.js:357-366.  [deleteBlockCommandBuffer] belongs to the window
    alone and is held by value. *)
Definition _handleBlockCleanup (blockId : Z) : M WS unit :=
  w <- getW ;;
  (if deleteBlockCount w =? 1000 then flushBlockDeleteQueue else ret tt) ;;;
  w <- getW ;;
  let offset := deleteBlockCount w * 2 in
  let len := Z.of_nat (length (deleteBlockCommandBuffer w)) in
  if (0 <=? blockId) && (blockId <=? 65535) then
    match byte_of_Z (blockId / 256), byte_of_Z (blockId mod 256) with
    | Some hi, Some lo =>
        if (0 <=? offset) && (offset + 2 <=? len) then
          modW (fun w => set_deleteBlockCommandBuffer
                  (blit (deleteBlockCommandBuffer w) (Z.to_nat offset) [hi; lo]) w) ;;;
          modW (fun w => set_deleteBlockCount (deleteBlockCount w + 1) w)
        else throw RangeError
    | _, _ => throw RangeError
    end
  else throw RangeError.

(** window.js:1138-1148 *)
Definition _streamModifyToken (tokenName : string) : M WS unit :=
  let tokenLength := Z.of_nat (String.length tokenName) in
  buf <- _allocCommandBuffer (1 + 1 + tokenLength + 1) ;;
  onHeap (writeUint8 buf CMD_MODIFY_TOKENMAP 0) ;;;
  onHeap (writeUint8 buf tokenLength 1) ;;;
  onHeap (write buf (String.list_byte_of_string tokenName) 2 tokenLength) ;;;
  onHeap (writeUint8 buf 0 (2 + tokenLength)).

(** window.js:1115-1125; [None] is the [undefined] that [Map.get] gives for
    a missing key. *)
Definition _registerAttrKey (attrName : string) : M WS (option Z) :=
  w <- getW ;;
  (if negb (JsMap.has (tokenList w) attrName) then
     let newId := JsMap.size (tokenList w) in
     modW (fun w => set_tokenList (JsMap.set (tokenList w) attrName newId) w) ;;;
     _streamModifyToken attrName
   else ret tt) ;;;
  w <- getW ;;
  ret (JsMap.get (tokenList w) attrName).

(** window.js:1127-1136 *)
Definition _registerStyleKey (propName : string) : M WS (option Z) :=
  w <- getW ;;
  (if negb (JsMap.has (tokenList w) propName) then
     let newId := JsMap.size (tokenList w) in
     modW (fun w => set_tokenList (JsMap.set (tokenList w) propName newId) w) ;;;
     _streamModifyToken propName
   else ret tt) ;;;
  w <- getW ;;
  ret (JsMap.get (tokenList w) propName).

(** The part of the constructor (window.js:150-206) that concerns the fields
    above: the fields are initialised and the INIT_WINDOW command is
    streamed.  The reactive root created afterwards (window.js:300-320)
    produces further commands through the methods of this section. *)
Definition blank (windowId : string) (newPort : list (list byte)) (now : Z)
  : Window :=
  {| id := windowId;
     port := newPort;
     destroyFnCallback := None;
     connected := true;
     objs := [];
     pages := [];
     global_readOffset := 0;
     global_writeOffset := 0;
     mutationGroup := None;
     deleteBlockCommandBuffer := replicate 2000 x00;
     deleteBlockCount := 0;
     tokenList := [(EmptyString, 0)];
     lastPongTime := now |}.

Definition construct (windowId : string) (newPort : list (list byte)) (now : Z)
  (h : Heap) : Res WS unit :=
  _streamInitWindow (mkWS (blank windowId newPort now) h).

(** window.js:536-538: [this.pages.forEach(page =>
    bufferPool.returnBuffer(page.buffer))] *)
Fixpoint returnPages (ps : list nat) : M WS unit :=
  match ps with
  | [] => ret tt
  | r :: rest =>
      p <- deref r ;;
      onHeap (bufferPool_returnBuffer (buffer p)) ;;;
      returnPages rest
  end.

(** ** ATTACH_ANCHOR commands (window.js:791-846) *)

Definition CMD_ATTACH_ANCHOR : Z := 3.

(** The operands of [|] are converted to 32-bit signed integers. *)
Definition toInt32 (z : Z) : Z :=
  (z + 2147483648) mod 4294967296 - 2147483648.

Definition js_or (a b : Z) : Z := Z.lor (toInt32 a) (toInt32 b).

(** window.js:791-834.  [value] stands for its UTF-8 bytes, which is what
    [Buffer.from(value, "utf-8")] makes of it; the length is checked only
    after the range has been requested and the head of the command has been
    written. *)
Definition _streamTextInitCommand (blockId anchorIndex : Z) (value : string)
  : M WS unit :=
  let textBuffer := String.list_byte_of_string value in
  let textLength := Z.of_nat (length textBuffer) in
  buf2 <- _allocCommandBuffer (1 + 2 + 1 + 2 + textLength + 2) ;;
  onHeap (writeUint8 buf2 CMD_ATTACH_ANCHOR 0) ;;;
  onHeap (writeUint16BE buf2 blockId 1) ;;;
  onHeap (writeUint8 buf2 anchorIndex 3) ;;;
  (if textLength >? 32677 then throw PlainError else ret tt) ;;;
  onHeap (writeUint16BE buf2 textLength 4) ;;;
  onHeap (copy_into textBuffer buf2 6 0 textLength) ;;;
  onHeap (writeUint16BE buf2 65535 (6 + textLength)).

(** window.js:836-846 *)
Definition _streamAttachBlockCommand (parentBlockId anchorIndex blockId : Z)
  : M WS unit :=
  buf2 <- _allocCommandBuffer (1 + 2 + 1 + 2 + 2) ;;
  onHeap (writeUint8 buf2 CMD_ATTACH_ANCHOR 0) ;;;
  onHeap (writeUint16BE buf2 parentBlockId 1) ;;;
  onHeap (writeUint8 buf2 anchorIndex 3) ;;;
  onHeap (writeUint16BE buf2 (js_or blockId (Z.shiftl 1 15)) 4) ;;;
  onHeap (writeUint16BE buf2 65535 6).

(** ** Cookie strings (window.js:31-82)

    A JavaScript string is a sequence of UTF-16 code units. *)

Definition JsString : Type := list N.

(** A literal of ASCII characters. *)
Definition js (s : string) : JsString := Byte.to_N <$> String.list_byte_of_string s.

Definition EQUALS : N := 61.        (* '=' *)
Definition SPACE : N := 32.         (* ' ' *)
Definition SEMICOLON : N := 59.     (* ';' *)

(** The code units that [trim] removes: white space and line terminators. *)
Definition is_space (c : N) : bool :=
  bool_decide (c ∈ [9; 10; 11; 12; 13; 32; 160; 5760; 8232; 8233; 8239; 8287;
                    12288; 65279]%N)
  || ((8192 <=? c) && (c <=? 8202))%N.

Fixpoint drop_spaces (s : JsString) : JsString :=
  match s with
  | c :: rest => if is_space c then drop_spaces rest else s
  | [] => []
  end.

(** [s.trim()] *)
Definition trim (s : JsString) : JsString :=
  reverse (drop_spaces (reverse (drop_spaces s))).

(** [s.substring(start, end)]: both indices are clamped to the string and
    swapped when they come in the wrong order. *)
Definition substring (s : JsString) (start stop : Z) : JsString :=
  let len := Z.of_nat (length s) in
  let a := Z.max 0 (Z.min start len) in
  let b := Z.max 0 (Z.min stop len) in
  slice s (Z.min a b) (Z.max a b - Z.min a b).

(** [s.indexOf(searchString, position)]; [k] is the index of the first code
    unit of [s]. *)
Fixpoint indexOf_from (s searchString : JsString) (k : Z) : Z :=
  if bool_decide (searchString `prefix_of` s) then k
  else match s with
       | [] => -1
       | _ :: rest => indexOf_from rest searchString (k + 1)
       end.

Definition indexOf (s searchString : JsString) (position : Z) : Z :=
  let p := Z.max 0 (Z.min position (Z.of_nat (length s))) in
  indexOf_from (drop (Z.to_nat p) s) searchString p.

(** How the [for] loop of [getCookieValue] ends. *)
Inductive Scan : Type :=
| ReturnNull                       (* return null, window.js:36 *)
| Break (valueStart : Z)           (* break, window.js:41 and 49 *)
| Done.                            (* the string is exhausted *)

(** The [for] loop (window.js:34-57) from index [i] on; [rest] holds the
    code units from [i] on, and [keyStart] is the local of that name. *)
Fixpoint scanCookies (cookieString key rest : JsString) (i keyStart : Z) : Scan :=
  match rest with
  | [] => Done
  | c :: rest' =>
      if (c =? EQUALS)%N && (keyStart =? i) then ReturnNull
      else
        let step1 :=
          if (c =? EQUALS)%N && negb (keyStart =? i) then
            if bool_decide (trim (substring cookieString keyStart i) = key)
            then inl (i + 1)
            else inr (-1)
          else inr keyStart in
        match step1 with
        | inl valueStart => Break valueStart
        | inr keyStart =>
            let step2 :=
              if (c =? SPACE)%N || (c =? SEMICOLON)%N then
                if negb (keyStart =? -1) then
                  if bool_decide (trim (substring cookieString keyStart i) = key)
                  then inl (i + 1)
                  else inr (-1)
                else inr keyStart
              else inr keyStart in
            match step2 with
            | inl valueStart => Break valueStart
            | inr keyStart =>
                let keyStart :=
                  if (keyStart =? -1) && negb (c =? SPACE)%N
                     && negb (c =? SEMICOLON)%N
                  then i else keyStart in
                scanCookies cookieString key rest' (i + 1) keyStart
            end
        end
  end.

(** The [while] loop (window.js:62-64) from index [valueEnd] on. *)
Fixpoint scanValue (rest : JsString) (valueEnd : Z) : Z :=
  match rest with
  | [] => valueEnd
  | c :: rest' =>
      if (c =? SEMICOLON)%N then valueEnd else scanValue rest' (valueEnd + 1)
  end.

Section Cookies.

(** [decodeURIComponent] is a built-in; [Decoded] stands for what a call of
    it yields, a string or a URIError. *)
Context {Decoded : Type}.
Variable decodeURIComponent : JsString -> Decoded.

(** window.js:31-66; [None] is [null]. *)
Definition getCookieValue (cookieString key : JsString) : option Decoded :=
  match scanCookies cookieString key cookieString 0 0 with
  | ReturnNull | Done => None
  | Break valueStart =>
      let valueEnd :=
        scanValue (drop (Z.to_nat valueStart) cookieString) valueStart in
      Some (decodeURIComponent (substring cookieString valueStart valueEnd))
  end.

End Cookies.

(** window.js:68-82 *)
Definition setCookieValue (cookieString key value : JsString) : JsString :=
  let keyValue := key ++ [EQUALS] ++ value ++ [SEMICOLON] in
  let keyIndex := indexOf cookieString (key ++ [EQUALS]) 0 in
  if negb (keyIndex =? -1) then
    let endOfKey := indexOf cookieString [SEMICOLON] keyIndex in
    let endOfKey :=
      if endOfKey =? -1 then Z.of_nat (length cookieString) else endOfKey in
    substring cookieString 0 keyIndex ++ keyValue ++
    substring cookieString endOfKey (Z.of_nat (length cookieString))
  else if negb (bool_decide (cookieString = [])) then
    keyValue ++ [SPACE] ++ cookieString
  else keyValue.

(** ** Event handlers (window.js:616-637) *)

Section EventHandlers.
Context {Handler Data : Type}.

(** [this.lastEventHandlerId] and [this.eventHandlers].  The counter is
    modelled as [Z]: [++] is exact as long as it stays below 2^53. *)
Record Handlers : Type := mkHandlers {
  lastEventHandlerId : Z;
  eventHandlers : list (Z * Handler)
}.

(** window.js:193-194 *)
Definition noHandlers : Handlers := mkHandlers 0 [].

(** window.js:616-622 *)
Definition _allocateEventHandler (handlerFunction : Handler) (t : Handlers)
  : Z * Handlers :=
  let t := mkHandlers (lastEventHandlerId t + 1) (eventHandlers t) in
  let t := mkHandlers (lastEventHandlerId t)
             (JsMap.set (eventHandlers t) (lastEventHandlerId t) handlerFunction) in
  (lastEventHandlerId t, t).

(** window.js:624-626 *)
Definition _deallocateEventHandlers (handlerIds : list Z) (t : Handlers)
  : Handlers :=
  foldl (fun t handlerId =>
           mkHandlers (lastEventHandlerId t)
                      (JsMap.delete (eventHandlers t) handlerId))
        t handlerIds.

(** window.js:628-637: the call of a handler that is made, if any; for an
    id without a handler there is a warning only. *)
Definition _executeClientEvent (handlerId : Z) (data : Data) (t : Handlers)
  : option (Handler * Data) :=
  match JsMap.get (eventHandlers t) handlerId with
  | None => None
  | Some eventHandler => Some (eventHandler, data)
  end.

(** What happens to the table of a window over time. *)
Inductive HandlerOp : Type :=
| Allocate (handlerFunction : Handler)
| Deallocate (handlerIds : list Z).

Definition handlerStep (t : Handlers) (o : HandlerOp) : Handlers :=
  match o with
  | Allocate h => (_allocateEventHandler h t).2
  | Deallocate ids => _deallocateEventHandlers ids t
  end.

Definition handlersAfter (ops : list HandlerOp) (t : Handlers) : Handlers :=
  foldl handlerStep t ops.

End EventHandlers.

(** ** Element updates (window.js:962-1113) *)

Definition CMD_ELEMENT_UPDATE : Z := 7.
Definition UPDATE_MODE_STYLEPROP : Z := 1.
Definition UPDATE_MODE_SET_ATTR : Z := 2.
Definition UPDATE_MODE_REMOVE_ATTR : Z := 5.

(** [s.length] of the string whose UTF-8 bytes are [s]: the number of its
    UTF-16 code units.  A byte that begins a character of up to three bytes
    stands for one unit, a byte that begins a character of four bytes for
    two, a continuation byte for none. *)
Definition utf16_units (b : byte) : Z :=
  let n := Z.of_N (Byte.to_N b) in
  if n <? 128 then 1 else if n <? 192 then 0 else if n <? 240 then 1 else 2.

Definition js_length (s : string) : Z :=
  foldr (fun b n => utf16_units b + n) 0 (String.list_byte_of_string s).

(** An attribute or style value handed to an element effect: a string, a
    value that is not a string and counts as false, or another value,
    given by the text that [toString()] makes of it. *)
Inductive PropValue : Type :=
| Str (s : string)
| Falsy
| Truthy (text : string).

(** [buf.writeUint8(propName, 5)] for the result of a token registration;
    [undefined] is stored as 0. *)
Definition writeKey (buf : View) (propName : option Z) (offset : Z) : M Heap unit :=
  writeUint8 buf (default 0 propName) offset.

(** window.js:977-996, for the element [targetId] of block [blockId] *)
Definition _staticHelper (blockId targetId mode : Z) (propName : option Z)
    (propValue : string) : M WS unit :=
  buf <- _allocCommandBuffer (1 + 2 + 1 + 1 + 1 + 2 + js_length propValue) ;;
  onHeap (writeUint8 buf CMD_ELEMENT_UPDATE 0) ;;;
  onHeap (writeUint16BE buf blockId 1) ;;;
  onHeap (writeUint8 buf targetId 3) ;;;
  onHeap (writeUint8 buf mode 4) ;;;
  onHeap (writeKey buf propName 5) ;;;
  onHeap (writeUint16BE buf (js_length propValue) 6) ;;;
  onHeap (write buf (String.list_byte_of_string propValue) 8 (js_length propValue)).

(** window.js:1078-1086 *)
Definition removeAttribute (blockId targetId : Z) (propName : option Z)
  : M WS unit :=
  buf <- _allocCommandBuffer (1 + 2 + 1 + 1 + 1) ;;
  onHeap (writeUint8 buf CMD_ELEMENT_UPDATE 0) ;;;
  onHeap (writeUint16BE buf blockId 1) ;;;
  onHeap (writeUint8 buf targetId 3) ;;;
  onHeap (writeUint8 buf UPDATE_MODE_REMOVE_ATTR 4) ;;;
  onHeap (writeKey buf propName 5).

(** window.js:1088-1101 *)
Definition setAttribute (blockId targetId : Z) (propName : string)
    (propValue : PropValue) : M WS unit :=
  attrKey <- _registerAttrKey propName ;;
  match propValue with
  | Str s => _staticHelper blockId targetId UPDATE_MODE_SET_ATTR attrKey s
  | Falsy => removeAttribute blockId targetId attrKey
  | Truthy text => _staticHelper blockId targetId UPDATE_MODE_SET_ATTR attrKey text
  end.

(** window.js:1102-1104 *)
Definition setClassName (blockId targetId : Z) (className : PropValue)
  : M WS unit :=
  setAttribute blockId targetId "class" className.

(** ** ATTACH_ANCHOR commands for lists (window.js:848-891) *)





(** ** Event handlers of a block (window.js:645-686, 922-960) *)

Definition CMD_ATTACH_EVENT_V2 : Z := 5.
Definition CMD_INSTALL_CLIENT_FUNCTION : Z := 10.

(** The [forEach] loop of [_streamEventInitCommandV2] (window.js:657-660);
    it returns the final value of [offset]. *)
Fixpoint writeBindIds (buf : View) (serverBindIds : list Z) (offset : Z)
  : M WS Z :=
  match serverBindIds with
  | [] => ret offset
  | bindId :: rest =>
      onHeap (writeUint16BE buf bindId offset) ;;;
      writeBindIds buf rest (offset + 2)
  end.

(** window.js:645-663 *)
Definition _streamEventInitCommandV2 (blockId targetId eventType clientFnId : Z)
    (serverBindIds : list Z) : M WS unit :=
  buf <- _allocCommandBuffer
           (1 + 2 + 1 + 1 + 2 + (Z.of_nat (length serverBindIds) * 2 + 2)) ;;
  onHeap (writeUint8 buf CMD_ATTACH_EVENT_V2 0) ;;;
  onHeap (writeUint16BE buf blockId 1) ;;;
  onHeap (writeUint8 buf targetId 3) ;;;
  onHeap (writeUint8 buf eventType 4) ;;;
  onHeap (writeUint16BE buf clientFnId 5) ;;;
  offset <- writeBindIds buf serverBindIds 7 ;;
  onHeap (writeUint16BE buf 0 offset).

Section BlockEvents.
Context {Handler : Type}.

(** [JSON.stringify(clientFunctionDefinitions.get(functionId))]: the
    definitions come from [declare.js], which is not among the sources;
    the text of a function is a parameter. *)
Variable clientFnString : Z -> string.

(** The part of a window that event handling works on: the stream, the
    handler table and [clientFunctionInstallationSet]. *)
Record Session : Type := mkSession {
  ws : WS;
  table : @Handlers Handler;
  clientFunctionInstallationSet : list Z
}.

Definition onWS {A} (m : M WS A) : M Session A :=
  fun σ =>
    match m (ws σ) with
    | Ret a s => Ret a (mkSession s (table σ) (clientFunctionInstallationSet σ))
    | Throw e s => Throw e (mkSession s (table σ) (clientFunctionInstallationSet σ))
    end.

(** [this._allocateEventHandler(bindFn)] on the session's table. *)
Definition allocateHandler (bindFn : Handler) : M Session Z :=
  fun σ =>
    let '(handlerId, t) := _allocateEventHandler bindFn (table σ) in
    Ret handlerId (mkSession (ws σ) t (clientFunctionInstallationSet σ)).

(** [serverBindFns.map(bindFn => ...)] (window.js:947-951) *)
Fixpoint allocateHandlers (serverBindFns : list Handler) : M Session (list Z) :=
  match serverBindFns with
  | [] => ret []
  | bindFn :: rest =>
      handlerId <- allocateHandler bindFn ;;
      ids <- allocateHandlers rest ;;
      ret (handlerId :: ids)
  end.

(** window.js:673-686; [buf.write(clientFnString, 5)] writes as much of the
    text as the range holds. *)
Definition _streamFunctionInstallCommand (functionId : Z) : M Session unit :=
  σ <- get ;;
  if (functionId >? 1)
     && negb (bool_decide (functionId ∈ clientFunctionInstallationSet σ))
  then
    let text := clientFnString functionId in
    buf <- onWS (_allocCommandBuffer (1 + 2 + 2 + js_length text)) ;;
    onWS (onHeap (writeUint8 buf CMD_INSTALL_CLIENT_FUNCTION 0)) ;;;
    onWS (onHeap (writeUint16BE buf functionId 1)) ;;;
    onWS (onHeap (writeUint16BE buf (js_length text) 3)) ;;;
    onWS (onHeap (write buf (String.list_byte_of_string text) 5
                        (v_length buf - 5))) ;;;
    modify (fun σ => mkSession (ws σ) (table σ)
                       (clientFunctionInstallationSet σ ++ [functionId]))
  else ret tt.

(** What [eventHandler.fn] can be: nothing, a server function, a client
    function with its id and the server functions bound to it, or another
    value. *)
Inductive EventFn : Type :=
| NoFn
| ServerFn (fn : Handler)
| ClientFn (clientFnId : Z) (serverBindFns : list Handler)
| OtherFn.

Record EventHandler : Type := mkEventHandler {
  fn : EventFn;
  targetId : Z;
  type : Z
}.

(** The body of the [forEach] of [_handleBlockEventHandlers]
    (window.js:925-955); it returns the ids it has pushed onto
    [eventHandlerIds].  Without a truthy [clientFnId], [serverBindFns]
    stays undefined and [serverBindFns.map] throws. *)
Definition handleEventHandler (newBlockId : Z) (eventHandler : EventHandler)
  : M Session (list Z) :=
  let attach clientFnId serverBindFns :=
    serverBindIds <- allocateHandlers serverBindFns ;;
    _streamFunctionInstallCommand clientFnId ;;;
    onWS (_streamEventInitCommandV2 newBlockId (targetId eventHandler)
            (type eventHandler) clientFnId serverBindIds) ;;;
    ret serverBindIds in
  match fn eventHandler with
  | NoFn => ret []
  | ServerFn fn => attach 1 [fn]
  | ClientFn clientFnId serverBindFns =>
      if clientFnId =? 0 then throw TypeError
      else attach clientFnId serverBindFns
  | OtherFn => throw TypeError
  end.

(** window.js:922-960; the result is [eventHandlerIds], which the cleanup
    callback hands to [_deallocateEventHandlers]. *)
Fixpoint _handleBlockEventHandlers (newBlockId : Z)
    (eventHandlers : list EventHandler) : M Session (list Z) :=
  match eventHandlers with
  | [] => ret []
  | eventHandler :: rest =>
      ids <- handleEventHandler newBlockId eventHandler ;;
      more <- _handleBlockEventHandlers newBlockId rest ;;
      ret (ids ++ more)
  end.

End BlockEvents.

(** ** WindowManager (window_manager.js) *)

(** Modelled from the spec: the rate limiter handed to the manager
    (package fast-ratelimit, not part of the sources): a per-session token
    bucket of [threshold] messages per interval of [ttl] seconds
    (section 4.7).  [consumeSync] answers whether the session is under its
    limit and takes one token if it is; a bucket is created full by the
    first message after the previous one ran out of time. *)
Record Bucket : Type := mkBucket { tokens : Z; expires : Z }.

Record Limiter : Type := mkLimiter {
  threshold : Z;
  ttl : Z;                                   (* seconds *)
  buckets : list (string * Bucket)
}.

Definition live_bucket (l : Limiter) (namespace : string) (now : Z)
  : option Bucket :=
  match JsMap.get (buckets l) namespace with
  | Some b => if now <? expires b then Some b else None
  | None => None
  end.

Definition consumeSync (namespace : string) (now : Z) (l : Limiter)
  : bool * Limiter :=
  let b := match live_bucket l namespace now with
           | Some b => b
           | None => mkBucket (threshold l) (now + ttl l * 1000)
           end in
  if tokens b >? 0
  then (true, mkLimiter (threshold l) (ttl l)
                (JsMap.set (buckets l) namespace
                           (mkBucket (tokens b - 1) (expires b))))
  else (false, mkLimiter (threshold l) (ttl l)
                 (JsMap.set (buckets l) namespace b)).

Record World : Type := mkWorld {
  store : Heap;                        (* Buffer blocks and bufferPool *)
  wins : list Window;                  (* the Window objects, by identity *)
  windowMap : list (string * nat);     (* Map: windowId -> Window *)
  queue : list (nat * list byte);      (* [window, message] pairs *)
  wakeups : nat;    (* how often emptyQueuePromise has been resolved *)
  messageLimiter : Limiter;
  windowDestroyCallback : bool;        (* whether onWindowDestroy was called *)
  destroyNotified : list string        (* ids passed to that callback *)
}.

Definition set_store x m := mkWorld x (wins m) (windowMap m) (queue m) (wakeups m) (messageLimiter m) (windowDestroyCallback m) (destroyNotified m).
Definition set_wins x m := mkWorld (store m) x (windowMap m) (queue m) (wakeups m) (messageLimiter m) (windowDestroyCallback m) (destroyNotified m).
Definition set_windowMap x m := mkWorld (store m) (wins m) x (queue m) (wakeups m) (messageLimiter m) (windowDestroyCallback m) (destroyNotified m).
Definition set_queue x m := mkWorld (store m) (wins m) (windowMap m) x (wakeups m) (messageLimiter m) (windowDestroyCallback m) (destroyNotified m).
Definition set_wakeups x m := mkWorld (store m) (wins m) (windowMap m) (queue m) x (messageLimiter m) (windowDestroyCallback m) (destroyNotified m).
Definition set_messageLimiter x m := mkWorld (store m) (wins m) (windowMap m) (queue m) (wakeups m) x (windowDestroyCallback m) (destroyNotified m).
Definition set_destroyNotified x m := mkWorld (store m) (wins m) (windowMap m) (queue m) (wakeups m) (messageLimiter m) (windowDestroyCallback m) x.

(** window_manager.js:28-47 *)
Definition newManager (h : Heap) : World :=
  {| store := h;
     wins := [];
     windowMap := [];
     queue := [];
     wakeups := 0;
     messageLimiter := mkLimiter 8 2 [];
     windowDestroyCallback := false;
     destroyNotified := [] |}.

(** Running a method of the window object [r]. *)
Definition onWindow {A} (r : nat) (m : M WS A) : M World A :=
  fun σ =>
    match wins σ !! r with
    | None => Throw DanglingRef σ
    | Some w =>
        match m (mkWS w (store σ)) with
        | Ret a s => Ret a (set_store (heap s) (set_wins (<[r := win s]> (wins σ)) σ))
        | Throw e s => Throw e (set_store (heap s) (set_wins (<[r := win s]> (wins σ)) σ))
        end
    end.

(** The reactive root's disposer ([rootDisposer], made by
    [useDisposableEffect] of state.js, which is not among the sources) runs
    the window's cleanup callbacks; it is a parameter, one per window
    object. *)
Variable rootDisposer : nat -> M WS unit.

(** The closure that initWindow hands to [window.onDestroy]
    (window_manager.js:172-178), with its captured [windowId]. *)
Definition destroyCallback (windowId : string) : M World unit :=
  modify (fun σ => set_windowMap (JsMap.delete (windowMap σ) windowId) σ) ;;;
  σ <- get ;;
  if windowDestroyCallback σ
  then modify (fun σ => set_destroyNotified (destroyNotified σ ++ [windowId]) σ)
  else ret tt.

(** window.js:531-539 (the later of the two [destroy] methods of the class,
    which is the one in effect). *)
Definition destroy (self : nat) : M World unit :=
  onWindow self (rootDisposer self) ;;;
  w <- onWindow self getW ;;
  match destroyFnCallback w with
  | None => throw TypeError
  | Some k => destroyCallback k
  end ;;;
  onWindow self (w <- getW ;; returnPages (pages w)).

(** window_manager.js:80-122 *)
Definition _enqueueMessage (window : nat) (message : list byte) (now : Z)
  : M World unit :=
  σ <- get ;;
  let wasEmptyQueue := bool_decide (length (queue σ) = 0%nat) in
  w <- onWindow window getW ;;
  let '(isUnderLimit, l) := consumeSync (id w) now (messageLimiter σ) in
  modify (set_messageLimiter l) ;;;
  if negb isUnderLimit then ret tt
  else
    modify (fun σ => set_queue (queue σ ++ [(window, message)]) σ) ;;;
    if wasEmptyQueue
    then modify (fun σ => set_wakeups (S (wakeups σ)) σ)
    else ret tt.

(** [RSS_LOW_MEMORY_THRESHOLD] (window_manager.js:7) comes from the
    environment, 180 by default. *)
Variable RSS_LOW_MEMORY_THRESHOLD : Z.

(** The body of the [for] loop of the sweep (window_manager.js:138-156). *)
Definition lifecycleStep (now : Z) (isLowMemory : bool) (window : nat)
  : M World unit :=
  w <- onWindow window getW ;;
  let pongDiff := now - lastPongTime w in
  (if pongDiff >=? 6000
   then onWindow window (modW (set_connected false))
   else ret tt) ;;;
  w <- onWindow window getW ;;
  if negb (connected w) && (isLowMemory || (pongDiff >=? 60000))
  then destroy window                                   (* continue *)
  else
    onWindow window sendPing ;;;
    onWindow window flushBlockDeleteQueue.

(** [for (let window of this.windowMap.values())]: the iteration is live, an
    entry deleted before its turn is not visited. *)
Fixpoint sweepLoop (now : Z) (isLowMemory : bool)
    (entries : list (string * nat)) : M World unit :=
  match entries with
  | [] => ret tt
  | (k, r) :: rest =>
      σ <- get ;;
      (if bool_decide (JsMap.get (windowMap σ) k = Some r)
       then lifecycleStep now isLowMemory r
       else ret tt) ;;;
      sweepLoop now isLowMemory rest
  end.

(** The interval callback of _runWindowsLifecycleManagement
    (window_manager.js:126-157); [rss] is [process.memoryUsage().rss], in
    bytes. *)
Definition lifecycleTick (now rss : Z) : M World unit :=
  let isLowMemory := rss >? RSS_LOW_MEMORY_THRESHOLD * 1024 * 1024 in
  σ <- get ;;
  sweepLoop now isLowMemory (windowMap σ).

(** Modelled from the spec: the [Window] class that window_manager.js
    imports ([runtime_v2/window.js]) is not among the sources, so
    [new Window(windowId, initialPath, cookieString, build, port2)]
    (window_manager.js:164) is taken to create the window of section 4.5
    for this id and this transport, that is the constructor of
    src/v2/window.js given [port2] and a [pageParams] that holds
    [windowId].  That constructor called with the manager's five arguments
    as they stand would look for [windowId] in the path it receives as
    [pageParams] and end with a TypeError.  The rest is
    window_manager.js:160-179, after the build has been loaded. *)
Definition initWindow (windowId : string) (port2 : list (list byte)) (now : Z)
  : M World unit :=
  fun σ =>
    let r := length (wins σ) in
    let res := construct windowId port2 now (store σ) in
    let s := state_of res in
    let σ1 := set_store (heap s) (set_wins (wins σ ++ [win s]) σ) in
    match res with
    | Throw e _ => Throw e σ1
    | Ret _ _ =>
        (modify (fun σ => set_windowMap (JsMap.set (windowMap σ) windowId r) σ) ;;;
         onWindow r (modW (set_destroyFnCallback (Some windowId)))) σ1
    end.

(** Modelled from the spec: [reconnect] of the absent [Window] class of
    [runtime_v2/window.js], called as [reconnect(cookieString, readOffset)]
    (window_manager.js:188), is taken to be the reconnection of section
    4.5, where the window replays from the reported offset: the [reconnect]
    of src/v2/window.js on the window's present transport (this manager
    passes none) and that offset.  The method of src/v2/window.js called
    with the manager's two arguments as they stand would take the cookie
    string for the port and find no [readOffset] in the number it receives
    as [pageParams]: nothing would be replayed and [global_readOffset]
    would be left undefined.  The lookup in the registry and the method
    call on its result are window_manager.js:185-189. *)
Definition reconnectWindow (windowId : string) (readOffset now : Z)
  : M World unit :=
  σ <- get ;;
  match JsMap.get (windowMap σ) windowId with
  | None => throw TypeError           (* undefined.reconnect(...) *)
  | Some r =>
      onWindow r (w <- getW ;; reconnect (port w) readOffset now)
  end.

(** window_manager.js:191-195 *)
Definition disconnectWindow (windowId : string) : M World unit :=
  σ <- get ;;
  if JsMap.has (windowMap σ) windowId then
    match JsMap.get (windowMap σ) windowId with
    | None => throw TypeError
    | Some r => onWindow r disconnect
    end
  else ret tt.

(** ** Histories of a window

    The operations that the rest of the system performs on a window, and the
    state a window is in after a sequence of them. *)

(** An encoder call ([_stream...Command]): the command's size is computed,
    that many bytes are requested and the command is written into them. *)
Definition emit (bytes : list byte) : M WS View :=
  let size := Z.of_nat (length bytes) in
  buf <- _allocCommandBuffer size ;;
  onHeap (write buf bytes 0 size) ;;;
  ret buf.

Inductive Op : Type :=
| Alloc (size : nat)
| Emit (bytes : list byte)
| RegisterAttrKey (attrName : string)
| RegisterStyleKey (propName : string)
| HandleBlockCleanup (blockId : Z)
| FlushBlockDeleteQueue
| Flush
| Ack (readOffset : Z)
| Pong (readOffset now : Z)
| Disconnect
| Reconnect (newPort : list (list byte)) (readOffset now : Z)
| Ping.

Definition exec (o : Op) (s : WS) : WS :=
  match o with
  | Alloc size => state_of (_allocCommandBuffer (Z.of_nat size) s)
  | Emit bytes => state_of (emit bytes s)
  | RegisterAttrKey n => state_of (_registerAttrKey n s)
  | RegisterStyleKey n => state_of (_registerStyleKey n s)
  | HandleBlockCleanup b => state_of (_handleBlockCleanup b s)
  | FlushBlockDeleteQueue => state_of (flushBlockDeleteQueue s)
  | Flush => state_of (_flushMutationGroup s)
  | Ack r => state_of (registerReadOffset r s)
  | Pong r now => state_of (registerPong r now s)
  | Disconnect => state_of (disconnect s)
  | Reconnect p r now => state_of (reconnect p r now s)
  | Ping => state_of (sendPing s)
  end.

Definition run (ops : list Op) (s : WS) : WS := foldl (fun s o => exec o s) s ops.

(** The state of a window that was constructed on heap [h] and has then
    gone through [ops]. *)
Definition window_after (windowId : string) (newPort : list (list byte))
    (now : Z) (h : Heap) (ops : list Op) : WS :=
  run ops (state_of (construct windowId newPort now h)).

(** The page at the end of [this.pages]. *)
Definition tail_page (w : Window) : option Page :=
  match last (pages w) with
  | Some r => objs w !! r
  | None => None
  end.

(** Structure of the page list: every entry refers to a page object, the
    last page is the one being written, and an open mutation group sits on
    it. *)
Record wf (w : Window) : Prop := mk_wf {
  wf_refs : Forall (fun r => is_Some (objs w !! r)) (pages w);
  wf_tail : exists p, tail_page w = Some p /\ finalSize p = 0;
  wf_group : forall mg, mutationGroup w = Some mg ->
             last (pages w) = Some (page mg)
}.

(** What [_flushMutationGroup] hands to the transport for a group that
    starts at [start] on page [p]. *)
Definition flushed (connected : bool) (h : Heap) (p : Page) (start wo : Z)
  : list (list byte) :=
  if connected && (wo - start >? 0)
  then [view_bytes h (subarray (whole h (buffer p))
                        (start - global_headOffset p)
                        (start - global_headOffset p + (wo - start)))]
  else [].

Definition group_start (w : Window) : Z :=
  match mutationGroup w with
  | Some mg => pageStartOffset mg
  | None => global_writeOffset w
  end.

(** Outcomes of a computation started in a state that satisfies [P]. *)
Definition hoare {S A} (P : S -> Prop) (m : M S A)
    (Q : A -> S -> Prop) (E : Err -> S -> Prop) : Prop :=
  forall s, P s ->
    match m s with
    | Ret a s' => Q a s'
    | Throw e s' => E e s'
    end.

(** [P] holds after [m] however [m] ends. *)
Definition keeps {S A} (P : S -> Prop) (m : M S A) : Prop :=
  hoare P m (fun _ => P) (fun _ => P).

(** The buffers of the pages that [rs] refers to. *)
Definition buffers_of (w : Window) (rs : list nat) : list nat :=
  omap (fun r => buffer <$> objs w !! r) rs.

(** A property of the window alone. *)
Definition onWin (P : Window -> Prop) : WS -> Prop := fun s => P (win s).

(** * Invariants and assertions

    The vocabulary of the properties below: outcomes of monadic code,
    the invariants of a window and of the buffer store, the stream that
    a window has produced, and the registry of the manager. *)

Definition moves {S A} (R : S -> S -> Prop) (m : M S A) : Prop :=
  forall s, R s (state_of (m s)).

Definition acked_le (s s' : WS) : Prop :=
  global_readOffset (win s) <= global_readOffset (win s').

(** The queue after the items of [history] have been added, one after the
    other, to an empty queue. *)
Definition added {Node} (depth : Node -> Z) (history : list Node)
  : option (list Node) :=
  foldl (fun q item => match q with
                       | Some q => add depth q item
                       | None => None
                       end) (Some []) history.

(** The item added last among those of [history] that are not deeper than
    [item]. *)
Definition most_recent {Node} (depth : Node -> Z) (history : list Node)
    (item : Node) : option Node :=
  last (filter (fun y => depth y <= depth item) history).

(** [add] if it placed the new item immediately after the most recently
    inserted item that is not deeper. *)
Definition add_after_most_recent {Node} (depth : Node -> Z)
    (history : list Node) (item : Node) : Prop :=
  forall q x,
    added depth history = Some q -> most_recent depth history item = Some x ->
    exists before after, add depth q item = Some (before ++ x :: item :: after).

(** The pool of [s'] holds no buffer that the pool of [s] did not hold. *)
Definition pool_le (s s' : WS) : Prop :=
  forall b, b ∈ pool (heap s') -> b ∈ pool (heap s).

(** The buffer store and the acknowledged offset are the same. *)
Definition same_store (s s' : WS) : Prop :=
  heap s' = heap s /\ global_readOffset (win s') = global_readOffset (win s).

(** A buffer store as the pool leaves it: every block has [PAGE_SIZE]
    bytes, the free list refers to blocks and holds none twice. *)
Record heap_ok (h : Heap) : Prop := mk_heap_ok {
  ho_blocks : Forall (fun c => length c = Z.to_nat PAGE_SIZE) (bufs h);
  ho_pool : Forall (fun b => (b < length (bufs h))%nat) (pool h);
  ho_nodup : NoDup (pool h)
}.

(** What holds of a window and the store at any time: the page list is well
    formed, sizes are not negative, the last page starts at or before the
    write offset, and the pages' buffers are blocks of the store that are
    neither shared between pages nor in the free list. *)
Record ok (s : WS) : Prop := mk_ok {
  ok_wf : wf (win s);
  ok_sizes : forall r p, objs (win s) !! r = Some p -> 0 <= finalSize p;
  ok_tail : forall p, tail_page (win s) = Some p ->
            global_headOffset p <= global_writeOffset (win s);
  ok_blocks : Forall (fun c => length c = Z.to_nat PAGE_SIZE) (bufs (heap s));
  ok_pool : Forall (fun b => (b < length (bufs (heap s)))%nat) (pool (heap s));
  ok_buffers : forall r p, objs (win s) !! r = Some p ->
               (buffer p < length (bufs (heap s)))%nat;
  ok_owned : NoDup (buffers_of (win s) (pages (win s)) ++ pool (heap s))
}.

(** A heap computation that at most overwrites bytes of existing blocks. *)
Definition pokes {A} (m : M Heap A) : Prop :=
  forall h, state_of (m h) = h \/ exists v off bs, state_of (m h) = poke h v off bs.

(** The bytes of block [b]. *)
Definition content (h : Heap) (b : nat) : list byte :=
  default [] (bufs h !! b).

(** [h'] differs from [h] at most in the bytes under the view [v]. *)
Record within (v : View) (h h' : Heap) : Prop := mk_within {
  wi_pool : pool h' = pool h;
  wi_length : length (bufs h') = length (bufs h);
  wi_sizes : forall b, length (content h' b) = length (content h b);
  wi_other : forall b, b <> v_buffer v -> content h' b = content h b;
  wi_before : take (Z.to_nat (v_offset v)) (content h' (v_buffer v)) =
              take (Z.to_nat (v_offset v)) (content h (v_buffer v));
  wi_after : drop (Z.to_nat (v_offset v + v_length v)) (content h' (v_buffer v)) =
             drop (Z.to_nat (v_offset v + v_length v)) (content h (v_buffer v))
}.

(** The bytes that the step from [s] to [s'] added to the stream, read from
    the last page of [s']. *)
Definition appended (s s' : WS) : list byte :=
  match tail_page (win s') with
  | Some p =>
      slice (content (heap s') (buffer p))
            (global_writeOffset (win s) - global_headOffset p)
            (global_writeOffset (win s') - global_writeOffset (win s))
  | None => []
  end.

(** A view that lies inside its block. *)
Definition view_ok (h : Heap) (v : View) : Prop :=
  0 <= v_offset v /\ 0 <= v_length v /\
  v_offset v + v_length v <= Z.of_nat (length (content h (v_buffer v))).

(** The sealed pages [ps] hold the stream from [start] up to [stop], one
    after the other, each with between 1 and [PAGE_SIZE] bytes. *)
Fixpoint sealed_chain (os : list Page) (h : Heap) (stream : list byte)
    (ps : list nat) (start stop : Z) : Prop :=
  match ps with
  | [] => start = stop
  | r :: rest =>
      exists p,
        os !! r = Some p /\
        global_headOffset p = start /\
        0 < finalSize p <= PAGE_SIZE /\
        slice (content h (buffer p)) 0 (finalSize p) =
          slice stream start (finalSize p) /\
        sealed_chain os h stream rest (start + finalSize p) stop
  end.

(** The retained pages hold the stream [stream] from the first page's head
    offset up to the write offset: sealed pages first, then the page being
    written, which is not empty. *)
Record tight (s : WS) (stream : list byte) : Prop := mk_tight {
  ti_ok : ok s;
  ti_length : Z.of_nat (length stream) = global_writeOffset (win s);
  ti_count : 0 <= deleteBlockCount (win s) <= 1000;
  ti_pages : exists sealed t p start,
    pages (win s) = sealed ++ [t] /\
    objs (win s) !! t = Some p /\
    finalSize p = 0 /\
    0 <= start <= global_readOffset (win s) /\
    sealed_chain (objs (win s)) (heap s) stream sealed start (global_headOffset p) /\
    global_headOffset p < global_writeOffset (win s) /\
    global_writeOffset (win s) <= global_headOffset p + PAGE_SIZE /\
    slice (content (heap s) (buffer p)) 0
          (global_writeOffset (win s) - global_headOffset p) =
      slice stream (global_headOffset p)
            (global_writeOffset (win s) - global_headOffset p)
}.

(** The operations whose commands fit a page.  Every encoder asks for at
    least the opcode byte; the block-delete command takes up to 2003
    bytes. *)
Definition fits (o : Op) : Prop :=
  match o with
  | Alloc size => 1 <= Z.of_nat size <= PAGE_SIZE
  | Emit bytes => 1 <= Z.of_nat (length bytes) <= PAGE_SIZE
  | RegisterAttrKey n | RegisterStyleKey n =>
      3 + Z.of_nat (String.length n) <= PAGE_SIZE
  | HandleBlockCleanup _ | FlushBlockDeleteQueue => 2003 <= PAGE_SIZE
  | _ => True
  end.

(** The bytes the operations [ops] add to the stream when run from [s]. *)
Fixpoint produced (ops : list Op) (s : WS) : list byte :=
  match ops with
  | [] => []
  | o :: ops => appended s (exec o s) ++ produced ops (exec o s)
  end.

(** The whole stream of a window: the INIT_WINDOW command written by the
    constructor, then what its history produced. *)
Definition stream_of (windowId : string) (newPort : list (list byte))
    (now : Z) (h : Heap) (ops : list Op) : list byte :=
  let s0 := state_of (construct windowId newPort now h) in
  appended (mkWS (blank windowId newPort now) h) s0 ++ produced ops s0.

(** [v] is the range of the last page that starts at stream offset [k] and
    ends at the write offset. *)
Definition tail_view (k : Z) (v : View) (s : WS) : Prop :=
  exists p,
    tail_page (win s) = Some p /\
    v = mkView (buffer p) (k - global_headOffset p)
               (global_writeOffset (win s) - k).

(** A command is being written: the stream so far is [stream], of [k]
    bytes, and the bytes under [v] come after it. *)
Record written (k : Z) (stream : list byte) (v : View) (s : WS) : Prop :=
  mk_written {
    wr_tight : tight s (stream ++ view_bytes (heap s) v);
    wr_view : tail_view k v s;
    wr_length : Z.of_nat (length stream) = k;
    wr_ok : view_ok (heap s) v
}.

(** The MODIFY_TOKENMAP command as the client receives it. *)
Definition token_command (len : byte) (tokenName : string) : list byte :=
  x0c :: len :: String.list_byte_of_string tokenName ++ [x00].

(** What the manager reads of a window: its destroy callback, whether it is
    connected and when its last pong arrived. *)
Definition same_session (w w' : Window) : Prop :=
  destroyFnCallback w' = destroyFnCallback w /\
  connected w' = connected w /\
  lastPongTime w' = lastPongTime w.

(** The world after a method of window [r] has run and left [s]. *)
Definition upd (r : nat) (s : WS) (σ : World) : World :=
  set_store (heap s) (set_wins (<[r := win s]> (wins σ)) σ).

(** The destroy callback of the window object [r], if there is one. *)
Definition callback_of (σ : World) (r : nat) : option (option string) :=
  destroyFnCallback <$> wins σ !! r.

(** What a step of the sweep on window [r] may change: the window [r]
    itself, but not its destroy callback, the buffers, and the registry,
    from which only the key of [r]'s callback may go. *)
Record visits (r : nat) (σ σ' : World) : Prop := mk_visits {
  vi_others : forall r', r' <> r -> wins σ' !! r' = wins σ !! r';
  vi_callback : callback_of σ' r = callback_of σ r;
  vi_keeps : forall k, callback_of σ r <> Some (Some k) ->
             JsMap.get (windowMap σ') k = JsMap.get (windowMap σ) k;
  vi_shrinks : NoDup (windowMap σ).*1 ->
               NoDup (windowMap σ').*1 /\
               forall k x, JsMap.get (windowMap σ') k = Some x ->
                           JsMap.get (windowMap σ) k = Some x
}.

(** The registry as [initWindow] builds it: no key twice, and every
    registered window's destroy callback deletes its own key. *)
Record registry_ok (σ : World) : Prop := mk_registry_ok {
  ro_keys : NoDup (windowMap σ).*1;
  ro_callbacks : forall k r, JsMap.get (windowMap σ) k = Some r ->
                 callback_of σ r = Some (Some k)
}.

(** Messages of one session arriving one after the other, each at its
    time. *)
Fixpoint deliver (window : nat) (arrivals : list (Z * list byte))
  : M World unit :=
  match arrivals with
  | [] => ret tt
  | (now, message) :: rest =>
      _enqueueMessage window message now ;;; deliver window rest
  end.

(** The head offset of the last page. *)
Definition tail_head (s : WS) : option Z :=
  global_headOffset <$> tail_page (win s).

(** Nothing that concerns the transport or the page list has changed. *)
Record same_wire (s s' : WS) : Prop := mk_same_wire {
  sw_port : port (win s') = port (win s);
  sw_group : mutationGroup (win s') = mutationGroup (win s);
  sw_connected : connected (win s') = connected (win s);
  sw_pages : pages (win s') = pages (win s);
  sw_objs : objs (win s') = objs (win s);
  sw_write : global_writeOffset (win s') = global_writeOffset (win s)
}.

(** What one operation does to the transport: it stays connected, and
    either nothing is sent and the open group stays, or the open group of
    the last page is flushed, the next group starting at the write offset
    on this page or on a new page that starts there. *)
Record wire_step (s s' : WS) : Prop := mk_wire_step {
  ws_connected : connected (win s) = true -> connected (win s') = true;
  ws_cases :
    (port (win s') = port (win s) /\
     group_start (win s') = group_start (win s) /\
     tail_head s' = tail_head s) \/
    (exists p,
       tail_page (win s) = Some p /\
       port (win s') =
         port (win s) ++ flushed (connected (win s)) (heap s) p
                           (group_start (win s)) (global_writeOffset (win s)) /\
       group_start (win s') = global_writeOffset (win s) /\
       (tail_head s' = Some (global_writeOffset (win s)) \/
        tail_head s' = tail_head s))
}.

(** The operations of a window whose connection stays up; pings are left
    aside. *)
Definition on_the_wire (o : Op) : Prop :=
  match o with
  | Disconnect | Reconnect _ _ _ | Ping => False
  | _ => True
  end.


(** The two bytes of [writeUint16BE], most significant first. *)
Definition be16 (z : Z) : list byte :=
  match byte_of_Z (z / 256), byte_of_Z (z mod 256) with
  | Some hi, Some lo => [hi; lo]
  | _, _ => []
  end.

(** A sequence of writes at offsets of the view [v]. *)
Definition pokes_on (v : View) (fields : list (Z * list byte)) (h : Heap) : Heap :=
  foldl (fun h f => poke h v f.1 f.2) h fields.

(** The writes [fields] follow one another without a gap, from offset [a]
    on. *)
Fixpoint tiled (a : Z) (fields : list (Z * list byte)) : Prop :=
  match fields with
  | [] => True
  | f :: rest => f.1 = a /\ tiled (a + Z.of_nat (length f.2)) rest
  end.

(** The REMOVE_BLOCKS command as the client receives it: the opcode, the
    block ids and the end marker. *)
Definition remove_blocks_command (ids : list Z) : list byte :=
  x09 :: concat (be16 <$> ids) ++ [x00; x00].

(** The block ids [ids] wait in the window's delete buffer, in this order. *)
Record pending (ids : list Z) (w : Window) : Prop := mk_pending {
  pe_count : deleteBlockCount w = Z.of_nat (length ids);
  pe_length : length (deleteBlockCommandBuffer w) = 2000%nat;
  pe_bytes : take (2 * length ids) (deleteBlockCommandBuffer w) =
             concat (be16 <$> ids);
  pe_ids : Forall (fun b => 0 <= b <= 65535) ids
}.

(** The byte of [writeUint8]. *)
Definition be8 (z : Z) : list byte :=
  match byte_of_Z z with
  | Some b => [b]
  | None => []
  end.

(** The ATTACH_ANCHOR command for a text, as the client receives it: the
    opcode, the block, the anchor, the length of the text, the text and the
    end marker. *)
Definition text_command (blockId anchorIndex : Z) (value : string) : list byte :=
  [x03] ++ be16 blockId ++ be8 anchorIndex ++
  be16 (Z.of_nat (String.length value)) ++
  String.list_byte_of_string value ++ [xff; xff].

(** The ATTACH_ANCHOR command for a block: in place of the length, the
    block's id with the top bit set. *)
Definition block_command (parentBlockId anchorIndex blockId : Z) : list byte :=
  [x03] ++ be16 parentBlockId ++ be8 anchorIndex ++
  be16 (Z.lor blockId 32768) ++ [xff; xff].

(** The operations that leave a lost connection lost: everything except a
    reconnect, a pong and a ping. *)
Definition quiet (o : Op) : Prop :=
  match o with
  | Reconnect _ _ _ | Pong _ _ | Ping => False
  | _ => True
  end.

(** A code unit of a cookie name: neither ['='] nor [';'] nor white
    space. *)
Definition name_unit (c : N) : Prop :=
  c <> EQUALS /\ c <> SEMICOLON /\ is_space c = false.

(** Every id in the handler table has been handed out. *)
Definition handed_out {Handler} (t : @Handlers Handler) : Prop :=
  0 <= lastEventHandlerId t /\
  Forall (fun k => 1 <= k <= lastEventHandlerId t) (eventHandlers t).*1.



(** A text of ASCII characters. *)
Definition ascii_text (s : string) : Prop :=
  Forall (fun b => (Byte.to_N b < 128)%N) (String.list_byte_of_string s).





(** The ATTACH_EVENT_V2 command as the client receives it: the opcode, the
    block, the element, the event type, the client function, the ids of the
    bound server functions and the end marker. *)
Definition event_command (blockId targetId eventType clientFnId : Z)
    (serverBindIds : list Z) : list byte :=
  [x05] ++ be16 blockId ++ be8 targetId ++ be8 eventType ++ be16 clientFnId ++
  concat (be16 <$> serverBindIds) ++ [x00; x00].

(** The INSTALL_CLIENT_FUNCTION command: the opcode, the function's id, and
    its text with its length. *)
Definition install_command (functionId : Z) (text : string) : list byte :=
  [x0a] ++ be16 functionId ++ be16 (Z.of_nat (String.length text)) ++
  String.list_byte_of_string text.

(** The client function and the server functions that an event handler
    stands for, when it stands for any. *)
Definition bound_fns {Handler} (f : @EventFn Handler) : option (Z * list Handler) :=
  match f with
  | ServerFn fn => Some (1, [fn])
  | ClientFn clientFnId serverBindFns =>
      if clientFnId =? 0 then None else Some (clientFnId, serverBindFns)
  | _ => None
  end.

(** The writes of the loop of [_streamEventInitCommandV2]. *)
Fixpoint bind_fields (ids : list Z) (offset : Z) : list (Z * list byte) :=
  match ids with
  | [] => []
  | id :: rest => (offset, be16 id) :: bind_fields rest (offset + 2)
  end.



(** A buffer store whose blocks all have [PAGE_SIZE] bytes and whose free
    list refers to blocks of the store. *)
Record store_ok (h : Heap) : Prop := mk_store_ok {
  st_blocks : Forall (fun c => length c = Z.to_nat PAGE_SIZE) (bufs h);
  st_pool : Forall (fun b => (b < length (bufs h))%nat) (pool h)
}.

(** What the sweep needs of a window and the store: the page list is well
    formed, the last page starts at or before the write offset, the pages'
    buffers are blocks of the store, and at most 1000 block deletions are
    queued. *)
Record sound (s : WS) : Prop := mk_sound {
  so_wf : wf (win s);
  so_tail : forall p, tail_page (win s) = Some p ->
            global_headOffset p <= global_writeOffset (win s);
  so_store : store_ok (heap s);
  so_buffers : forall r p, objs (win s) !! r = Some p ->
               (buffer p < length (bufs (heap s)))%nat;
  so_count : 0 <= deleteBlockCount (win s) <= 1000
}.

(** The store [h'] has every block of [h]. *)
Definition grows (h h' : Heap) : Prop :=
  (length (bufs h) <= length (bufs h'))%nat.

(** A manager whose registry is as [initWindow] builds it and whose
    registered windows are sound on the shared store. *)
Record world_ok (σ : World) : Prop := mk_world_ok {
  wo_registry : registry_ok σ;
  wo_store : store_ok (store σ);
  wo_windows : forall k r, JsMap.get (windowMap σ) k = Some r ->
               exists w, wins σ !! r = Some w /\ sound (mkWS w (store σ))
}.

(** * Sample inputs *)

(** A fresh process: no block has been created yet. *)
Definition empty_heap : Heap := mkHeap [] [].

(** A window streams two further commands of 30 bytes; on pages of 64 bytes
    the second does not fit the first page. *)
Definition two_commands : list Op := [Alloc 30; Alloc 30].

(** A manager with one registered window, on an empty buffer store. *)
Definition one_window : World :=
  {| store := mkHeap [] [];
     wins := [set_destroyFnCallback (Some "w1"%string) (blank "w1" [] 0)];
     windowMap := [("w1"%string, 0%nat)];
     queue := [];
     wakeups := 0;
     messageLimiter := mkLimiter 8 2 [];
     windowDestroyCallback := false;
     destroyNotified := [] |}.

(** Nine messages within one second: the first eight are queued. *)
Definition nine_arrivals : list (Z * list byte) :=
  (fun i => (1000 + 100 * Z.of_nat i, [x01])) <$> seq 0 9.

(** A window streams two commands of 30 bytes, the second of which opens a
    second page when pages have 64 bytes, loses its connection and streams
    a third command. *)
Definition dropped_session : list Op :=
  [Emit (replicate 30 x41); Emit (replicate 30 x42); Disconnect;
   Emit (replicate 5 x43)].

(** Three work items, named and with their depths, in the order in which
    they are added. *)
Definition three_adds : list (string * Z) :=
  [("a"%string, 1); ("b"%string, 2); ("c"%string, 1)].

(** Windows that have no cleanup to run. *)
Definition no_disposer : nat -> M WS unit := fun _ => ret tt.

(** A manager with one session, opened at time 0. *)
Definition one_session : World :=
  state_of (initWindow "w1" [] 0 (newManager empty_heap)).

(** A manager with two sessions, opened at times 0 and 58000. *)
Definition two_sessions : World :=
  state_of (initWindow "w2" [] 58000 one_session).

(** A text of 32678 bytes, one more than [_streamTextInitCommand] takes. *)
Definition long_text : string :=
  String.string_of_list_byte (replicate (Z.to_nat 32678) x61).

(** * Properties *)

Ltac step :=
  unfold bind, ret, throw, getW, modW, onHeap, deref, send, page_subarray,
    get, modify in *; simpl in *.

(** ** Clipped writes end between two characters *)

Lemma char_boundary_le s k : (char_boundary s k <= k)%nat.
Proof.
  induction k as [|k IH]; simpl; [lia|].
  destruct (s !! S k); [|lia]. destruct (is_continuation _); lia.
Qed.

Lemma char_boundary_all s k :
  (length s <= k)%nat -> take (char_boundary s k) s = s.
Proof.
  intros Hk. destruct k as [|k]; simpl.
  - destruct s; [done|simpl in Hk; lia].
  - rewrite lookup_ge_None_2 by lia. by apply take_ge.
Qed.

(** ** Reasoning about outcomes *)

Lemma keeps_bind {S A B} (P : S -> Prop) (m : M S A) (k : A -> M S B) :
  keeps P m -> (forall a, keeps P (k a)) -> keeps P (bind m k).
Proof.
  intros Hm Hk s Hs. unfold bind. specialize (Hm s Hs).
  destruct (m s) as [a s'|e s']; [|done]. by apply Hk.
Qed.

Lemma keeps_ret {S A} (P : S -> Prop) (a : A) : keeps P (ret a).
Proof. by intros s Hs. Qed.

Lemma keeps_throw {S A} (P : S -> Prop) e : keeps P (@throw S A e).
Proof. by intros s Hs. Qed.

Lemma keeps_if {S A} (P : S -> Prop) (b : bool) (m1 m2 : M S A) :
  keeps P m1 -> keeps P m2 -> keeps P (if b then m1 else m2).
Proof. by destruct b. Qed.

Lemma keeps_state_of {S A} (P : S -> Prop) (m : M S A) s :
  keeps P m -> P s -> P (state_of (m s)).
Proof. intros Hm Hs. specialize (Hm s Hs). by destruct (m s). Qed.

Lemma keeps_getW (P : WS -> Prop) : keeps P getW.
Proof. by intros s Hs. Qed.

Lemma keeps_deref (P : WS -> Prop) r : keeps P (deref r).
Proof. intros s Hs. unfold deref. by destruct (objs (win s) !! r). Qed.

Lemma keeps_page_subarray (P : WS -> Prop) p a b : keeps P (page_subarray p a b).
Proof. by intros s Hs. Qed.

Lemma keeps_onHeap {A} (P : Window -> Prop) (m : M Heap A) :
  keeps (onWin P) (onHeap m).
Proof. intros s Hs. unfold onHeap. by destruct (m (heap s)). Qed.

Lemma keeps_modW (P : Window -> Prop) f :
  (forall w, P w -> P (f w)) -> keeps (onWin P) (modW f).
Proof. intros Hf s Hs. by apply Hf. Qed.

Lemma keeps_send (P : Window -> Prop) v :
  (forall w x, P w -> P (set_port x w)) -> keeps (onWin P) (send v).
Proof. intros Hf s Hs. by apply Hf. Qed.

(** ** The page list stays well formed *)

Lemma wf_frame w w' :
  objs w' = objs w -> pages w' = pages w -> mutationGroup w' = mutationGroup w ->
  wf w -> wf w'.
Proof.
  intros Ho Hp Hm [H1 H2 H3].
  split; unfold tail_page in *; rewrite ?Ho, ?Hp, ?Hm; done.
Qed.

Lemma wf_no_group w w' :
  objs w' = objs w -> pages w' = pages w -> mutationGroup w' = None ->
  wf w -> wf w'.
Proof.
  intros Ho Hp Hm [H1 H2 H3].
  split; unfold tail_page in *; rewrite ?Ho, ?Hp, ?Hm; done.
Qed.

Lemma alloc_spec size s :
  wf (win s) ->
  exists r p,
    last (pages (win s)) = Some r /\ objs (win s) !! r = Some p /\
    finalSize p = 0 /\
    let w := win s in
    let wo := global_writeOffset w in
    let cpo := wo - global_headOffset p in
    if cpo + size >=? PAGE_SIZE then
      exists b h',
        bufferPool_alloc (heap s) = Ret b h' /\
        _allocCommandBuffer size s =
          Ret (subarray (whole h' b) 0 (0 + size))
              (mkWS (mkWindow (id w)
                       (port w ++ flushed (connected w) (heap s) p (group_start w) wo)
                       (destroyFnCallback w) (connected w)
                       (<[r := mkPage (global_headOffset p) (buffer p) cpo]> (objs w)
                          ++ [mkPage wo b 0])
                       (pages w ++ [length (objs w)])
                       (global_readOffset w) (wo + size)
                       (Some (mkMutationGroup (length (objs w)) wo))
                       (deleteBlockCommandBuffer w) (deleteBlockCount w)
                       (tokenList w) (lastPongTime w))
                    h')
    else
      _allocCommandBuffer size s =
        Ret (subarray (whole (heap s) (buffer p)) cpo (cpo + size))
            (mkWS (mkWindow (id w) (port w) (destroyFnCallback w) (connected w)
                     (objs w) (pages w) (global_readOffset w) (wo + size)
                     (Some (mkMutationGroup r (group_start w)))
                     (deleteBlockCommandBuffer w) (deleteBlockCount w)
                     (tokenList w) (lastPongTime w))
                  (heap s)).
Proof.
  intros [Hrefs (p & Htail & Hfin) Hgroup].
  unfold tail_page in Htail.
  destruct (last (pages (win s))) as [r|] eqn:Hlast; [|done].
  exists r, p. split_and!; [done..|].
  destruct s as [w h]; simpl in *.
  assert (Hr : (r < length (objs w))%nat) by (eapply lookup_lt_Some; eauto).
  unfold _allocCommandBuffer, group_start, flushed.
  destruct (mutationGroup w) as [mg|] eqn:Hmg.
  - specialize (Hgroup mg eq_refl). simplify_eq.
    destruct mg as [r start]; simpl in *.
    step. rewrite Hmg; simpl. rewrite Htail; simpl.
    destruct (_ >=? PAGE_SIZE) eqn:Hov; simpl.
    + unfold _flushMutationGroup, _allocPage, bufferPool_alloc. step.
      rewrite Hmg; simpl.
      destruct (connected w && _) eqn:Hc; simpl;
        rewrite ?list_lookup_insert_eq by done; simpl;
        destruct (pool h) eqn:Hpool; simpl;
        rewrite ?length_insert, ?lookup_app_r, ?length_insert, ?Nat.sub_diag
          by (rewrite ?length_insert; lia); simpl;
        do 2 eexists; (split; [reflexivity|]); rewrite ?app_nil_r;
        unfold whole, buffer_length; simpl; reflexivity.
    + rewrite Htail. simpl. unfold set_global_writeOffset. by rewrite Hmg.
  - clear Hgroup. step. rewrite Hmg, Hlast; simpl. rewrite Htail; simpl.
    destruct (_ >=? PAGE_SIZE) eqn:Hov; simpl.
    + unfold _flushMutationGroup, _allocPage, bufferPool_alloc. step.
      rewrite Z.sub_diag. simpl. rewrite andb_false_r. simpl.
      destruct (pool h) eqn:Hpool; simpl;
        rewrite ?length_insert, ?lookup_app_r, ?length_insert, ?Nat.sub_diag
          by (rewrite ?length_insert; lia); simpl;
        do 2 eexists; (split; [reflexivity|]); rewrite ?app_nil_r;
        unfold whole, buffer_length; simpl; reflexivity.
    + rewrite Htail. simpl. reflexivity.
Qed.

Lemma wf_alloc size : keeps (onWin wf) (_allocCommandBuffer size).
Proof.
  intros s Hwf. unfold onWin in *.
  destruct (alloc_spec size s Hwf) as (r & p & Hlast & Hp & Hfin & Hcase).
  simpl in Hcase. destruct (_ >=? PAGE_SIZE).
  - destruct Hcase as (b & h' & _ & ->). simpl.
    destruct Hwf as [Hrefs _ _].
    assert (Hlen : length (<[r:=mkPage (global_headOffset p) (buffer p)
              (global_writeOffset (win s) - global_headOffset p)]> (objs (win s)))
            = length (objs (win s))) by apply length_insert.
    split; simpl.
    + apply Forall_app. split.
      * eapply Forall_impl; [exact Hrefs|]. intros x [q Hq]; simpl.
        apply lookup_lt_is_Some. rewrite length_app, Hlen.
        apply lookup_lt_Some in Hq. lia.
      * constructor; [|constructor].
        apply lookup_lt_is_Some. rewrite length_app, Hlen. simpl. lia.
    + unfold tail_page; simpl. rewrite last_snoc.
      rewrite lookup_app_r by lia. rewrite Hlen, Nat.sub_diag. simpl. eauto.
    + intros mg [= <-]. simpl. by rewrite last_snoc.
  - rewrite Hcase. simpl. destruct Hwf as [Hrefs Htail _].
    split; simpl; try done.
    intros mg [= <-]. done.
Qed.

Lemma wf_flush : keeps (onWin wf) _flushMutationGroup.
Proof.
  unfold _flushMutationGroup.
  apply keeps_bind; [apply keeps_getW|]. intros w.
  apply keeps_bind.
  - destruct (mutationGroup w); [|apply keeps_ret].
    apply keeps_if; [|apply keeps_ret].
    apply keeps_bind; [apply keeps_deref|]. intros p.
    apply keeps_bind; [apply keeps_page_subarray|]. intros v.
    apply keeps_send. intros w0 x. by apply wf_frame.
  - intros _. apply keeps_modW. intros w0. by apply wf_no_group.
Qed.

Lemma set_pages_id w : set_pages (pages w) w = w.
Proof. by destruct w. Qed.

Lemma freePages_spec readOffset ps : forall s,
  pages (win s) = ps ->
  Forall (fun r => is_Some (objs (win s) !! r)) ps ->
  (exists r p, last ps = Some r /\ objs (win s) !! r = Some p /\ finalSize p = 0) ->
  exists retired kept,
    ps = retired ++ kept /\
    freePages readOffset ps s =
      Ret tt (mkWS (set_pages kept (win s))
                   (mkHeap (bufs (heap s))
                           (reverse (buffers_of (win s) retired) ++ pool (heap s)))) /\
    Forall (fun r => exists p, objs (win s) !! r = Some p /\ finalSize p <> 0 /\
                     global_headOffset p + finalSize p <= readOffset) retired /\
    (exists r p, head kept = Some r /\ objs (win s) !! r = Some p /\
       (finalSize p = 0 \/ readOffset < global_headOffset p + finalSize p)) /\
    last kept = last ps.
Proof.
  induction ps as [|r rest IH]; intros s Hps Hrefs (t & pt & Hlast & Hpt & Hfin).
  - done.
  - apply Forall_cons in Hrefs as [[p Hp] Hrest].
    simpl. step. rewrite Hp. simpl.
    destruct (finalSize p =? 0) eqn:Hz.
    { exists [], (r :: rest). simpl. rewrite <- Hps, set_pages_id.
      split_and!; try done.
      - by destruct s as [w [??]].
      - exists r, p. split_and!; try done. left. lia. }
    destruct (readOffset >=? _) eqn:Hge.
    2:{ exists [], (r :: rest). simpl. rewrite <- Hps, set_pages_id.
      split_and!; try done.
      - by destruct s as [w [??]].
      - exists r, p. split_and!; try done. right. lia. }
    assert (Hne : rest <> []).
    { intros ->. simpl in Hlast. simplify_eq. lia. }
    assert (Hlast' : last rest = Some t).
    { destruct rest; [done|]. by rewrite last_cons_cons in Hlast. }
    unfold bufferPool_returnBuffer, modify. simpl.
    edestruct (IH (mkWS (set_pages rest (win s))
                        (mkHeap (bufs (heap s)) (buffer p :: pool (heap s)))))
      as (retired & kept & Hsplit & Hrun & Hret & Hkept & Hl); simpl; eauto.
    exists (r :: retired), kept. rewrite Hrun. simpl.
    split_and!.
    + by rewrite Hsplit.
    + unfold buffers_of. simpl. rewrite Hp. simpl.
      rewrite reverse_cons, <- app_assoc. simpl. by destruct (win s).
    + constructor; [|done]. exists p. split_and!; [done|lia|lia].
    + done.
    + rewrite Hl. destruct rest; [done|]. by rewrite last_cons_cons.
Qed.

Lemma registerReadOffset_spec readOffset s :
  wf (win s) ->
  let w := win s in
  if readOffset <? global_readOffset w then
    registerReadOffset readOffset s =
      Throw (InvalidOffset readOffset (global_readOffset w)) s
  else
    exists retired kept,
      pages w = retired ++ kept /\
      registerReadOffset readOffset s =
        Ret tt (mkWS (set_pages kept (set_global_readOffset readOffset w))
                     (mkHeap (bufs (heap s))
                             (reverse (buffers_of w retired) ++ pool (heap s)))) /\
      Forall (fun r => exists p, objs w !! r = Some p /\ finalSize p <> 0 /\
                       global_headOffset p + finalSize p <= readOffset) retired /\
      (exists r p, head kept = Some r /\ objs w !! r = Some p /\
         (finalSize p = 0 \/ readOffset < global_headOffset p + finalSize p)) /\
      last kept = last (pages w).
Proof.
  intros [Hrefs (p & Htail & Hfin) _]. simpl.
  unfold registerReadOffset. step.
  destruct (readOffset <? _); [done|]. simpl.
  unfold tail_page in Htail.
  destruct (last (pages (win s))) as [t|] eqn:Hlast; [|done].
  edestruct (freePages_spec readOffset (pages (win s))
               (mkWS (set_global_readOffset readOffset (win s)) (heap s)))
    as (retired & kept & Hsplit & Hrun & Hret & Hkept & Hl); simpl; eauto.
  exists retired, kept. rewrite Hrun. unfold buffers_of in *. simpl in *.
  split_and!; try done. congruence.
Qed.

Lemma wf_suffix w kept :
  (exists retired, pages w = retired ++ kept) ->
  last kept = last (pages w) ->
  wf w -> forall w', objs w' = objs w -> pages w' = kept ->
  mutationGroup w' = mutationGroup w -> wf w'.
Proof.
  intros [retired Hsplit] Hl [H1 H2 H3] w' Ho Hp Hm.
  split; unfold tail_page in *; rewrite ?Ho, ?Hp, ?Hm, ?Hl; try done.
  rewrite Hsplit in H1. by apply Forall_app in H1 as [_ ?].
Qed.

Lemma wf_registerReadOffset readOffset :
  keeps (onWin wf) (registerReadOffset readOffset).
Proof.
  intros s Hwf. unfold onWin in *.
  pose proof (registerReadOffset_spec readOffset s Hwf) as H. simpl in H.
  destruct (readOffset <? _).
  - by rewrite H.
  - destruct H as (retired & kept & Hsplit & -> & _ & _ & Hl). simpl.
    eapply wf_suffix; eauto.
Qed.

Ltac keeps_step :=
  lazymatch goal with
  | |- keeps _ (bind _ _) => apply keeps_bind; [|intros ?]
  | |- keeps _ (ret _) => apply keeps_ret
  | |- keeps _ (throw _) => apply keeps_throw
  | |- keeps _ getW => apply keeps_getW
  | |- keeps _ (deref _) => apply keeps_deref
  | |- keeps _ (page_subarray _ _ _) => apply keeps_page_subarray
  | |- keeps _ (onHeap _) => apply keeps_onHeap
  | |- keeps _ (_allocCommandBuffer _) => apply wf_alloc
  | |- keeps _ _flushMutationGroup => apply wf_flush
  | |- keeps _ (registerReadOffset _) => apply wf_registerReadOffset
  | |- keeps _ (modW _) => apply keeps_modW; intros ?; by apply wf_frame
  | |- keeps _ (send _) => apply keeps_send; intros ? ?; by apply wf_frame
  | |- keeps _ (if _ then _ else _) => apply keeps_if
  | |- keeps _ (match ?x with _ => _ end) => destruct x
  end.

Ltac keeps_tac := repeat keeps_step.

Lemma wf_restreamLoop ps : forall readOffset,
  keeps (onWin wf) (restreamLoop ps readOffset).
Proof. induction ps; intros; simpl; keeps_tac. apply IHps. Qed.

Lemma wf_restream : keeps (onWin wf) _restreamUnreadPages.
Proof. unfold _restreamUnreadPages. keeps_tac. apply wf_restreamLoop. Qed.

Lemma wf_flushBlockDeleteQueue : keeps (onWin wf) flushBlockDeleteQueue.
Proof. unfold flushBlockDeleteQueue. keeps_tac. Qed.

Lemma wf_streamModifyToken n : keeps (onWin wf) (_streamModifyToken n).
Proof. unfold _streamModifyToken. keeps_tac. Qed.

Lemma wf_exec o s : wf (win s) -> wf (win (exec o s)).
Proof.
  intros Hwf. destruct o; cbn [exec]; apply (keeps_state_of (onWin wf)); try done.
  - apply wf_alloc.
  - unfold emit. keeps_tac.
  - unfold _registerAttrKey. keeps_tac. apply wf_streamModifyToken.
  - unfold _registerStyleKey. keeps_tac. apply wf_streamModifyToken.
  - unfold _handleBlockCleanup. keeps_tac. apply wf_flushBlockDeleteQueue.
  - apply wf_flushBlockDeleteQueue.
  - apply wf_flush.
  - apply wf_registerReadOffset.
  - unfold registerPong. keeps_tac.
  - unfold disconnect. keeps_tac.
  - unfold reconnect. keeps_tac. apply wf_restream.
  - unfold sendPing. keeps_tac.
Qed.

Lemma wf_run ops : forall s, wf (win s) -> wf (win (run ops s)).
Proof.
  induction ops as [|o ops IH]; intros s Hwf; simpl; [done|].
  apply IH. by apply wf_exec.
Qed.

Lemma bind_Ret {S A B} (m : M S A) (k : A -> M S B) s a s' :
  m s = Ret a s' -> bind m k s = k a s'.
Proof. unfold bind. by intros ->. Qed.

Lemma bind_Throw {S A B} (m : M S A) (k : A -> M S B) s e s' :
  m s = Throw e s' -> bind m k s = Throw e s'.
Proof. unfold bind. by intros ->. Qed.

Lemma state_of_bind {S A B} (m : M S A) (k : A -> M S B) s :
  state_of (bind m k s) =
    match m s with
    | Ret a s' => state_of (k a s')
    | Throw _ s' => s'
    end.
Proof. unfold bind. by destruct (m s). Qed.

Lemma allocPage_eq headOffset s :
  _allocPage headOffset s =
    match pool (heap s) with
    | b :: rest =>
        Ret (length (objs (win s)))
            (mkWS (set_pages (pages (win s) ++ [length (objs (win s))])
                     (set_objs (objs (win s) ++ [mkPage headOffset b 0]) (win s)))
                  (mkHeap (bufs (heap s)) rest))
    | [] =>
        Ret (length (objs (win s)))
            (mkWS (set_pages (pages (win s) ++ [length (objs (win s))])
                     (set_objs (objs (win s) ++
                                [mkPage headOffset (length (bufs (heap s))) 0]) (win s)))
                  (mkHeap (bufs (heap s) ++ [replicate (Z.to_nat PAGE_SIZE) x00]) []))
    end.
Proof.
  unfold _allocPage, bufferPool_alloc. step. by destruct (pool (heap s)).
Qed.

Lemma flush_eq s :
  _flushMutationGroup s =
    match mutationGroup (win s) with
    | Some mg =>
        if connected (win s) && (global_writeOffset (win s) - pageStartOffset mg >? 0)
        then
          match objs (win s) !! page mg with
          | Some p =>
              Ret tt (mkWS (set_mutationGroup None
                        (set_port (port (win s) ++
                           flushed true (heap s) p (pageStartOffset mg)
                                   (global_writeOffset (win s))) (win s)))
                      (heap s))
          | None => Throw DanglingRef s
          end
        else Ret tt (mkWS (set_mutationGroup None (win s)) (heap s))
    | None => Ret tt (mkWS (set_mutationGroup None (win s)) (heap s))
    end.
Proof.
  unfold _flushMutationGroup, flushed. step.
  destruct (mutationGroup (win s)) as [mg|]; simpl; [|done].
  destruct (connected (win s) && _) eqn:Hc; simpl; [|done].
  destruct (objs (win s) !! page mg); simpl; [|done].
  apply andb_true_iff in Hc as [_ ->]. done.
Qed.

Lemma allocPage_spec headOffset s :
  exists b h',
    bufferPool_alloc (heap s) = Ret b h' /\
    _allocPage headOffset s =
      Ret (length (objs (win s)))
          (mkWS (set_pages (pages (win s) ++ [length (objs (win s))])
                   (set_objs (objs (win s) ++ [mkPage headOffset b 0]) (win s)))
                h').
Proof.
  rewrite allocPage_eq. unfold bufferPool_alloc.
  destruct (pool (heap s)); eauto.
Qed.

(** The first allocation of a window: the page list is still empty. *)
Lemma alloc_first size s :
  objs (win s) = [] -> pages (win s) = [] -> mutationGroup (win s) = None ->
  exists b h' s1,
    bufferPool_alloc (heap s) = Ret b h' /\
    s1 = mkWS (set_mutationGroup
                 (Some (mkMutationGroup 0 (global_writeOffset (win s))))
                 (set_pages [0%nat]
                    (set_objs [mkPage (global_writeOffset (win s)) b 0] (win s))))
              h' /\
    wf (win s1) /\
    _allocCommandBuffer size s = _allocCommandBuffer size s1.
Proof.
  intros Ho Hp Hm.
  destruct (allocPage_spec (global_writeOffset (win s)) s) as (b & h' & Hb & Hap).
  rewrite Ho, Hp in Hap. cbn [length app] in Hap.
  eexists b, h', _. split; [done|]. split; [reflexivity|]. split.
  - split; cbn.
    + repeat constructor. eauto.
    + unfold tail_page. cbn. eauto.
    + intros mg [= <-]. done.
  - unfold _allocCommandBuffer.
    erewrite bind_Ret by reflexivity. rewrite Hm, Hp. cbn [last].
    erewrite bind_Ret.
    2:{ erewrite bind_Ret by exact Hap.
        erewrite bind_Ret by reflexivity. reflexivity. }
    symmetry. erewrite bind_Ret by reflexivity. cbn [win mutationGroup set_mutationGroup].
    erewrite bind_Ret by reflexivity.
    reflexivity.
Qed.

Lemma wf_construct windowId newPort now h :
  wf (win (state_of (construct windowId newPort now h))).
Proof.
  unfold construct, _streamInitWindow.
  destruct (alloc_first (1 + 21) (mkWS (blank windowId newPort now) h))
    as (b & h' & s1 & _ & _ & Hwf & Hrun); [reflexivity..|].
  pose proof (wf_alloc (1 + 21) s1 Hwf) as Ha.
  unfold bind at 1. rewrite Hrun.
  destruct (_allocCommandBuffer (1 + 21) s1) as [v s2|e s2]; [|done].
  apply (keeps_state_of (onWin wf)); [|done].
  keeps_tac.
Qed.

(** ** The acknowledged offset only grows *)

Lemma moves_bind {S A B} (R : S -> S -> Prop) `{!PreOrder R}
    (m : M S A) (k : A -> M S B) :
  moves R m -> (forall a, moves R (k a)) -> moves R (bind m k).
Proof.
  intros Hm Hk s. unfold bind. specialize (Hm s).
  destruct (m s) as [a s'|e s']; simpl in *; [|done].
  etrans; [exact Hm|apply Hk].
Qed.

Lemma moves_still {S A} (R : S -> S -> Prop) `{!Reflexive R} (m : M S A) :
  (forall s, state_of (m s) = s) -> moves R m.
Proof. intros H s. by rewrite H. Qed.

Lemma moves_if {S A} (R : S -> S -> Prop) (b : bool) (m1 m2 : M S A) :
  moves R m1 -> moves R m2 -> moves R (if b then m1 else m2).
Proof. by destruct b. Qed.

#[local] Instance acked_le_preorder : PreOrder acked_le.
Proof. split; unfold acked_le; [intros ?|intros ???]; lia. Qed.

Lemma acked_deref r : moves acked_le (deref r).
Proof. apply moves_still; [apply _|]. intros s. unfold deref. by destruct (_ !! _). Qed.

Lemma acked_onHeap {A} (m : M Heap A) : moves acked_le (onHeap m).
Proof. intros s. unfold onHeap, acked_le. by destruct (m (heap s)). Qed.

Lemma acked_modW f :
  (forall w, global_readOffset w <= global_readOffset (f w)) ->
  moves acked_le (modW f).
Proof. intros Hf s. apply Hf. Qed.

Ltac moves_step :=
  lazymatch goal with
  | |- moves _ (bind _ _) => apply moves_bind; [apply _| |intros ?]
  | |- moves _ (ret _) => apply moves_still; [apply _|done]
  | |- moves _ (throw _) => apply moves_still; [apply _|done]
  | |- moves _ getW => apply moves_still; [apply _|done]
  | |- moves _ (page_subarray _ _ _) => apply moves_still; [apply _|done]
  | |- moves _ (deref _) => apply acked_deref
  | |- moves _ (onHeap _) => apply acked_onHeap
  | |- moves _ (send _) => intros ?; unfold acked_le; simpl; lia
  | |- moves _ (modW _) => apply acked_modW; intros ?; simpl; lia
  | |- moves _ (if _ then _ else _) => apply moves_if
  | |- moves _ (match ?x with _ => _ end) => destruct x
  | |- moves _ (let '(_, _) := ?x in _) => destruct x
  end.

Lemma acked_allocPage headOffset : moves acked_le (_allocPage headOffset).
Proof. unfold _allocPage. repeat moves_step. Qed.

Lemma acked_flush : moves acked_le _flushMutationGroup.
Proof. unfold _flushMutationGroup. repeat moves_step. Qed.

Lemma acked_alloc size : moves acked_le (_allocCommandBuffer size).
Proof.
  unfold _allocCommandBuffer.
  repeat first [apply acked_allocPage | apply acked_flush | moves_step].
Qed.

Lemma acked_freePages readOffset ps : moves acked_le (freePages readOffset ps).
Proof. induction ps; simpl; repeat moves_step. done. Qed.

Lemma acked_registerReadOffset readOffset :
  moves acked_le (registerReadOffset readOffset).
Proof.
  intros s. unfold registerReadOffset, bind, getW.
  destruct (readOffset <? global_readOffset (win s)) eqn:Hlt; [done|].
  simpl. pose proof (acked_freePages readOffset (pages (win s))
                       (mkWS (set_global_readOffset readOffset (win s)) (heap s))) as H.
  unfold acked_le in *. simpl in *. lia.
Qed.

Lemma acked_restreamLoop ps : forall r, moves acked_le (restreamLoop ps r).
Proof. induction ps; intros; simpl; repeat moves_step. apply IHps. Qed.

Ltac moves_tac :=
  repeat first
    [ apply acked_alloc | apply acked_flush | apply acked_registerReadOffset
    | apply acked_restreamLoop | moves_step ].

Lemma acked_exec o s : acked_le s (exec o s).
Proof.
  revert s. destruct o; intros s; cbn [exec];
    match goal with |- acked_le _ (state_of (?m _)) =>
      revert s; change (moves acked_le m) end.
  - apply acked_alloc.
  - unfold emit. moves_tac.
  - unfold _registerAttrKey, _streamModifyToken. moves_tac.
  - unfold _registerStyleKey, _streamModifyToken. moves_tac.
  - unfold _handleBlockCleanup, flushBlockDeleteQueue. moves_tac.
  - unfold flushBlockDeleteQueue. moves_tac.
  - apply acked_flush.
  - apply acked_registerReadOffset.
  - unfold registerPong. moves_tac.
  - unfold disconnect. moves_tac.
  - unfold reconnect, _restreamUnreadPages. moves_tac.
  - unfold sendPing. moves_tac.
Qed.

Lemma acked_run ops : forall s, acked_le s (run ops s).
Proof.
  induction ops as [|o ops IH]; intros s; simpl; [done|].
  etrans; [apply acked_exec|apply IH].
Qed.

(** ** C9 *)

(** C9. From construction onward the page list of a window is never empty
    and its last page has [finalSize = 0]; [_allocCommandBuffer] writes a
    [finalSize] only into the last page and only together with appending
    its successor; hence the retirement loop of [registerReadOffset] never
    reads [pages[0]] of an empty list: it ends normally with the last page
    still in the list, or the call is rejected for its offset. *)
Theorem pages_end_with_active_page windowId newPort now h ops :
  let s := window_after windowId newPort now h ops in
  pages (win s) <> [] /\
  (exists p, tail_page (win s) = Some p /\ finalSize p = 0) /\
  (forall size,
     let s' := state_of (_allocCommandBuffer size s) in
     (objs (win s') = objs (win s) /\ pages (win s') = pages (win s)) \/
     (exists r p b,
        last (pages (win s)) = Some r /\ objs (win s) !! r = Some p /\
        objs (win s') =
          <[r := mkPage (global_headOffset p) (buffer p)
                   (global_writeOffset (win s) - global_headOffset p)]>
            (objs (win s))
          ++ [mkPage (global_writeOffset (win s)) b 0] /\
        pages (win s') = pages (win s) ++ [length (objs (win s))])) /\
  (forall readOffset,
     match registerReadOffset readOffset s with
     | Ret _ s' =>
         (exists retired, pages (win s) = retired ++ pages (win s')) /\
         pages (win s') <> [] /\
         last (pages (win s')) = last (pages (win s))
     | Throw e _ => e = InvalidOffset readOffset (global_readOffset (win s))
     end).
Proof.
  intros s.
  assert (Hwf : wf (win s)) by apply wf_run, wf_construct.
  pose proof Hwf as [Hrefs (p & Htail & Hfin) Hgroup].
  assert (Hne : pages (win s) <> []).
  { unfold tail_page in Htail. intros Hnil. by rewrite Hnil in Htail. }
  split_and!; [done|eauto| |].
  - intros size s'. subst s'.
    destruct (alloc_spec size s Hwf) as (r & q & Hlast & Hq & _ & Hcase).
    cbn zeta in Hcase. destruct (_ >=? PAGE_SIZE).
    + destruct Hcase as (b & h' & _ & ->). right. exists r, q, b. done.
    + rewrite Hcase. by left.
  - intros readOffset.
    pose proof (registerReadOffset_spec readOffset s Hwf) as H. cbn zeta in H.
    destruct (readOffset <? _).
    + by rewrite H.
    + destruct H as (retired & kept & Hsplit & -> & _ & (r & q & Hhd & _) & Hl).
      simpl. split_and!; [eauto| |done].
      intros ->. done.
Qed.

(** ** C3 *)

(** C3. [registerReadOffset newOffset] throws exactly when [newOffset] is
    strictly below the window's [global_readOffset], and then leaves the
    window as it was; otherwise it returns with [global_readOffset] set to
    [newOffset].  Whatever the window goes through afterwards,
    [global_readOffset] never falls below its current value. *)
Theorem registerReadOffset_never_decreases windowId newPort now h ops newOffset :
  let s := window_after windowId newPort now h ops in
  let current := global_readOffset (win s) in
  (is_Some (thrown (registerReadOffset newOffset s)) <-> newOffset < current) /\
  (newOffset < current ->
     registerReadOffset newOffset s =
       Throw (InvalidOffset newOffset current) s) /\
  (current <= newOffset ->
     exists s', registerReadOffset newOffset s = Ret tt s' /\
                global_readOffset (win s') = newOffset) /\
  (forall more, current <= global_readOffset (win (run more s))).
Proof.
  intros s current.
  assert (Hwf : wf (win s)) by apply wf_run, wf_construct.
  pose proof (registerReadOffset_spec newOffset s Hwf) as H. cbn zeta in H.
  fold current in H.
  destruct (newOffset <? current) eqn:Hlt.
  - apply Z.ltb_lt in Hlt. rewrite H. simpl. split_and!; [split; eauto|done|lia|].
    intros more. apply (acked_run more s).
  - apply Z.ltb_ge in Hlt.
    destruct H as (retired & kept & _ & Hrun & _). rewrite Hrun. simpl.
    split_and!.
    + split; [intros [? [=]]|lia].
    + lia.
    + eauto.
    + intros more. apply (acked_run more s).
Qed.

(** ** C7 *)

Section WorkQueueProperties.
Context {Node : Type} (depth : Node -> Z).

Lemma add_from_spec (queue : list Node) (item : Node) (n : nat) :
  (n <= length queue)%nat ->
  Forall (fun y => depth item < depth y) (drop n queue) ->
  exists before after,
    queue = before ++ after /\
    add_from depth queue item n = Some (before ++ item :: after) /\
    Forall (fun y => depth item < depth y) after /\
    match last before with
    | Some y => depth y <= depth item
    | None => True
    end.
Proof.
  induction n as [|i IH]; intros Hn Hdeep.
  - exists [], queue. simpl. rewrite drop_0 in Hdeep. auto.
  - simpl. destruct (queue !! i) as [x|] eqn:Hx.
    2:{ apply lookup_ge_None in Hx. lia. }
    destruct (depth x <=? depth item) eqn:Hle.
    + exists (take (S i) queue), (drop (S i) queue).
      rewrite take_drop. repeat split; auto.
      erewrite take_S_r by eassumption. rewrite last_snoc. lia.
    + apply IH; [lia|].
      erewrite drop_S by eassumption. constructor; [lia|assumption].
Qed.

(** C7. [add] puts the new item immediately after the last item of the
    queue, in queue order, whose depth is at most the new item's depth, and
    at the front when there is none: the queue splits into [before ++ after], every
    item of [after] is strictly deeper than the new one, and [before] is
    empty or ends with an item that is not deeper.  [poll] removes and
    returns the front item. *)
Theorem WorkQueue_add_poll (queue : list Node) (item : Node) :
  (exists before after,
      queue = before ++ after /\
      add depth queue item = Some (before ++ item :: after) /\
      Forall (fun y => depth item < depth y) after /\
      match last before with
      | Some y => depth y <= depth item
      | None => True
      end) /\
  poll queue = (head queue, tail queue).
Proof.
  split.
  - apply add_from_spec; [done|]. rewrite drop_all. constructor.
  - by destruct queue.
Qed.
End WorkQueueProperties.

(** ** Sizes and buffers *)

Lemma ok_frame s w' :
  objs w' = objs (win s) -> pages w' = pages (win s) ->
  mutationGroup w' = mutationGroup (win s) ->
  global_writeOffset w' = global_writeOffset (win s) ->
  ok s -> ok (mkWS w' (heap s)).
Proof.
  intros Ho Hp Hm Hw [H1 H2 H3 H4 H5 H6 H7].
  split; simpl; unfold tail_page, buffers_of in *; rewrite ?Ho, ?Hp, ?Hw; try done.
  by eapply wf_frame.
Qed.

Lemma ok_no_group s w' :
  objs w' = objs (win s) -> pages w' = pages (win s) ->
  mutationGroup w' = None ->
  global_writeOffset w' = global_writeOffset (win s) ->
  ok s -> ok (mkWS w' (heap s)).
Proof.
  intros Ho Hp Hm Hw [H1 H2 H3 H4 H5 H6 H7].
  split; simpl; unfold tail_page, buffers_of in *; rewrite ?Ho, ?Hp, ?Hw; try done.
  by eapply wf_no_group.
Qed.

Lemma length_blit c off bs : length (blit c off bs) = length c.
Proof.
  unfold blit. rewrite length_take, !length_app, length_take, length_drop. lia.
Qed.

Lemma ok_poke s v off bs : ok s -> ok (mkWS (win s) (poke (heap s) v off bs)).
Proof.
  intros [H1 H2 H3 H4 H5 H6 H7]. unfold poke.
  destruct (bufs (heap s) !! v_buffer v) as [c|] eqn:Hc; [|by destruct s].
  split; simpl; rewrite ?length_insert; try done.
  apply Forall_insert; [done|]. rewrite length_blit.
  eapply Forall_lookup_1 in H4; eauto.
Qed.

Lemma pokes_writeUint8 v value offset : pokes (writeUint8 v value offset).
Proof.
  intros h. unfold writeUint8.
  destruct (byte_of_Z value); [|by left].
  destruct (_ && _); [right; eauto|by left].
Qed.

Lemma pokes_writeUint16BE v value offset : pokes (writeUint16BE v value offset).
Proof.
  intros h. unfold writeUint16BE.
  destruct (_ && _); [|by left].
  destruct (byte_of_Z _); [|by left].
  destruct (byte_of_Z _); [|by left].
  destruct (_ && _); [right; eauto|by left].
Qed.

Lemma pokes_write v bs offset len : pokes (write v bs offset len).
Proof.
  intros h. unfold write.
  destruct (_ && _); [right; eauto|by left].
Qed.

Lemma pokes_copy_into src v a b c : pokes (copy_into src v a b c).
Proof.
  intros h. unfold copy_into.
  destruct (a <? 0); [by left|].
  destruct (b <? 0); [by left|]. right; eauto.
Qed.

Lemma ok_onHeap {A} (m : M Heap A) : pokes m -> keeps ok (onHeap m).
Proof.
  intros Hm s Hs. unfold onHeap. specialize (Hm (heap s)).
  assert (ok (mkWS (win s) (state_of (m (heap s))))) as Hok.
  { destruct Hm as [->|(v & off & bs & ->)]; [by destruct s|by apply ok_poke]. }
  by destruct (m (heap s)).
Qed.

Lemma ok_modW f :
  (forall w, objs (f w) = objs w /\ pages (f w) = pages w /\
             mutationGroup (f w) = mutationGroup w /\
             global_writeOffset (f w) = global_writeOffset w) ->
  keeps ok (modW f).
Proof.
  intros Hf s Hs. destruct (Hf (win s)) as (?&?&?&?). by apply ok_frame.
Qed.

Lemma ok_send v : keeps ok (send v).
Proof. intros s Hs. by apply ok_frame. Qed.

Lemma buffers_of_app w a b :
  buffers_of w (a ++ b) = buffers_of w a ++ buffers_of w b.
Proof. apply omap_app. Qed.

Lemma buffers_of_ext w w' rs :
  (forall r, r ∈ rs -> buffer <$> objs w' !! r = buffer <$> objs w !! r) ->
  buffers_of w' rs = buffers_of w rs.
Proof.
  unfold buffers_of. induction rs as [|r rs IH]; intros H; [done|].
  cbn [omap list_omap]. rewrite (H r) by left.
  rewrite IH; [done|]. intros r' Hr'. apply H. by right.
Qed.

Lemma buffers_of_lt s rs :
  ok s -> forall b, b ∈ buffers_of (win s) rs -> (b < length (bufs (heap s)))%nat.
Proof.
  intros Hok b Hb. unfold buffers_of in Hb.
  apply list_elem_of_omap in Hb as (r & _ & Hr).
  destruct (objs (win s) !! r) as [p|] eqn:Hp; simplify_eq/=.
  by eapply ok_buffers.
Qed.

Lemma bufferPool_alloc_ok h b h' :
  heap_ok h -> bufferPool_alloc h = Ret b h' ->
  heap_ok h' /\ (b < length (bufs h'))%nat /\ (b ∉ pool h') /\
  (length (bufs h) <= length (bufs h'))%nat /\
  (forall x, x ∈ pool h' -> x ∈ pool h) /\
  (b ∈ pool h \/ b = length (bufs h)).
Proof.
  intros [H1 H2 H3]. unfold bufferPool_alloc.
  destruct (pool h) as [|b0 rest] eqn:Hpool; intros [= <- <-]; simpl.
  - split_and!.
    + split; simpl; [|done|constructor].
      apply Forall_app. split; [done|]. repeat constructor.
      by rewrite length_replicate.
    + rewrite length_app. simpl. lia.
    + apply not_elem_of_nil.
    + rewrite length_app. lia.
    + done.
    + by right.
  - apply Forall_cons in H2 as [Hb Hrest]. apply NoDup_cons in H3 as [Hnin Hnd].
    split_and!.
    + by split.
    + done.
    + done.
    + done.
    + intros x Hx. by right.
    + left. by left.
Qed.

Lemma ok_heap_ok s : ok s -> heap_ok (heap s).
Proof.
  intros [H1 H2 H3 H4 H5 H6 H7]. split; try done.
  by apply NoDup_app in H7 as (_ & _ & ?).
Qed.

Lemma ok_alloc size : 0 <= size -> keeps ok (_allocCommandBuffer size).
Proof.
  intros Hsize s Hok.
  destruct (alloc_spec size s (ok_wf _ Hok)) as (r & p & Hlast & Hp & Hfin & Hcase).
  cbn zeta in Hcase.
  assert (Htp : tail_page (win s) = Some p) by (unfold tail_page; by rewrite Hlast).
  pose proof (ok_tail _ Hok p Htp) as Hhead.
  pose proof (wf_alloc size s (ok_wf _ Hok)) as Hwf. unfold onWin in Hwf.
  destruct (_ >=? PAGE_SIZE).
  - destruct Hcase as (b & h' & Hb & Hrun). rewrite Hrun in Hwf |- *.
    destruct (bufferPool_alloc_ok _ _ _ (ok_heap_ok _ Hok) Hb)
      as (Hh' & Hblt & Hbnin & Hlen & Hsub & Hbfrom).
    assert (Hr : (r < length (objs (win s)))%nat) by (by eapply lookup_lt_Some).
    set (sealed := mkPage (global_headOffset p) (buffer p)
                     (global_writeOffset (win s) - global_headOffset p)).
    assert (Hlook : forall i q,
      (<[r := sealed]> (objs (win s)) ++
         [mkPage (global_writeOffset (win s)) b 0]) !! i = Some q ->
      (i = r /\ q = sealed) \/
      (i <> r /\ objs (win s) !! i = Some q) \/
      (i = length (objs (win s)) /\ q = mkPage (global_writeOffset (win s)) b 0)).
    { intros i q Hi. apply lookup_app_Some in Hi as [Hi|[Hge Hi]].
      - destruct (decide (i = r)) as [->|Hne].
        + rewrite list_lookup_insert_eq in Hi by done. left. by simplify_eq.
        + rewrite list_lookup_insert_ne in Hi by done. right. left. done.
      - rewrite length_insert in Hge, Hi.
        apply list_lookup_singleton_Some in Hi as [Hi <-].
        right. right. split; [lia|done]. }
    assert (Hbufs : buffers_of
              (mkWindow (id (win s))
                 (port (win s) ++ flushed (connected (win s)) (heap s) p
                                    (group_start (win s)) (global_writeOffset (win s)))
                 (destroyFnCallback (win s)) (connected (win s))
                 (<[r := sealed]> (objs (win s)) ++
                    [mkPage (global_writeOffset (win s)) b 0])
                 (pages (win s) ++ [length (objs (win s))])
                 (global_readOffset (win s)) (global_writeOffset (win s) + size)
                 (Some (mkMutationGroup (length (objs (win s)))
                          (global_writeOffset (win s))))
                 (deleteBlockCommandBuffer (win s)) (deleteBlockCount (win s))
                 (tokenList (win s)) (lastPongTime (win s)))
              (pages (win s) ++ [length (objs (win s))])
            = buffers_of (win s) (pages (win s)) ++ [b]).
    { rewrite buffers_of_app. f_equal.
      - apply buffers_of_ext. intros i Hi. simpl.
        pose proof (ok_wf _ Hok) as [Hrefs _ _].
        eapply Forall_forall in Hrefs as [q Hq]; [|exact Hi].
        rewrite lookup_app_l by (rewrite length_insert; by eapply lookup_lt_Some).
        destruct (decide (i = r)) as [->|Hne].
        + rewrite list_lookup_insert_eq by done. rewrite Hp. done.
        + by rewrite list_lookup_insert_ne.
      - unfold buffers_of. simpl.
        rewrite lookup_app_r by (rewrite length_insert; lia).
        rewrite length_insert, Nat.sub_diag. done. }
    fold sealed. simpl in Hwf.
    split; simpl.
    + apply Hwf.
    + intros i q Hi. apply Hlook in Hi as [[_ ->]|[[_ Hi]|[_ ->]]]; simpl.
      * lia.
      * by eapply ok_sizes.
      * lia.
    + unfold tail_page. simpl. rewrite last_snoc.
      rewrite lookup_app_r by (rewrite length_insert; lia).
      rewrite length_insert, Nat.sub_diag. simpl. intros q [= <-]. simpl. lia.
    + apply Hh'.
    + apply Hh'.
    + intros i q Hi. apply Hlook in Hi as [[_ ->]|[[_ Hi]|[_ ->]]]; simpl.
      * pose proof (ok_buffers _ Hok _ _ Hp). lia.
      * pose proof (ok_buffers _ Hok _ _ Hi). lia.
      * done.
    + fold sealed in Hbufs. rewrite Hbufs.
      pose proof (ok_owned _ Hok) as Hnd.
      apply NoDup_app in Hnd as (Hnd1 & Hdisj & Hnd2).
      rewrite <- app_assoc. apply NoDup_app. split_and!; [done| |].
      * intros x Hx Hx'. apply elem_of_app in Hx' as [Hx'|Hx'].
        -- apply list_elem_of_singleton in Hx'. subst x.
           destruct Hbfrom as [Hin| ->].
           ++ by eapply Hdisj.
           ++ pose proof (buffers_of_lt s _ Hok _ Hx). lia.
        -- eapply Hdisj; eauto.
      * apply NoDup_app. split_and!; [apply NoDup_singleton| |apply Hh'].
        intros x Hx. apply list_elem_of_singleton in Hx. by subst x.
  - rewrite Hcase in Hwf |- *. simpl in Hwf.
    destruct Hok as [H1 H2 H3 H4 H5 H6 H7].
    split; simpl; try done.
    + unfold tail_page in *. simpl. rewrite Hlast, Hp. intros q [= <-]. lia.
Qed.

Lemma ok_flush : keeps ok _flushMutationGroup.
Proof.
  intros s Hok. rewrite flush_eq.
  destruct (mutationGroup (win s)) as [mg|]; [|by apply ok_no_group].
  destruct (_ && _); [|by apply ok_no_group].
  destruct (objs (win s) !! page mg); [|done].
  by apply ok_no_group.
Qed.

Lemma ok_registerReadOffset readOffset : keeps ok (registerReadOffset readOffset).
Proof.
  intros s Hok.
  pose proof (registerReadOffset_spec readOffset s (ok_wf _ Hok)) as H.
  pose proof (wf_registerReadOffset readOffset s (ok_wf _ Hok)) as Hwf.
  unfold onWin in Hwf. cbn zeta in H.
  destruct (readOffset <? _).
  - by rewrite H.
  - destruct H as (retired & kept & Hsplit & Hrun & _ & _ & Hl).
    rewrite Hrun in Hwf |- *. simpl in Hwf.
    pose proof Hok as [H1 H2 H3 H4 H5 H6 H7].
    split; simpl; try done.
    + unfold tail_page in *. simpl. rewrite Hl. done.
    + apply Forall_app. split; [|done].
      apply Forall_forall. intros b Hb. rewrite elem_of_reverse in Hb.
      by eapply buffers_of_lt.
    + rewrite Hsplit, buffers_of_app in H7.
      change (buffers_of (set_pages kept (set_global_readOffset readOffset (win s))) kept)
        with (buffers_of (win s) kept).
      eapply NoDup_Permutation_proper; [|exact H7].
      rewrite reverse_Permutation.
      rewrite !app_assoc.
      apply Permutation_app_tail, Permutation_app_comm.
Qed.

Ltac ok_step :=
  lazymatch goal with
  | |- keeps _ (bind _ _) => apply keeps_bind; [|intros ?]
  | |- keeps _ (ret _) => apply keeps_ret
  | |- keeps _ (throw _) => apply keeps_throw
  | |- keeps _ getW => apply keeps_getW
  | |- keeps _ (deref _) => apply keeps_deref
  | |- keeps _ (page_subarray _ _ _) => apply keeps_page_subarray
  | |- keeps _ (onHeap (writeUint8 _ _ _)) => apply ok_onHeap, pokes_writeUint8
  | |- keeps _ (onHeap (writeUint16BE _ _ _)) => apply ok_onHeap, pokes_writeUint16BE
  | |- keeps _ (onHeap (write _ _ _ _)) => apply ok_onHeap, pokes_write
  | |- keeps _ (onHeap (copy_into _ _ _ _ _)) => apply ok_onHeap, pokes_copy_into
  | |- keeps _ (_allocCommandBuffer _) => apply ok_alloc; lia
  | |- keeps _ _flushMutationGroup => apply ok_flush
  | |- keeps _ (registerReadOffset _) => apply ok_registerReadOffset
  | |- keeps _ (modW _) => apply ok_modW; intros ?; done
  | |- keeps _ (send _) => apply ok_send
  | |- keeps _ (if _ then _ else _) => apply keeps_if
  | |- keeps _ (match ?x with _ => _ end) => destruct x
  end.

Ltac ok_tac := repeat ok_step.

Lemma ok_restreamLoop ps : forall readOffset, keeps ok (restreamLoop ps readOffset).
Proof. induction ps; intros; simpl; ok_tac. apply IHps. Qed.

Lemma ok_restream : keeps ok _restreamUnreadPages.
Proof. unfold _restreamUnreadPages. ok_tac. apply ok_restreamLoop. Qed.

Lemma ok_flushBlockDeleteQueue : keeps ok flushBlockDeleteQueue.
Proof.
  unfold flushBlockDeleteQueue. ok_step. { ok_step. }
  destruct (deleteBlockCount a >? 0) eqn:Hc; [|ok_step].
  apply Z.gtb_lt in Hc. ok_tac.
Qed.

Lemma ok_streamModifyToken n : keeps ok (_streamModifyToken n).
Proof. unfold _streamModifyToken. ok_tac. Qed.

Lemma ok_exec o s : ok s -> ok (exec o s).
Proof.
  intros Hok. destruct o; cbn [exec]; apply (keeps_state_of ok); try done.
  - apply ok_alloc. lia.
  - unfold emit. ok_tac.
  - unfold _registerAttrKey. ok_tac. apply ok_streamModifyToken.
  - unfold _registerStyleKey. ok_tac. apply ok_streamModifyToken.
  - unfold _handleBlockCleanup. ok_tac; apply ok_flushBlockDeleteQueue.
  - apply ok_flushBlockDeleteQueue.
  - apply ok_flush.
  - apply ok_registerReadOffset.
  - unfold registerPong. ok_tac.
  - unfold disconnect. ok_tac.
  - unfold reconnect. ok_tac. apply ok_restream.
  - unfold sendPing. ok_tac.
Qed.

Lemma ok_run ops : forall s, ok s -> ok (run ops s).
Proof.
  induction ops as [|o ops IH]; intros s Hok; simpl; [done|].
  apply IH. by apply ok_exec.
Qed.

Lemma ok_construct windowId newPort now h :
  heap_ok h -> ok (state_of (construct windowId newPort now h)).
Proof.
  intros Hh. unfold construct, _streamInitWindow.
  destruct (alloc_first (1 + 21) (mkWS (blank windowId newPort now) h))
    as (b & h' & s1 & Hb & Hs1 & Hwf & Hrun); [reflexivity..|].
  destruct (bufferPool_alloc_ok _ _ _ Hh Hb)
    as (Hh' & Hblt & Hbnin & Hlen & Hsub & Hbfrom).
  assert (Hok1 : ok s1).
  { subst s1. split; simpl in *; try apply Hh'; try done.
    - intros [|[|r]] p; simpl; intros [= <-]; simpl; lia.
    - unfold tail_page. simpl. intros p [= <-]. simpl. lia.
    - intros [|[|r]] p; simpl; intros [= <-]; simpl; lia.
    - unfold buffers_of. simpl. apply NoDup_cons. split; [done|apply Hh']. }
  pose proof (ok_alloc (1 + 21) ltac:(lia) s1 Hok1) as Ha.
  unfold bind at 1. rewrite Hrun.
  destruct (_allocCommandBuffer (1 + 21) s1) as [v s2|e s2]; [|done].
  apply (keeps_state_of ok); [|done].
  ok_tac.
Qed.

(** ** What enters the pool *)

#[local] Instance pool_le_preorder : PreOrder pool_le.
Proof. split; unfold pool_le; [intros ?|intros ???]; auto. Qed.

#[local] Instance same_store_preorder : PreOrder same_store.
Proof.
  split; unfold same_store; [intros ?|intros ???]; [done|].
  intros [-> ->] [-> ->]. done.
Qed.













(** ** C4 *)


(** ** C2 *)

Lemma clampIndex_bounds len i : 0 <= len -> 0 <= clampIndex len i <= len.
Proof. unfold clampIndex. destruct (i <? 0) eqn:?; lia. Qed.

Lemma clampIndex_id len i : 0 <= i <= len -> clampIndex len i = i.
Proof. unfold clampIndex. destruct (i <? 0) eqn:?; lia. Qed.

Lemma subarray_whole_bounds h b start stop :
  let v := subarray (whole h b) start stop in
  v_buffer v = b /\ 0 <= v_offset v /\ 0 <= v_length v /\
  v_offset v + v_length v <= buffer_length h b.
Proof.
  assert (0 <= buffer_length h b).
  { unfold buffer_length. destruct (_ !! _); lia. }
  simpl.
  pose proof (clampIndex_bounds (buffer_length h b) start).
  pose proof (clampIndex_bounds (buffer_length h b) stop). lia.
Qed.

Lemma subarray_whole_exact h b start len :
  0 <= start -> 0 <= len -> start + len <= buffer_length h b ->
  subarray (whole h b) start (start + len) = mkView b start len.
Proof.
  intros. unfold subarray, whole. simpl.
  rewrite !clampIndex_id by lia. f_equal; lia.
Qed.

Lemma ok_buffer_length s r p :
  0 <= PAGE_SIZE -> ok s -> objs (win s) !! r = Some p ->
  buffer_length (heap s) (buffer p) = PAGE_SIZE.
Proof.
  intros Hpos Hok Hp. unfold buffer_length.
  pose proof (ok_buffers _ Hok _ _ Hp) as Hlt.
  apply lookup_lt_is_Some in Hlt as [c Hc]. rewrite Hc.
  pose proof (ok_blocks _ Hok) as Hb.
  eapply Forall_lookup_1 in Hb; [|exact Hc]. simpl in Hb. lia.
Qed.

(** C2. The range that [_allocCommandBuffer size] returns is a range of the
    buffer of one page, the last page of the list after the call, whose
    buffer no other page of the list has; a command that fits a page at all
    ([size <= PAGE_SIZE]) gets exactly [size] bytes there, at the write
    offset.  When [size] would overflow the current page, that page is
    sealed with the bytes used so far and the range starts a page freshly
    appended to the list; otherwise the page list is unchanged. *)
Theorem allocCommandBuffer_stays_in_one_page
    windowId newPort now h ops (size : nat) :
  heap_ok h -> 0 < PAGE_SIZE ->
  let s := window_after windowId newPort now h ops in
  exists v s' q p,
    _allocCommandBuffer (Z.of_nat size) s = Ret v s' /\
    tail_page (win s) = Some q /\
    tail_page (win s') = Some p /\
    v_buffer v = buffer p /\
    NoDup (buffers_of (win s') (pages (win s'))) /\
    buffer_length (heap s') (buffer p) = PAGE_SIZE /\
    0 <= v_offset v /\ 0 <= v_length v /\
    v_offset v + v_length v <= PAGE_SIZE /\
    (Z.of_nat size <= PAGE_SIZE ->
       v_length v = Z.of_nat size /\
       global_headOffset p + v_offset v = global_writeOffset (win s)) /\
    let used := global_writeOffset (win s) - global_headOffset q in
    if used + Z.of_nat size >=? PAGE_SIZE then
      exists r,
        last (pages (win s)) = Some r /\
        objs (win s') !! r =
          Some (mkPage (global_headOffset q) (buffer q) used) /\
        pages (win s') = pages (win s) ++ [length (objs (win s))] /\
        p = mkPage (global_writeOffset (win s)) (buffer p) 0 /\
        v_offset v = 0
    else
      pages (win s') = pages (win s) /\ objs (win s') = objs (win s) /\ p = q.
Proof.
  intros Hh Hpos s.
  assert (Hok : ok s) by (apply ok_run, ok_construct; done).
  pose proof (ok_alloc (Z.of_nat size) ltac:(lia) s Hok) as Hok'.
  destruct (alloc_spec (Z.of_nat size) s (ok_wf _ Hok))
    as (r & q & Hlast & Hq & Hfin & Hcase).
  cbn zeta in Hcase.
  assert (Htq : tail_page (win s) = Some q) by (unfold tail_page; by rewrite Hlast).
  pose proof (ok_tail _ Hok q Htq) as Hhead.
  assert (Hr : (r < length (objs (win s)))%nat) by (by eapply lookup_lt_Some).
  destruct (_ >=? PAGE_SIZE) eqn:Hov.
  - destruct Hcase as (b & h' & Hb & Hrun). rewrite Hrun in Hok'.
    eexists _, _, q, (mkPage (global_writeOffset (win s)) b 0).
    split; [exact Hrun|].
    assert (Hnew : (<[r := mkPage (global_headOffset q) (buffer q)
                              (global_writeOffset (win s) - global_headOffset q)]>
                      (objs (win s)) ++ [mkPage (global_writeOffset (win s)) b 0])
                   !! length (objs (win s))
                   = Some (mkPage (global_writeOffset (win s)) b 0)).
    { rewrite lookup_app_r by (rewrite length_insert; lia).
      by rewrite length_insert, Nat.sub_diag. }
    pose proof (ok_buffer_length _ _ _ ltac:(lia) Hok' Hnew) as Hlen.
    simpl in Hlen.
    pose proof (subarray_whole_bounds h' b 0 (0 + Z.of_nat size)) as (Hv1 & Hv2 & Hv3 & Hv4).
    cbn zeta in *. rewrite Hlen in Hv4.
    split_and!; try done.
    + unfold tail_page. simpl. by rewrite last_snoc.
    + pose proof (ok_owned _ Hok') as Hnd. by apply NoDup_app in Hnd as (? & _).
    + intros Hfit. rewrite subarray_whole_exact by lia. simpl. lia.
    + simpl. rewrite Hov. exists r. split_and!; try done.
      * rewrite lookup_app_l by (by rewrite length_insert).
        by rewrite list_lookup_insert_eq.
      * rewrite clampIndex_id by lia. lia.
  - rewrite Hcase in Hok'. pose proof Hov as Hov2.
    rewrite Z.geb_leb in Hov. apply Z.leb_gt in Hov.
    eexists _, _, q, q. split; [exact Hcase|].
    assert (Hlen : buffer_length (heap s) (buffer q) = PAGE_SIZE).
    { eapply ok_buffer_length; [lia|exact Hok|exact Hq]. }
    rewrite subarray_whole_exact by lia. simpl.
    split_and!; try done; try lia.
    + pose proof (ok_owned _ Hok) as Hnd. by apply NoDup_app in Hnd as (? & _).
    + by rewrite Hov2.
Qed.

(** ** Contents of the pages *)

Lemma within_refl v h : within v h h.
Proof. by split. Qed.

Lemma within_trans v h1 h2 h3 : within v h1 h2 -> within v h2 h3 -> within v h1 h3.
Proof.
  intros [A1 A2 A3 A4 A5 A6] [B1 B2 B3 B4 B5 B6].
  split.
  - congruence.
  - congruence.
  - intros b. etrans; [apply B3|apply A3].
  - intros b Hb. etrans; [by apply B4|by apply A4].
  - congruence.
  - congruence.
Qed.

Lemma content_insert h b c x pl :
  (b < length (bufs h))%nat ->
  content (mkHeap (<[b := c]> (bufs h)) pl) x = if decide (x = b) then c else content h x.
Proof.
  intros Hb. unfold content. simpl. destruct (decide (x = b)) as [->|Hne].
  - by rewrite list_lookup_insert_eq.
  - by rewrite list_lookup_insert_ne.
Qed.

Lemma blit_inside c off bs :
  (off + length bs <= length c)%nat ->
  blit c off bs = take off c ++ bs ++ drop (off + length bs) c.
Proof.
  intros H. unfold blit. apply take_ge.
  rewrite !length_app, length_take, length_drop. lia.
Qed.

Lemma within_poke v h off bs :
  0 <= v_offset v -> 0 <= off ->
  off + Z.of_nat (length bs) <= v_length v ->
  v_offset v + v_length v <= Z.of_nat (length (content h (v_buffer v))) ->
  within v h (poke h v off bs).
Proof.
  intros H0 H1 H2 H3. unfold poke.
  destruct (bufs h !! v_buffer v) as [c|] eqn:Hc; [|apply within_refl].
  assert (Hlt : (v_buffer v < length (bufs h))%nat) by (by eapply lookup_lt_Some).
  assert (Hcc : content h (v_buffer v) = c) by (unfold content; by rewrite Hc).
  rewrite Hcc in H3.
  assert (Hin : (Z.to_nat (v_offset v + off) + length bs <= length c)%nat) by lia.
  split; simpl.
  - done.
  - by rewrite length_insert.
  - intros b. rewrite content_insert by done. case_decide; [|done].
    subst b. by rewrite length_blit, Hcc.
  - intros b Hb. rewrite content_insert by done. by rewrite decide_False.
  - rewrite content_insert by done. rewrite decide_True by done.
    rewrite Hcc, blit_inside by done.
    rewrite take_app_le by (rewrite length_take; lia).
    rewrite take_take. f_equal. lia.
  - rewrite content_insert by done. rewrite decide_True by done.
    rewrite Hcc, blit_inside by done.
    rewrite app_assoc, drop_app_ge by (rewrite length_app, length_take; lia).
    rewrite length_app, length_take, drop_drop. f_equal. lia.
Qed.

(** ** Slices *)

Lemma slice_nil {A} (l : list A) a : slice l a 0 = [].
Proof. done. Qed.

Lemma slice_length {A} (l : list A) a n :
  0 <= a -> 0 <= n -> a + n <= Z.of_nat (length l) ->
  length (slice l a n) = Z.to_nat n.
Proof. intros. unfold slice. rewrite length_take, length_drop. lia. Qed.

Lemma slice_app_l {A} (l x : list A) a n :
  0 <= a -> 0 <= n -> a + n <= Z.of_nat (length l) ->
  slice (l ++ x) a n = slice l a n.
Proof.
  intros. unfold slice. rewrite drop_app_le by lia.
  rewrite take_app_le; [done|]. rewrite length_drop. lia.
Qed.

Lemma slice_app_r {A} (l x : list A) n :
  Z.of_nat (length x) = n ->
  slice (l ++ x) (Z.of_nat (length l)) n = x.
Proof.
  intros <-. unfold slice. rewrite !Nat2Z.id, drop_app_length.
  by rewrite firstn_all.
Qed.

Lemma slice_split {A} (l : list A) a n m :
  0 <= a -> 0 <= n -> 0 <= m ->
  slice l a (n + m) = slice l a n ++ slice l (a + n) m.
Proof.
  intros. unfold slice.
  replace (Z.to_nat (n + m)) with (Z.to_nat n + Z.to_nat m)%nat by lia.
  replace (Z.to_nat (a + n)) with (Z.to_nat a + Z.to_nat n)%nat by lia.
  rewrite <- drop_drop. by rewrite take_take_drop.
Qed.


Lemma view_bytes_exact h b off len :
  view_bytes h (mkView b off len) = slice (content h b) off len.
Proof. unfold view_bytes, content. simpl. destruct (bufs h !! b); [done|]. simpl. unfold slice. by rewrite drop_nil, take_nil. Qed.

(** ** Chains of sealed pages *)

Lemma sealed_chain_app os h stream a b x z :
  sealed_chain os h stream (a ++ b) x z <->
  exists y, sealed_chain os h stream a x y /\ sealed_chain os h stream b y z.
Proof.
  revert x. induction a as [|r a IH]; intros x; simpl.
  - split; [intros H; by exists x|intros (y & -> & H); done].
  - split.
    + intros (p & Hp & Hx & Hfs & Hc & Hrest).
      apply IH in Hrest as (y & Ha & Hb). exists y. split; [|done].
      exists p. done.
    + intros (y & (p & Hp & Hx & Hfs & Hc & Ha) & Hb).
      exists p. do 4 (split; [done|]). apply IH. eauto.
Qed.

Lemma sealed_chain_le os h stream ps x z :
  sealed_chain os h stream ps x z -> x <= z.
Proof.
  revert x. induction ps as [|r ps IH]; intros x; simpl.
  - lia.
  - intros (p & _ & _ & Hfs & _ & Hrest). apply IH in Hrest. lia.
Qed.

Lemma sealed_chain_frame os h stream os' h' stream' ps x z :
  (forall r p, r ∈ ps -> os !! r = Some p -> 0 < finalSize p ->
     os' !! r = Some p /\ content h' (buffer p) = content h (buffer p)) ->
  (forall a n, 0 <= a -> 0 <= n -> a + n <= z ->
     slice stream' a n = slice stream a n) ->
  0 <= x ->
  sealed_chain os h stream ps x z -> sealed_chain os' h' stream' ps x z.
Proof.
  intros Hobj Hstream. revert x.
  induction ps as [|r ps IH]; intros x Hx; simpl; [done|].
  intros (p & Hp & Hhead & Hfs & Hc & Hrest).
  destruct (Hobj r p) as [Hp' Hcont]; [by left|done|lia|].
  exists p. do 3 (split; [done|]). split.
  - rewrite Hcont, Hc. symmetry. apply Hstream; try lia.
    apply sealed_chain_le in Hrest. lia.
  - apply IH; [|lia|done]. intros r' p' Hr'. apply Hobj. by right.
Qed.

Lemma sealed_chain_acked os h stream ps x z ro :
  sealed_chain os h stream ps x z ->
  Forall (fun r => exists p, os !! r = Some p /\ finalSize p <> 0 /\
                   global_headOffset p + finalSize p <= ro) ps ->
  x <= ro -> z <= ro.
Proof.
  revert x. induction ps as [|r ps IH]; intros x; simpl.
  - intros <- _. done.
  - intros (p & Hp & Hhead & Hfs & _ & Hrest) Hall Hx.
    apply Forall_cons in Hall as [(q & Hq & _ & Hle) Hall].
    simplify_eq. eapply IH; eauto.
Qed.

(** ** The pages hold the stream *)

Lemma tight_frame s stream w' :
  ok (mkWS w' (heap s)) ->
  objs w' = objs (win s) -> pages w' = pages (win s) ->
  global_writeOffset w' = global_writeOffset (win s) ->
  global_readOffset (win s) <= global_readOffset w' ->
  0 <= deleteBlockCount w' <= 1000 ->
  tight s stream -> tight (mkWS w' (heap s)) stream.
Proof.
  intros Hok Ho Hp Hw Hr Hc [H1 H2 H3 (sealed & t & p & start & H4)].
  split; simpl; rewrite ?Ho, ?Hp, ?Hw; try done.
  exists sealed, t, p, start. destruct H4 as (?&?&?&?&?&?&?&?).
  split_and!; try done; lia.
Qed.

Lemma tight_modW stream f :
  (forall w, objs (f w) = objs w /\ pages (f w) = pages w /\
             mutationGroup (f w) = mutationGroup w /\
             global_writeOffset (f w) = global_writeOffset w /\
             global_readOffset (f w) = global_readOffset w /\
             deleteBlockCount (f w) = deleteBlockCount w) ->
  keeps (fun s => tight s stream) (modW f).
Proof.
  intros Hf s Hs. destruct (Hf (win s)) as (Ho & Hp & Hm & Hw & Hr & Hc).
  apply tight_frame; try done; try lia.
  - apply ok_frame; try done. apply Hs.
  - rewrite Hc. apply Hs.
Qed.

Lemma tight_send stream v : keeps (fun s => tight s stream) (send v).
Proof.
  intros s Hs. apply tight_frame; try done.
  - apply (ok_send v s), Hs.
  - apply Hs.
Qed.

Lemma tight_flush stream : keeps (fun s => tight s stream) _flushMutationGroup.
Proof.
  intros s Hs. pose proof (ok_flush s (ti_ok _ _ Hs)) as Hok.
  rewrite flush_eq in Hok |- *.
  destruct (mutationGroup (win s)) as [mg|].
  2:{ apply tight_frame; try done. apply Hs. }
  destruct (_ && _).
  2:{ apply tight_frame; try done. apply Hs. }
  destruct (objs (win s) !! page mg); [|done].
  apply tight_frame; try done. apply Hs.
Qed.

Lemma tight_registerReadOffset stream readOffset :
  keeps (fun s => tight s stream) (registerReadOffset readOffset).
Proof.
  intros s Hs.
  pose proof (ok_registerReadOffset readOffset s (ti_ok _ _ Hs)) as Hok.
  pose proof (registerReadOffset_spec readOffset s (ok_wf _ (ti_ok _ _ Hs))) as H.
  cbn zeta in H.
  destruct (readOffset <? global_readOffset (win s)) eqn:Hlt; [by rewrite H|].
  apply Z.ltb_ge in Hlt.
  destruct H as (retired & kept & Hsplit & Hrun & Hret & _ & Hl).
  rewrite Hrun in Hok |- *.
  destruct Hs as [H1 H2 H3 (sealed & t & p & start & Hpages & Hp & Hfin & Hstart &
                            Hchain & Hne & Hcap & Hcont)].
  split; simpl; try done.
  assert (exists sealed', kept = sealed' ++ [t] /\ sealed = retired ++ sealed')
    as (sealed' & -> & ->).
  { rewrite Hsplit in Hl. rewrite Hpages in Hsplit.
    destruct (decide (kept = [])) as [->|Hk].
    { rewrite app_nil_r in Hsplit. rewrite app_nil_r in Hl.
      rewrite <- Hsplit, last_snoc in Hl. done. }
    destruct (exists_last Hk) as (sealed' & t' & ->).
    rewrite app_assoc in Hsplit. apply app_inj_tail in Hsplit as [-> ->].
    eauto. }
  apply sealed_chain_app in Hchain as (y & Hc1 & Hc2).
  exists sealed', t, p, y.
  pose proof (sealed_chain_le _ _ _ _ _ _ Hc1) as Hle1.
  pose proof (sealed_chain_le _ _ _ _ _ _ Hc2) as Hle2.
  assert (Hy : y <= readOffset).
  { eapply sealed_chain_acked; [exact Hc1|exact Hret|lia]. }
  split_and!; try done; try lia.
  eapply sealed_chain_frame; [| |lia|exact Hc2]; [|done].
  intros r q _ Hq. done.
Qed.

Lemma tight_restreamLoop stream ps : forall readOffset,
  keeps (fun s => tight s stream) (restreamLoop ps readOffset).
Proof.
  induction ps as [|r ps IH]; intros readOffset; simpl.
  - apply keeps_ret.
  - apply keeps_bind; [apply keeps_deref|intros p].
    apply keeps_bind; [apply keeps_getW|intros w].
    apply keeps_bind; [apply keeps_page_subarray|intros v].
    apply keeps_bind; [apply tight_send|intros _].
    apply IH.
Qed.

Lemma tight_restream stream : keeps (fun s => tight s stream) _restreamUnreadPages.
Proof.
  unfold _restreamUnreadPages.
  apply keeps_bind; [apply keeps_getW|intros w].
  apply keeps_if; [|apply keeps_ret].
  apply keeps_bind; [apply tight_restreamLoop|intros r].
  apply keeps_if; [apply keeps_throw|apply keeps_ret].
Qed.

Lemma buffer_length_content h b :
  buffer_length h b = Z.of_nat (length (content h b)).
Proof. unfold buffer_length, content. by destruct (bufs h !! b). Qed.

Lemma ok_content_length s r p :
  0 <= PAGE_SIZE -> ok s -> objs (win s) !! r = Some p ->
  Z.of_nat (length (content (heap s) (buffer p))) = PAGE_SIZE.
Proof.
  intros. rewrite <- buffer_length_content. by eapply ok_buffer_length.
Qed.

Lemma bufferPool_alloc_content h b h' x :
  bufferPool_alloc h = Ret b h' -> (x < length (bufs h))%nat ->
  content h' x = content h x.
Proof.
  unfold bufferPool_alloc, content.
  destruct (pool h); intros [= <- <-] Hx; simpl; [|done].
  by rewrite lookup_app_l.
Qed.

Lemma tight_alloc stream size s :
  1 <= size <= PAGE_SIZE ->
  tight s stream ->
  exists v s1,
    _allocCommandBuffer size s = Ret v s1 /\
    v_length v = size /\
    written (global_writeOffset (win s)) stream v s1.
Proof.
  intros Hsize Hs.
  pose proof (ok_alloc size ltac:(lia) s (ti_ok _ _ Hs)) as Hok1.
  destruct (alloc_spec size s (ok_wf _ (ti_ok _ _ Hs)))
    as (r & q & Hlast & Hq & _ & Hcase).
  cbn zeta in Hcase.
  destruct Hs as [Hok Hlen Hcnt (sealed & t & p & start & Hpages & Hp & Hfin &
                                 Hstart & Hchain & Hne & Hcap & Hcont)].
  rewrite Hpages, last_snoc in Hlast. simplify_eq.
  set (wo := global_writeOffset (win s)) in *.
  set (cpo := wo - global_headOffset p) in *.
  pose proof (ok_content_length s r p ltac:(lia) Hok Hp) as Hclen.
  pose proof (sealed_chain_le _ _ _ _ _ _ Hchain) as Hle.
  destruct (cpo + size >=? PAGE_SIZE) eqn:Hov.
  - destruct Hcase as (b & h' & Hb & Hrun). rewrite Hrun in Hok1.
    assert (Hr : (r < length (objs (win s)))%nat) by (by eapply lookup_lt_Some).
    set (os' := <[r := mkPage (global_headOffset p) (buffer p) cpo]> (objs (win s))
                  ++ [mkPage wo b 0]) in *.
    assert (Hnew : os' !! length (objs (win s)) = Some (mkPage wo b 0)).
    { unfold os'. rewrite lookup_app_r by (rewrite length_insert; lia).
      by rewrite length_insert, Nat.sub_diag. }
    assert (Hold : os' !! r = Some (mkPage (global_headOffset p) (buffer p) cpo)).
    { unfold os'. rewrite lookup_app_l by (by rewrite length_insert).
      by rewrite list_lookup_insert_eq. }
    pose proof (ok_content_length _ _ _ ltac:(lia) Hok1 Hnew) as Hblen.
    simpl in Hblen.
    assert (Hv : subarray (whole h' b) 0 (0 + size) = mkView b 0 size).
    { apply subarray_whole_exact; try lia. rewrite buffer_length_content. lia. }
    rewrite Hv in Hrun.
    eexists _, _. split; [exact Hrun|]. split; [done|].
    assert (Hvb : length (slice (content h' b) 0 size) = Z.to_nat size).
    { apply slice_length; lia. }
    split; simpl.
    + rewrite view_bytes_exact. split; simpl.
      * done.
      * rewrite length_app, Hvb. lia.
      * done.
      * exists (sealed ++ [r]), (length (objs (win s))), (mkPage wo b 0), start.
        simpl. split_and!; try done; try lia.
        -- by rewrite Hpages.
        -- apply sealed_chain_app. exists (global_headOffset p). split.
           ++ eapply sealed_chain_frame; [| |lia|exact Hchain].
              ** intros i qi Hi Hqi Hpos.
                 assert (i <> r) by (intros ->; simplify_eq; lia).
                 split.
                 --- unfold os'. rewrite lookup_app_l
                       by (rewrite length_insert; by eapply lookup_lt_Some).
                     by rewrite list_lookup_insert_ne.
                 --- eapply bufferPool_alloc_content; [exact Hb|].
                     by eapply ok_buffers.
              ** intros a n Ha Hn Han. apply slice_app_l; lia.
           ++ simpl. eexists. split; [exact Hold|]. simpl.
              split_and!; try done; try lia.
              rewrite (bufferPool_alloc_content _ _ _ _ Hb)
                by (by eapply ok_buffers).
              rewrite slice_app_l by lia. exact Hcont.
        -- replace (wo + size - wo) with size by lia.
           rewrite <- Hlen. by rewrite slice_app_r by lia.
    + exists (mkPage wo b 0). unfold tail_page. simpl.
      rewrite last_snoc. split; [exact Hnew|]. f_equal; lia.
    + done.
    + unfold view_ok. simpl. unfold content in *. simpl. lia.
  - rewrite Hcase in Hok1 |- *.
    rewrite Z.geb_leb in Hov. apply Z.leb_gt in Hov.
    assert (Hv : subarray (whole (heap s) (buffer p)) cpo (cpo + size)
                 = mkView (buffer p) cpo size).
    { apply subarray_whole_exact; try lia. rewrite buffer_length_content. lia. }
    rewrite Hv.
    eexists _, _. split; [reflexivity|]. split; [done|].
    assert (Hvb : length (slice (content (heap s) (buffer p)) cpo size) = Z.to_nat size).
    { apply slice_length; lia. }
    split; simpl.
    + rewrite view_bytes_exact. split; simpl.
      * done.
      * rewrite length_app, Hvb. lia.
      * done.
      * exists sealed, r, p, start. split_and!; try done; try lia.
        -- eapply sealed_chain_frame; [| |lia|exact Hchain]; [done|].
           intros a n Ha Hn Han. apply slice_app_l; lia.
        -- replace (wo + size - global_headOffset p)
             with (cpo + size) by (unfold cpo; lia).
           rewrite !slice_split by lia.
           f_equal.
           ++ rewrite slice_app_l by (unfold cpo, wo in *; lia). exact Hcont.
           ++ replace (global_headOffset p + cpo) with (Z.of_nat (length stream))
                by (unfold cpo, wo in *; lia).
              by rewrite slice_app_r by lia.
    + exists p. unfold tail_page. simpl. rewrite Hpages, last_snoc.
      split; [done|]. f_equal; unfold cpo, wo; lia.
    + done.
    + unfold view_ok. simpl. lia.
Qed.

Lemma content_lookup h b c : bufs h !! b = Some c -> content h b = c.
Proof. unfold content. by intros ->. Qed.

Lemma content_valid h b :
  (b < length (bufs h))%nat -> bufs h !! b = Some (content h b).
Proof.
  intros Hb. apply lookup_lt_is_Some in Hb as [c Hc].
  by rewrite (content_lookup _ _ _ Hc).
Qed.

Lemma ok_within s v h2 :
  ok s -> within v (heap s) h2 -> ok (mkWS (win s) h2).
Proof.
  intros [H1 H2 H3 H4 H5 H6 H7] [W1 W2 W3 W4 W5 W6].
  split; simpl; rewrite ?W1, ?W2; try done.
  apply Forall_lookup_2. intros b c Hc.
  assert (Hb : (b < length (bufs (heap s)))%nat).
  { rewrite <- W2. by eapply lookup_lt_Some. }
  rewrite <- (content_lookup _ _ _ Hc), W3.
  eapply Forall_lookup_1 in H4; [exact H4|]. by apply content_valid.
Qed.

Lemma within_view_ok v h h' : within v h h' -> view_ok h v -> view_ok h' v.
Proof. intros [W1 W2 W3 W4 W5 W6] (?&?&?). unfold view_ok. rewrite W3. done. Qed.

Lemma buffers_of_snoc w ps t p :
  objs w !! t = Some p ->
  buffers_of w (ps ++ [t]) = buffers_of w ps ++ [buffer p].
Proof.
  intros Hp. rewrite buffers_of_app. f_equal.
  unfold buffers_of. simpl. by rewrite Hp.
Qed.

Lemma slice_app_r' {A} (l x : list A) a n :
  a = Z.of_nat (length l) -> Z.of_nat (length x) = n ->
  slice (l ++ x) a n = x.
Proof. intros -> ?. by apply slice_app_r. Qed.

Lemma written_within k stream v s h2 :
  within v (heap s) h2 ->
  written k stream v s -> written k stream v (mkWS (win s) h2).
Proof.
  intros Hwi [Ht (p' & Htail & Hv) Hk Hvok].
  pose proof Hwi as [W1 W2 W3 W4 W5 W6].
  destruct Ht as [Hok Hlen Hcnt (sealed & t & p & start & Hpages & Hp & Hfin &
                                 Hstart & Hchain & Hne & Hcap & Hcont)].
  unfold tail_page in Htail. rewrite Hpages, last_snoc, Hp in Htail.
  injection Htail as <-. subst v.
  set (wo := global_writeOffset (win s)) in *.
  set (hd := global_headOffset p) in *.
  subst k. set (k := Z.of_nat (length stream)) in *.
  destruct Hvok as (Hv1 & Hv2 & Hv3). simpl in Hv1, Hv2, Hv3.
  rewrite view_bytes_exact in Hlen, Hchain, Hcont.
  assert (Hvb : forall h, length (content h (buffer p)) = length (content (heap s) (buffer p)) ->
                    length (slice (content h (buffer p)) (k - hd) (wo - k))
                    = Z.to_nat (wo - k)).
  { intros h Hh. apply slice_length; lia. }
  pose proof (sealed_chain_le _ _ _ _ _ _ Hchain) as Hle.
  split.
  - rewrite view_bytes_exact. simpl. split; simpl.
    + by eapply ok_within.
    + rewrite length_app, Hvb by apply W3.
      rewrite length_app, Hvb in Hlen by done. done.
    + done.
    + exists sealed, t, p, start. do 4 (split; [done|]). split; [|do 2 (split; [done|])].
      * eapply sealed_chain_frame; [| |lia|exact Hchain].
        -- intros r q Hr Hq Hpos. split; [done|].
           apply W4. simpl.
           pose proof (ok_owned _ Hok) as Hnd.
           rewrite Hpages, (buffers_of_snoc _ _ _ _ Hp) in Hnd.
           apply NoDup_app in Hnd as (Hnd & _ & _).
           apply NoDup_app in Hnd as (_ & Hdisj & _).
           intros Heq. apply (Hdisj (buffer q)).
           ++ unfold buffers_of. apply list_elem_of_omap. exists r. by rewrite Hq.
           ++ rewrite Heq. by left.
        -- intros a n Ha Hn Han.
           rewrite !slice_app_l by lia. done.
      * fold wo hd.
        replace (wo - hd) with ((k - hd) + (wo - k)) in Hcont |- * by lia.
        rewrite !slice_split in Hcont |- * by lia.
        rewrite !slice_app_l in Hcont |- * by lia.
        replace (hd + (k - hd)) with k in Hcont |- * by lia.
        rewrite (slice_app_r' stream _ k) in Hcont
          by first [done | rewrite Hvb; [lia|done]].
        rewrite (slice_app_r' stream _ k)
          by first [done | rewrite Hvb; [lia|apply W3]].
        apply app_inj_1 in Hcont as [Hcont _].
        2:{ rewrite !slice_length; lia. }
        f_equal. rewrite <- Hcont. unfold slice.
        rewrite !drop_0. simpl in W5. exact W5.
  - exists p. unfold tail_page. simpl. by rewrite Hpages, last_snoc, Hp.
  - done.
  - by eapply within_view_ok.
Qed.

Lemma within_poke_nil v h off : within v h (poke h v off []).
Proof.
  unfold poke. destruct (bufs h !! v_buffer v) as [c|] eqn:Hc; [|apply within_refl].
  assert (Hb : blit c (Z.to_nat (v_offset v + off)) [] = c).
  { unfold blit. simpl. rewrite Nat.add_0_r, take_drop. by rewrite firstn_all. }
  rewrite Hb, list_insert_id by done. destruct h. apply within_refl.
Qed.

Lemma within_writeUint8 v value offset h :
  view_ok h v -> within v h (state_of (writeUint8 v value offset h)).
Proof.
  intros (H1 & H2 & H3). unfold writeUint8.
  destruct (byte_of_Z value); [|apply within_refl].
  destruct (_ && _) eqn:Hc; [|apply within_refl].
  apply andb_true_iff in Hc as [Ha Hb].
  apply Z.leb_le in Ha, Hb. simpl. apply within_poke; simpl; lia.
Qed.

Lemma within_writeUint16BE v value offset h :
  view_ok h v -> within v h (state_of (writeUint16BE v value offset h)).
Proof.
  intros (H1 & H2 & H3). unfold writeUint16BE.
  destruct (_ && _); [|apply within_refl].
  destruct (byte_of_Z _); [|apply within_refl].
  destruct (byte_of_Z _); [|apply within_refl].
  destruct (_ && _) eqn:Hc; [|apply within_refl].
  apply andb_true_iff in Hc as [Ha Hb].
  apply Z.leb_le in Ha, Hb. simpl. apply within_poke; simpl; lia.
Qed.

Lemma within_write v bs offset len h :
  view_ok h v -> within v h (state_of (write v bs offset len h)).
Proof.
  intros (H1 & H2 & H3). unfold write.
  destruct (_ && _) eqn:Hc; [|apply within_refl].
  repeat (apply andb_true_iff in Hc as [Hc ?]).
  repeat match goal with H : (_ <=? _) = true |- _ => apply Z.leb_le in H end.
  simpl. apply within_poke; simpl; try lia.
  rewrite length_take.
  pose proof (char_boundary_le bs
                (Z.to_nat (Z.min len (v_length v - offset)))). lia.
Qed.

Lemma within_copy_into src v a b c h :
  view_ok h v -> within v h (state_of (copy_into src v a b c h)).
Proof.
  intros (H1 & H2 & H3). unfold copy_into.
  destruct (a <? 0) eqn:Ha; [apply within_refl|].
  destruct (b <? 0) eqn:Hb; [apply within_refl|].
  apply Z.ltb_ge in Ha, Hb. simpl.
  destruct (decide (v_length v - a <= 0)) as [Hroom|Hroom].
  - replace (Z.min (Z.max (c - b) 0) (Z.max (v_length v - a) 0)) with 0 by lia.
    rewrite slice_nil. apply within_poke_nil.
  - apply within_poke; simpl; try lia.
    unfold slice. rewrite length_take. lia.
Qed.

Lemma written_onHeap {A} k stream v (m : M Heap A) :
  (forall h, view_ok h v -> within v h (state_of (m h))) ->
  keeps (written k stream v) (onHeap m).
Proof.
  intros Hm s Hs. unfold onHeap.
  pose proof (written_within k stream v s _ (Hm (heap s) (wr_ok _ _ _ _ Hs)) Hs) as H.
  by destruct (m (heap s)).
Qed.

Lemma written_modW k stream v f :
  (forall w, objs (f w) = objs w /\ pages (f w) = pages w /\
             mutationGroup (f w) = mutationGroup w /\
             global_writeOffset (f w) = global_writeOffset w /\
             global_readOffset (f w) = global_readOffset w /\
             0 <= deleteBlockCount (f w) <= 1000) ->
  keeps (written k stream v) (modW f).
Proof.
  intros Hf s [Ht (p & Htail & Hv) Hk Hvok].
  destruct (Hf (win s)) as (Ho & Hp & Hm & Hw & Hr & Hc).
  split; simpl; try done.
  - apply (tight_frame s); try done; try lia.
    apply ok_frame; try done. apply Ht.
  - exists p. unfold tail_page in *. simpl. rewrite Hp, Ho, Hw. done.
Qed.

Lemma appended_same s s' :
  global_writeOffset (win s') = global_writeOffset (win s) -> appended s s' = [].
Proof.
  intros Hw. unfold appended. destruct (tail_page (win s')); [|done].
  rewrite Hw, Z.sub_diag. apply slice_nil.
Qed.

Lemma written_appended s stream v s' :
  written (global_writeOffset (win s)) stream v s' ->
  tight s' (stream ++ appended s s').
Proof.
  intros [Ht (p & Htail & Hv) Hk Hvok]. unfold appended. rewrite Htail.
  subst v. by rewrite view_bytes_exact in Ht.
Qed.

Lemma hoare_bind {S A B} (P : S -> Prop) (m : M S A) (k : A -> M S B)
    (Q : A -> S -> Prop) (R : B -> S -> Prop) (E : Err -> S -> Prop) :
  hoare P m Q E -> (forall a, hoare (Q a) (k a) R E) -> hoare P (bind m k) R E.
Proof.
  intros Hm Hk s Hs. unfold bind. specialize (Hm s Hs).
  destruct (m s) as [a s'|e s']; [|done]. by apply Hk.
Qed.

Lemma tight_unchanged s s' stream :
  tight s stream -> tight s' stream -> tight s' (stream ++ appended s s').
Proof.
  intros Hs Hs'. rewrite appended_same, app_nil_r; [done|].
  rewrite <- (ti_length _ _ Hs), <- (ti_length _ _ Hs'). done.
Qed.

Lemma tight_keeps {A} (m : M WS A) s stream :
  keeps (fun s => tight s stream) m -> tight s stream ->
  tight (state_of (m s)) (stream ++ appended s (state_of (m s))).
Proof.
  intros Hm Hs. apply tight_unchanged; [done|].
  by apply (keeps_state_of (fun s => tight s stream)).
Qed.

(** A command producer: allocate, then run [k] on the range. *)
Lemma produce {A} stream size (k : View -> M WS A) s
    (Q : A -> WS -> Prop) :
  1 <= size <= PAGE_SIZE ->
  tight s stream ->
  (forall v, hoare (written (global_writeOffset (win s)) stream v) (k v)
               (fun a s' => written (global_writeOffset (win s)) stream v s' /\ Q a s')
               (fun _ s' => written (global_writeOffset (win s)) stream v s')) ->
  match bind (_allocCommandBuffer size) k s with
  | Ret a s' => (exists v, written (global_writeOffset (win s)) stream v s') /\ Q a s'
  | Throw _ s' => exists v, written (global_writeOffset (win s)) stream v s'
  end.
Proof.
  intros Hsize Hs Hk.
  destruct (tight_alloc stream size s Hsize Hs) as (v & s1 & Hrun & _ & Hw).
  rewrite (bind_Ret _ _ _ _ _ Hrun).
  specialize (Hk v s1 Hw). destruct (k v s1); [|eauto].
  destruct Hk. eauto.
Qed.

Lemma keeps_hoare {S A} (P : S -> Prop) (m : M S A) :
  keeps P m -> hoare P m (fun _ s => P s /\ True) (fun _ => P).
Proof. intros H s Hs. specialize (H s Hs). by destruct (m s). Qed.

Ltac written_step :=
  lazymatch goal with
  | |- keeps _ (bind _ _) => apply keeps_bind; [|intros ?]
  | |- keeps _ (ret _) => apply keeps_ret
  | |- keeps _ (onHeap (writeUint8 _ _ _)) =>
      apply written_onHeap; intros ?; apply within_writeUint8
  | |- keeps _ (onHeap (writeUint16BE _ _ _)) =>
      apply written_onHeap; intros ?; apply within_writeUint16BE
  | |- keeps _ (onHeap (write _ _ _ _)) =>
      apply written_onHeap; intros ?; apply within_write
  | |- keeps _ (onHeap (copy_into _ _ _ _ _)) =>
      apply written_onHeap; intros ?; apply within_copy_into
  end.

Lemma tight_emit stream bytes s :
  1 <= Z.of_nat (length bytes) <= PAGE_SIZE ->
  tight s stream ->
  tight (state_of (emit bytes s)) (stream ++ appended s (state_of (emit bytes s))).
Proof.
  intros Hsize Hs. unfold emit.
  pose proof (produce stream _ (fun buf =>
      onHeap (write buf bytes 0 (Z.of_nat (length bytes))) ;;; ret buf) s
      (fun _ _ => True) Hsize Hs) as H.
  match type of H with ?P -> _ => assert (HP : P) end.
  { intros v. apply keeps_hoare. repeat written_step. }
  specialize (H HP).
  destruct (bind _ _ s) as [a s'|e s']; simpl.
  - destruct H as [[v Hw] _]. by eapply written_appended.
  - destruct H as [v Hw]. by eapply written_appended.
Qed.

Lemma tight_streamModifyToken stream n s :
  3 + Z.of_nat (String.length n) <= PAGE_SIZE ->
  tight s stream ->
  tight (state_of (_streamModifyToken n s))
        (stream ++ appended s (state_of (_streamModifyToken n s))).
Proof.
  intros Hsize Hs. unfold _streamModifyToken.
  pose proof (produce stream (1 + 1 + Z.of_nat (String.length n) + 1)
      (fun buf =>
        onHeap (writeUint8 buf CMD_MODIFY_TOKENMAP 0) ;;;
        onHeap (writeUint8 buf (Z.of_nat (String.length n)) 1) ;;;
        onHeap (write buf (String.list_byte_of_string n) 2
                      (Z.of_nat (String.length n))) ;;;
        onHeap (writeUint8 buf 0 (2 + Z.of_nat (String.length n)))) s
      (fun _ _ => True) ltac:(lia) Hs) as H.
  match type of H with ?P -> _ => assert (HP : P) end.
  { intros v. apply keeps_hoare. repeat written_step. }
  specialize (H HP).
  destruct (bind _ _ s) as [a s'|e s']; simpl.
  - destruct H as [[v Hw] _]. by eapply written_appended.
  - destruct H as [v Hw]. by eapply written_appended.
Qed.

Lemma registerAttrKey_state n s :
  state_of (_registerAttrKey n s) =
    if JsMap.has (tokenList (win s)) n then s
    else state_of (_streamModifyToken n
           (mkWS (set_tokenList
                    (JsMap.set (tokenList (win s)) n (JsMap.size (tokenList (win s))))
                    (win s))
                 (heap s))).
Proof.
  unfold _registerAttrKey, bind, getW, modW, ret. simpl.
  destruct (JsMap.has (tokenList (win s)) n); simpl; [by destruct s|].
  by destruct (_streamModifyToken n _).
Qed.

Lemma registerStyleKey_attrKey n : _registerStyleKey n = _registerAttrKey n.
Proof. reflexivity. Qed.

Lemma tight_registerAttrKey stream n s :
  3 + Z.of_nat (String.length n) <= PAGE_SIZE ->
  tight s stream ->
  tight (state_of (_registerAttrKey n s))
        (stream ++ appended s (state_of (_registerAttrKey n s))).
Proof.
  intros Hsize Hs. rewrite registerAttrKey_state.
  destruct (JsMap.has (tokenList (win s)) n).
  - by apply tight_unchanged.
  - set (s1 := mkWS _ (heap s)).
    assert (Hs1 : tight s1 stream).
    { apply (tight_modW stream
               (fun w => set_tokenList (JsMap.set (tokenList w) n
                                          (JsMap.size (tokenList w))) w) ltac:(done) s Hs). }
    apply (tight_streamModifyToken stream n s1 Hsize Hs1).
Qed.

Lemma tight_flushBlockDeleteQueue stream s :
  2003 <= PAGE_SIZE ->
  tight s stream ->
  tight (state_of (flushBlockDeleteQueue s))
        (stream ++ appended s (state_of (flushBlockDeleteQueue s))) /\
  (forall s', flushBlockDeleteQueue s = Ret tt s' -> deleteBlockCount (win s') = 0).
Proof.
  intros Hsize Hs. unfold flushBlockDeleteQueue.
  rewrite (bind_Ret getW _ s (win s) s) by done.
  pose proof (ti_count _ _ Hs) as Hcnt.
  destruct (deleteBlockCount (win s) >? 0) eqn:Hpos.
  2:{ split; [by apply tight_unchanged|]. intros s' [= Heq]. rewrite <- Heq.
      apply Z.gtb_ltb in Hpos || rewrite Z.gtb_ltb in Hpos. apply Z.ltb_ge in Hpos. lia. }
  apply Z.gtb_lt in Hpos.
  pose proof (produce stream (1 + 2 * deleteBlockCount (win s) + 2)
      (fun buf =>
        onHeap (writeUint8 buf CMD_REMOVE_BLOCKS 0) ;;;
        onHeap (copy_into (deleteBlockCommandBuffer (win s)) buf 1 0
                          (deleteBlockCount (win s) * 2)) ;;;
        onHeap (writeUint16BE buf 0 (1 + 2 * deleteBlockCount (win s))) ;;;
        modW (set_deleteBlockCount 0)) s
      (fun _ s' => deleteBlockCount (win s') = 0) ltac:(lia) Hs) as H.
  match type of H with ?P -> _ => assert (HP : P) end.
  { intros v.
    eapply hoare_bind; [apply keeps_hoare; written_step|intros []; simpl].
    eapply hoare_bind; [intros s0 [Hs0 _]; revert s0 Hs0;
                        apply keeps_hoare; written_step|intros []; simpl].
    eapply hoare_bind; [intros s0 [Hs0 _]; revert s0 Hs0;
                        apply keeps_hoare; written_step|intros []; simpl].
    intros s0 [Hs0 _]. simpl. split; [|done].
    apply (written_modW _ _ _ (set_deleteBlockCount 0)); [|done].
    intros w. simpl. split_and!; try done; lia. }
  specialize (H HP).
  destruct (bind _ _ s) as [[] s'|e s']; simpl.
  - destruct H as [[v Hw] Hc]. split; [by eapply written_appended|].
    by intros ? [= <-].
  - destruct H as [v Hw]. split; [by eapply written_appended|done].
Qed.

Lemma tight_handleBlockCleanup stream blockId s :
  2003 <= PAGE_SIZE ->
  tight s stream ->
  tight (state_of (_handleBlockCleanup blockId s))
        (stream ++ appended s (state_of (_handleBlockCleanup blockId s))).
Proof.
  intros Hsize Hs.
  set (P := fun s' => tight s' (stream ++ appended s s')).
  change (P (state_of (_handleBlockCleanup blockId s))).
  unfold _handleBlockCleanup.
  rewrite (bind_Ret getW _ s (win s) s) by done.
  unfold bind at 1.
  assert (Hfirst :
    let r := (if deleteBlockCount (win s) =? 1000
              then flushBlockDeleteQueue else ret tt) s in
    P (state_of r) /\
    (forall s', r = Ret tt s' -> deleteBlockCount (win s') <= 999)).
  { pose proof (ti_count _ _ Hs) as Hcnt.
    destruct (deleteBlockCount (win s) =? 1000) eqn:Hc; simpl.
    - destruct (tight_flushBlockDeleteQueue stream s Hsize Hs) as [H1 H2].
      split; [done|]. intros s' Hs'. rewrite (H2 s' Hs'). lia.
    - split; [by apply tight_unchanged|]. intros s' [= Heq]. rewrite <- Heq.
      apply Z.eqb_neq in Hc. lia. }
  cbn zeta in Hfirst. destruct Hfirst as [Ht Hc].
  destruct ((if deleteBlockCount (win s) =? 1000
             then flushBlockDeleteQueue else ret tt) s) as [[] s1|e s1];
    simpl in Ht; [|exact Ht].
  specialize (Hc s1 eq_refl).
  rewrite (bind_Ret getW _ s1 (win s1) s1) by done.
  pose proof (ti_count _ _ Ht) as Hcnt.
  destruct (_ && _); [|exact Ht].
  destruct (byte_of_Z _); [|exact Ht].
  destruct (byte_of_Z _); [|exact Ht].
  destruct (_ && _); [|exact Ht].
  unfold bind, modW. simpl. unfold P in *.
  assert (Happ : forall w', objs w' = objs (win s1) -> pages w' = pages (win s1) ->
            global_writeOffset w' = global_writeOffset (win s1) ->
            appended s (mkWS w' (heap s1)) = appended s s1).
  { intros w' Ho Hp Hw. unfold appended, tail_page. simpl. by rewrite Ho, Hp, Hw. }
  rewrite Happ by done.
  apply tight_frame; simpl; try done; try lia.
  apply ok_frame; try done. apply Ht.
Qed.

Lemma tight_exec stream o s :
  fits o -> tight s stream -> tight (exec o s) (stream ++ appended s (exec o s)).
Proof.
  intros Hfit Hs. destruct o; cbn [exec fits] in *.
  - destruct (tight_alloc stream (Z.of_nat size) s Hfit Hs) as (v & s1 & -> & _ & Hw).
    simpl. by eapply written_appended.
  - by apply tight_emit.
  - by apply tight_registerAttrKey.
  - rewrite registerStyleKey_attrKey. by apply tight_registerAttrKey.
  - by apply tight_handleBlockCleanup.
  - by apply tight_flushBlockDeleteQueue.
  - apply tight_keeps; [apply tight_flush|done].
  - apply tight_keeps; [apply tight_registerReadOffset|done].
  - apply tight_keeps; [|done]. unfold registerPong.
    apply keeps_bind; [by apply tight_modW|intros _].
    apply keeps_bind; [by apply tight_modW|intros _].
    apply tight_registerReadOffset.
  - apply tight_keeps; [|done]. unfold disconnect. by apply tight_modW.
  - apply tight_keeps; [|done]. unfold reconnect.
    apply keeps_bind; [by apply tight_modW|intros _].
    apply keeps_bind; [by apply tight_modW|intros _].
    apply keeps_bind; [by apply tight_modW|intros _].
    apply keeps_bind; [apply tight_registerReadOffset|intros _].
    apply tight_restream.
  - apply tight_keeps; [|done]. unfold sendPing. by apply tight_modW.
Qed.

Lemma tight_run ops : forall stream s,
  Forall fits ops -> tight s stream ->
  tight (run ops s) (stream ++ produced ops s).
Proof.
  induction ops as [|o ops IH]; intros stream s Hfit Hs; simpl.
  - by rewrite app_nil_r.
  - apply Forall_cons in Hfit as [Ho Hops].
    rewrite app_assoc. apply IH; [done|]. by apply tight_exec.
Qed.

Lemma construct_alloc windowId newPort now h :
  heap_ok h -> 22 < PAGE_SIZE ->
  exists v s1,
    _allocCommandBuffer (1 + 21) (mkWS (blank windowId newPort now) h) = Ret v s1 /\
    written 0 [] v s1.
Proof.
  intros Hh Hsize.
  destruct (alloc_first (1 + 21) (mkWS (blank windowId newPort now) h))
    as (b & h' & s1 & Hb & Hs1 & Hwf & Hrun); [reflexivity..|].
  destruct (bufferPool_alloc_ok _ _ _ Hh Hb)
    as (Hh' & Hblt & Hbnin & Hlen & Hsub & Hbfrom).
  assert (Hok1 : ok s1).
  { subst s1. split; simpl in *; try apply Hh'; try done.
    - intros [|[|r]] p; simpl; intros [= <-]; simpl; lia.
    - unfold tail_page. simpl. intros p [= <-]. simpl. lia.
    - intros [|[|r]] p; simpl; intros [= <-]; simpl; lia.
    - unfold buffers_of. simpl. apply NoDup_cons. split; [done|apply Hh']. }
  pose proof (ok_alloc (1 + 21) ltac:(lia) s1 Hok1) as Hok2.
  destruct (alloc_spec (1 + 21) s1 Hwf) as (r & q & Hlast & Hq & _ & Hcase).
  cbn zeta in Hcase. rewrite Hs1 in Hlast, Hq. simpl in Hlast, Hq.
  injection Hlast as <-. injection Hq as <-.
  replace (global_writeOffset (win s1)) with 0 in Hcase by (by rewrite Hs1).
  cbn [global_headOffset buffer] in Hcase.
  change (0 - 0) with 0 in Hcase. change (0 + (1 + 21)) with 22 in Hcase.
  destruct (22 >=? PAGE_SIZE) eqn:Hov.
  { rewrite Z.geb_leb in Hov. apply Z.leb_le in Hov. lia. }
  rewrite Hrun, Hcase. rewrite Hcase in Hok2. change (0 + 22) with 22.
  assert (Hclen : Z.of_nat (length (content (heap s1) b)) = PAGE_SIZE).
  { eapply (ok_content_length s1 0 (mkPage 0 b 0)); [lia|done|by rewrite Hs1]. }
  assert (Hv : subarray (whole (heap s1) b) 0 22 = mkView b 0 22).
  { apply (subarray_whole_exact _ _ 0 22); try lia.
    rewrite buffer_length_content. lia. }
  rewrite Hv. eexists _, _. split; [reflexivity|].
  assert (Hvb : length (slice (content (heap s1) b) 0 22) = Z.to_nat 22).
  { apply slice_length; lia. }
  split; simpl.
  - rewrite view_bytes_exact. split; simpl.
    + done.
    + rewrite Hvb. lia.
    + rewrite Hs1. simpl. lia.
    + exists [], 0%nat, (mkPage 0 b 0), 0. rewrite Hs1. simpl.
      do 3 (split; [done|]). split; [lia|]. split; [done|].
      do 2 (split; [lia|]).
      change (22 - 0) with 22. unfold slice. change (Z.to_nat 0) with 0%nat.
      rewrite !drop_0, take_take. f_equal.
  - exists (mkPage 0 b 0). unfold tail_page. rewrite Hs1. simpl. done.
  - done.
  - unfold view_ok. simpl. lia.
Qed.

Lemma tight_construct windowId newPort now h :
  heap_ok h -> 22 < PAGE_SIZE ->
  tight (state_of (construct windowId newPort now h))
        (appended (mkWS (blank windowId newPort now) h)
                  (state_of (construct windowId newPort now h))).
Proof.
  intros Hh Hsize.
  destruct (construct_alloc windowId newPort now h Hh Hsize) as (v & s1 & Hrun & Hw).
  assert (H : written 0 [] v (state_of (construct windowId newPort now h))).
  { unfold construct, _streamInitWindow.
    rewrite (bind_Ret _ _ _ _ _ Hrun).
    apply (keeps_state_of (written 0 [] v)); [|done].
    apply keeps_bind; [apply keeps_getW|intros w].
    repeat written_step. }
  apply (written_appended (mkWS (blank windowId newPort now) h) [] v) in H.
  exact H.
Qed.

(** ** Replay *)



(** ** The token table *)

Lemma JsMap_get_set {V} (m : list (string * V)) k v :
  JsMap.get (JsMap.set m k v) k = Some v.
Proof.
  induction m as [|[k' v'] m IH]; simpl.
  - by rewrite decide_True.
  - destruct (decide (k' = k)) as [->|Hne]; simpl.
    + by rewrite decide_True.
    + by rewrite decide_False.
Qed.

Lemma blit_lookup (c : list byte) off bs i :
  (off + length bs <= length c)%nat ->
  blit c off bs !! i =
    if decide (off <= i < off + length bs)%nat then bs !! (i - off)%nat
    else c !! i.
Proof.
  intros Hin. rewrite blit_inside by done.
  destruct (decide (off <= i < off + length bs)%nat) as [Hi|Hi].
  - rewrite lookup_app_r by (rewrite length_take; lia).
    rewrite length_take_le by lia. apply lookup_app_l. lia.
  - destruct (decide (i < off)%nat) as [Hlt|Hge].
    + rewrite lookup_app_l by (rewrite length_take; lia).
      by apply lookup_take_lt.
    + rewrite lookup_app_r by (rewrite length_take; lia).
      rewrite length_take_le by lia.
      rewrite lookup_app_r by lia. rewrite lookup_drop. f_equal. lia.
Qed.

Lemma slice_lookup (l : list byte) a n i :
  slice l a n !! i =
    if decide (i < Z.to_nat n)%nat then l !! (Z.to_nat a + i)%nat else None.
Proof.
  unfold slice. destruct (decide (i < Z.to_nat n)%nat).
  - rewrite lookup_take_lt by done. apply lookup_drop.
  - apply lookup_take_ge. lia.
Qed.

(** The bytes under a view after a write inside it. *)
Lemma view_bytes_poke h v off bs :
  view_ok h v -> 0 <= off -> off + Z.of_nat (length bs) <= v_length v ->
  view_bytes (poke h v off bs) v = blit (view_bytes h v) (Z.to_nat off) bs.
Proof.
  intros (H1 & H2 & H3) Hoff Hin.
  destruct v as [b ov lv]. simpl in *. rewrite !view_bytes_exact.
  unfold poke. simpl.
  destruct (bufs h !! b) as [c|] eqn:Hc.
  2:{ unfold content in H3. rewrite Hc in H3. simpl in H3.
      assert (length bs = 0%nat) as ->%nil_length_inv by lia.
      unfold content. rewrite Hc. simpl. unfold slice, blit.
      by rewrite drop_nil, take_nil. }
  rewrite (content_lookup _ _ _ Hc) in H3 |- *.
  rewrite content_insert by (by eapply lookup_lt_Some).
  rewrite decide_True by done.
  assert (Hsl : length (slice c ov lv) = Z.to_nat lv) by (apply slice_length; lia).
  apply list_eq. intros i.
  rewrite slice_lookup, !blit_lookup, slice_lookup by lia.
  destruct (decide (i < Z.to_nat lv)%nat) as [Hi|Hi].
  - destruct (decide (Z.to_nat off <= i < Z.to_nat off + length bs)%nat).
    + rewrite decide_True by lia. f_equal. lia.
    + rewrite decide_False by lia. done.
  - rewrite decide_False by lia. done.
Qed.

Lemma command_bytes (l : list byte) a b bs c :
  length l = (3 + length bs)%nat ->
  blit (blit (blit (blit l 0 [a]) 1 [b]) 2 bs) (2 + length bs) [c] =
    a :: b :: bs ++ [c].
Proof.
  intros Hl. apply list_eq. intros i.
  rewrite !blit_lookup by (rewrite ?length_blit; simpl; lia).
  simpl length.
  destruct (decide (2 + length bs <= i < 2 + length bs + 1)%nat) as [H1|H1].
  { assert (i = S (S (length bs))) as -> by lia.
    simpl. rewrite lookup_app_r by lia.
    by replace (S (S (length bs)) - S (S (length bs)))%nat with 0%nat by lia. }
  destruct (decide (2 <= i < 2 + length bs)%nat) as [H2|H2].
  { destruct i as [|[|i]]; [lia..|]. simpl.
    rewrite lookup_app_l by lia. f_equal. lia. }
  destruct (decide (1 <= i < 1 + 1)%nat) as [H3|H3].
  { assert (i = 1%nat) as -> by lia. done. }
  destruct (decide (0 <= i < 0 + 1)%nat) as [H4|H4].
  { assert (i = 0%nat) as -> by lia. done. }
  rewrite !lookup_ge_None_2; [done|simpl; rewrite length_app; simpl; lia|lia].
Qed.

Lemma length_list_byte_of_string (n : string) :
  length (String.list_byte_of_string n) = String.length n.
Proof.
  unfold String.list_byte_of_string.
  induction n as [|a n IH]; simpl; [done|]. by rewrite IH.
Qed.

Lemma view_ok_poke h v v' off bs : view_ok h v' -> view_ok (poke h v off bs) v'.
Proof.
  unfold view_ok, poke. intros H.
  destruct (bufs h !! v_buffer v) as [c|] eqn:Hc; [|done].
  rewrite content_insert by (by eapply lookup_lt_Some).
  destruct (decide _) as [Heq|]; [|done].
  rewrite length_blit. by rewrite Heq, (content_lookup _ _ _ Hc) in H.
Qed.

Lemma writeUint8_inside v value offset h b :
  byte_of_Z value = Some b -> 0 <= offset -> offset + 1 <= v_length v ->
  writeUint8 v value offset h = Ret tt (poke h v offset [b]).
Proof.
  intros Hb H0 H1. unfold writeUint8. rewrite Hb.
  replace (0 <=? offset) with true by (symmetry; by apply Z.leb_le).
  replace (offset + 1 <=? v_length v) with true by (symmetry; by apply Z.leb_le).
  done.
Qed.

Lemma write_inside v bs offset h :
  0 <= offset -> offset + Z.of_nat (length bs) <= v_length v ->
  write v bs offset (Z.of_nat (length bs)) h = Ret tt (poke h v offset bs).
Proof.
  intros H0 H1. unfold write.
  replace (0 <=? offset) with true by (symmetry; by apply Z.leb_le).
  replace (offset <=? v_length v) with true by (symmetry; apply Z.leb_le; lia).
  replace (0 <=? Z.of_nat (length bs)) with true by (symmetry; apply Z.leb_le; lia).
  replace (Z.of_nat (length bs) <=? v_length v) with true
    by (symmetry; apply Z.leb_le; lia).
  simpl. rewrite Z.min_l by lia. by rewrite Nat2Z.id, char_boundary_all.
Qed.

Lemma onHeap_Ret {A} (m : M Heap A) s a h' :
  m (heap s) = Ret a h' -> onHeap m s = Ret a (mkWS (win s) h').
Proof. unfold onHeap. by intros ->. Qed.

(** No allocation touches the token table. *)
Ltac tokens_step :=
  cbv zeta;
  lazymatch goal with
  | |- keeps _ (bind _ _) => apply keeps_bind; [|intros ?]
  | |- keeps _ (ret _) => apply keeps_ret
  | |- keeps _ (throw _) => apply keeps_throw
  | |- keeps _ getW => apply keeps_getW
  | |- keeps _ (deref _) => apply keeps_deref
  | |- keeps _ (page_subarray _ _ _) => apply keeps_page_subarray
  | |- keeps _ (onHeap _) => apply keeps_onHeap
  | |- keeps _ (modW _) => apply keeps_modW; intros ? ?; done
  | |- keeps _ (send _) => apply keeps_send; intros ? ? ?; done
  | |- keeps _ (if _ then _ else _) => apply keeps_if
  | |- keeps _ (match ?x with _ => _ end) => destruct x
  end.

Lemma tokens_alloc tl size :
  keeps (onWin (fun w => tokenList w = tl)) (_allocCommandBuffer size).
Proof.
  unfold _allocCommandBuffer, _flushMutationGroup, _allocPage.
  repeat tokens_step.
Qed.

Lemma tokens_streamModifyToken tl n :
  keeps (onWin (fun w => tokenList w = tl)) (_streamModifyToken n).
Proof.
  unfold _streamModifyToken.
  apply keeps_bind; [apply tokens_alloc|intros v].
  repeat tokens_step.
Qed.

(** A second registration of a name finds it in the table. *)
Lemma registerAttrKey_known n i s :
  JsMap.get (tokenList (win s)) n = Some i ->
  _registerAttrKey n s = Ret (Some i) s.
Proof.
  intros Hi. unfold _registerAttrKey, JsMap.has.
  unfold bind at 1. unfold getW at 1. unfold get. rewrite Hi. simpl.
  unfold bind, ret, getW, get. by rewrite Hi.
Qed.

Lemma registerAttrKey_fresh_eq n s :
  JsMap.get (tokenList (win s)) n = None ->
  _registerAttrKey n s =
    match _streamModifyToken n
            (mkWS (set_tokenList
                     (JsMap.set (tokenList (win s)) n (JsMap.size (tokenList (win s))))
                     (win s))
                  (heap s)) with
    | Ret _ s1 => Ret (JsMap.get (tokenList (win s1)) n) s1
    | Throw e s1 => Throw e s1
    end.
Proof.
  intros Hi. unfold _registerAttrKey, JsMap.has, bind, getW, get, modW, ret.
  simpl. rewrite Hi. simpl. by destruct (_streamModifyToken n _).
Qed.

Lemma registerAttrKey_registers n s :
  exists i, JsMap.get (tokenList (win (state_of (_registerAttrKey n s)))) n = Some i /\
            forall r, returned (_registerAttrKey n s) = Some r -> r = Some i.
Proof.
  destruct (JsMap.get (tokenList (win s)) n) as [i|] eqn:Hi.
  { rewrite (registerAttrKey_known n i s Hi). exists i. simpl.
    split; [done|]. by intros r [= <-]. }
  rewrite (registerAttrKey_fresh_eq n s Hi).
  set (i := JsMap.size (tokenList (win s))).
  set (s0 := mkWS _ (heap s)).
  pose proof (tokens_streamModifyToken (JsMap.set (tokenList (win s)) n i) n s0 eq_refl)
    as Hk.
  unfold onWin in Hk.
  destruct (_streamModifyToken n s0) as [[] s1|e s1]; simpl;
    rewrite Hk, JsMap_get_set; exists i; split; try done.
  by intros r [= <-].
Qed.

(** [_streamModifyToken] on a window whose pages hold the stream, for a name
    of at most 255 bytes whose command fits a page: the command is appended
    to the stream. *)
Lemma streamModifyToken_spec stream n len s :
  byte_of_Z (Z.of_nat (String.length n)) = Some len ->
  3 + Z.of_nat (String.length n) <= PAGE_SIZE ->
  tight s stream ->
  exists s',
    _streamModifyToken n s = Ret tt s' /\
    appended s s' = token_command len n /\
    global_writeOffset (win s') =
      global_writeOffset (win s) + (3 + Z.of_nat (String.length n)) /\
    tokenList (win s') = tokenList (win s).
Proof.
  intros Hlen Hsize Hs. unfold _streamModifyToken.
  set (L := Z.of_nat (String.length n)) in *.
  destruct (tight_alloc stream (1 + 1 + L + 1) s ltac:(lia) Hs)
    as (v & s1 & Hrun & Hvl & Hw).
  pose proof (tokens_alloc (tokenList (win s)) (1 + 1 + L + 1) s eq_refl) as Htok.
  rewrite Hrun in Htok. unfold onWin in Htok.
  rewrite (bind_Ret _ _ _ _ _ Hrun).
  pose proof (wr_ok _ _ _ _ Hw) as Hvok.
  assert (Hbl : Z.of_nat (length (String.list_byte_of_string n)) = L)
    by (by rewrite length_list_byte_of_string).
  set (bs := String.list_byte_of_string n) in *.
  set (h1 := poke (heap s1) v 0 [x0c]).
  set (h2 := poke h1 v 1 [len]).
  set (h3 := poke h2 v 2 bs).
  set (h4 := poke h3 v (2 + L) [x00]).
  assert (E1 : onHeap (writeUint8 v CMD_MODIFY_TOKENMAP 0) s1 = Ret tt (mkWS (win s1) h1)).
  { apply onHeap_Ret, writeUint8_inside; [done|lia|lia]. }
  assert (E2 : onHeap (writeUint8 v L 1) (mkWS (win s1) h1) = Ret tt (mkWS (win s1) h2)).
  { apply (onHeap_Ret _ (mkWS (win s1) h1)), writeUint8_inside; [done|lia|lia]. }
  assert (E3 : onHeap (write v bs 2 L) (mkWS (win s1) h2) = Ret tt (mkWS (win s1) h3)).
  { apply (onHeap_Ret _ (mkWS (win s1) h2)). rewrite <- Hbl.
    apply write_inside; lia. }
  assert (E4 : onHeap (writeUint8 v 0 (2 + L)) (mkWS (win s1) h3)
               = Ret tt (mkWS (win s1) h4)).
  { apply (onHeap_Ret _ (mkWS (win s1) h3)), writeUint8_inside; [done|lia|lia]. }
  rewrite (bind_Ret _ _ _ _ _ E1), (bind_Ret _ _ _ _ _ E2), (bind_Ret _ _ _ _ _ E3), E4.
  exists (mkWS (win s1) h4). split; [done|].
  destruct Hw as [Ht (p & Htail & Hv) Hk _].
  assert (Hwo : global_writeOffset (win s1) = global_writeOffset (win s) + (3 + L)).
  { rewrite Hv in Hvl. simpl in Hvl. lia. }
  split_and!; [|done|done].
  unfold appended. cbn [win heap]. rewrite Htail.
  rewrite <- view_bytes_exact, <- Hv.
  assert (Hok1 : view_ok h1 v) by (by apply view_ok_poke).
  assert (Hok2 : view_ok h2 v) by (by apply view_ok_poke).
  assert (Hok3 : view_ok h3 v) by (by apply view_ok_poke).
  unfold h4. rewrite view_bytes_poke by (simpl; lia || done).
  unfold h3. rewrite view_bytes_poke by (simpl; lia || done).
  unfold h2. rewrite view_bytes_poke by (simpl; lia || done).
  unfold h1. rewrite view_bytes_poke by (simpl; lia || done).
  replace (Z.to_nat (2 + L)) with (2 + length bs)%nat by lia.
  change (Z.to_nat 0) with 0%nat. change (Z.to_nat 1) with 1%nat.
  change (Z.to_nat 2) with 2%nat.
  apply command_bytes.
  destruct Hvok as (V1 & V2 & V3).
  rewrite Hv, view_bytes_exact. rewrite Hv in V1, V2, V3. simpl in V1, V2, V3.
  rewrite slice_length by lia. lia.
Qed.

(** The first registration of a name: the name receives the next id and the
    command is appended to the stream. *)
Lemma registerAttrKey_fresh stream n len s :
  JsMap.has (tokenList (win s)) n = false ->
  byte_of_Z (Z.of_nat (String.length n)) = Some len ->
  3 + Z.of_nat (String.length n) <= PAGE_SIZE ->
  tight s stream ->
  exists s',
    _registerAttrKey n s = Ret (Some (JsMap.size (tokenList (win s)))) s' /\
    appended s s' = token_command len n /\
    global_writeOffset (win s') =
      global_writeOffset (win s) + (3 + Z.of_nat (String.length n)).
Proof.
  intros Hhas Hlen Hsize Hs.
  assert (Hi : JsMap.get (tokenList (win s)) n = None).
  { unfold JsMap.has in Hhas. by destruct (JsMap.get _ _). }
  rewrite (registerAttrKey_fresh_eq n s Hi).
  set (s0 := mkWS _ (heap s)).
  assert (Hs0 : tight s0 stream).
  { apply (tight_modW stream
             (fun w => set_tokenList (JsMap.set (tokenList w) n
                                        (JsMap.size (tokenList w))) w) ltac:(done) s Hs). }
  destruct (streamModifyToken_spec stream n len s0 Hlen Hsize Hs0)
    as (s' & -> & Happ & Hwo & Htok).
  exists s'. rewrite Htok. unfold s0 at 1. cbn [win tokenList set_tokenList].
  rewrite JsMap_get_set. split_and!; done.
Qed.

(** C8. Token registration is stable.  For every window state and every
    name: after a registration of the name (as attribute key or as style
    key, which share one table) the name has an id in [tokenList]; a
    registration that returned, returned that id; and registering the name
    again, either way, returns the same id and leaves the window and the
    buffers as they were, so nothing is emitted.  A name that is present in
    [tokenList] is answered with its id without any emission.  On a window
    after any history of fitting commands, the first registration of a name
    of at most 255 bytes whose command fits a page returns the next free id
    and appends exactly one MODIFY_TOKENMAP command (opcode 12, the length,
    the name, a zero byte) to the stream. *)
Theorem token_registration_is_stable (n : string) :
  (forall s, exists i,
     JsMap.get (tokenList (win (state_of (_registerAttrKey n s)))) n = Some i /\
     (forall r, returned (_registerAttrKey n s) = Some r -> r = Some i) /\
     _registerAttrKey n (state_of (_registerAttrKey n s)) =
       Ret (Some i) (state_of (_registerAttrKey n s)) /\
     _registerStyleKey n (state_of (_registerAttrKey n s)) =
       Ret (Some i) (state_of (_registerAttrKey n s))) /\
  (forall s, exists i,
     JsMap.get (tokenList (win (state_of (_registerStyleKey n s)))) n = Some i /\
     (forall r, returned (_registerStyleKey n s) = Some r -> r = Some i) /\
     _registerStyleKey n (state_of (_registerStyleKey n s)) =
       Ret (Some i) (state_of (_registerStyleKey n s)) /\
     _registerAttrKey n (state_of (_registerStyleKey n s)) =
       Ret (Some i) (state_of (_registerStyleKey n s))) /\
  (forall s i, JsMap.get (tokenList (win s)) n = Some i ->
     _registerAttrKey n s = Ret (Some i) s /\
     _registerStyleKey n s = Ret (Some i) s) /\
  (forall windowId newPort now h ops len,
     heap_ok h -> 22 < PAGE_SIZE -> Forall fits ops ->
     JsMap.has (tokenList (win (window_after windowId newPort now h ops))) n = false ->
     byte_of_Z (Z.of_nat (String.length n)) = Some len ->
     3 + Z.of_nat (String.length n) <= PAGE_SIZE ->
     exists s',
       _registerAttrKey n (window_after windowId newPort now h ops) =
         Ret (Some (JsMap.size
                      (tokenList (win (window_after windowId newPort now h ops))))) s' /\
       _registerStyleKey n (window_after windowId newPort now h ops) =
         Ret (Some (JsMap.size
                      (tokenList (win (window_after windowId newPort now h ops))))) s' /\
       appended (window_after windowId newPort now h ops) s' = token_command len n /\
       global_writeOffset (win s') =
         global_writeOffset (win (window_after windowId newPort now h ops))
         + (3 + Z.of_nat (String.length n))).
Proof.
  assert (Htwice : forall s, exists i,
     JsMap.get (tokenList (win (state_of (_registerAttrKey n s)))) n = Some i /\
     (forall r, returned (_registerAttrKey n s) = Some r -> r = Some i) /\
     _registerAttrKey n (state_of (_registerAttrKey n s)) =
       Ret (Some i) (state_of (_registerAttrKey n s)) /\
     _registerStyleKey n (state_of (_registerAttrKey n s)) =
       Ret (Some i) (state_of (_registerAttrKey n s))).
  { intros s. destruct (registerAttrKey_registers n s) as (i & Hi & Hr).
    exists i. split_and!; [done|done|..]; by apply registerAttrKey_known. }
  split; [exact Htwice|]. split; [exact Htwice|]. split.
  - intros s i Hi. split; by apply registerAttrKey_known.
  - intros windowId newPort now h ops len Hh Hsize Hfit Hhas Hlen Hn.
    assert (Ht : tight (window_after windowId newPort now h ops)
                       (stream_of windowId newPort now h ops)).
    { unfold window_after, stream_of. apply tight_run; [done|].
      by apply tight_construct. }
    destruct (registerAttrKey_fresh _ n len _ Hhas Hlen Hn Ht) as (s' & H1 & H2 & H3).
    exists s'. split_and!; done.
Qed.

(** ** The registry and the sweep *)

Lemma JsMap_get_elem {V} (m : list (string * V)) k x :
  JsMap.get m k = Some x -> (k, x) ∈ m.
Proof.
  induction m as [|[k' v'] m IH]; simpl; [done|].
  destruct (decide (k' = k)) as [->|Hne].
  - intros [= ->]. by left.
  - intros H. right. by apply IH.
Qed.

Lemma JsMap_get_notin {V} (m : list (string * V)) k :
  k ∉ m.*1 -> JsMap.get m k = None.
Proof.
  induction m as [|[k' v'] m IH]; simpl; [done|].
  intros Hn. apply not_elem_of_cons in Hn as [Hne Hn].
  rewrite decide_False by done. by apply IH.
Qed.

Lemma JsMap_get_delete {V} (m : list (string * V)) k :
  NoDup m.*1 -> JsMap.get (JsMap.delete m k) k = None.
Proof.
  induction m as [|[k' v'] m IH]; simpl; [done|].
  intros Hnd. apply NoDup_cons in Hnd as [Hn Hnd].
  destruct (decide (k' = k)) as [->|Hne].
  - by apply JsMap_get_notin.
  - simpl. rewrite decide_False by done. by apply IH.
Qed.

Lemma JsMap_get_delete_ne {V} (m : list (string * V)) k k' :
  k <> k' -> JsMap.get (JsMap.delete m k') k = JsMap.get m k.
Proof.
  intros Hne. induction m as [|[k1 v1] m IH]; simpl; [done|].
  destruct (decide (k1 = k')) as [->|Hne1].
  - by rewrite decide_False.
  - simpl. destruct (decide (k1 = k)); [done|]. apply IH.
Qed.

Lemma JsMap_delete_sublist {V} (m : list (string * V)) k :
  sublist (JsMap.delete m k) m.
Proof.
  induction m as [|[k1 v1] m IH]; simpl; [done|].
  destruct (decide (k1 = k)).
  - by apply sublist_cons.
  - by apply sublist_skip.
Qed.

Lemma JsMap_delete_NoDup {V} (m : list (string * V)) k :
  NoDup m.*1 -> NoDup (JsMap.delete m k).*1.
Proof.
  intros Hnd.
  assert (Hsub : sublist (JsMap.delete m k).*1 m.*1)
    by apply fmap_sublist, JsMap_delete_sublist.
  exact (sublist_NoDup _ _ Hnd Hsub).
Qed.

Lemma JsMap_get_delete_Some {V} (m : list (string * V)) k k' x :
  NoDup m.*1 ->
  JsMap.get (JsMap.delete m k') k = Some x -> JsMap.get m k = Some x.
Proof.
  intros Hnd. destruct (decide (k = k')) as [->|Hne].
  - by rewrite JsMap_get_delete.
  - by rewrite JsMap_get_delete_ne.
Qed.

Ltac session_step :=
  cbv zeta;
  lazymatch goal with
  | |- keeps _ (bind _ _) => apply keeps_bind; [|intros ?]
  | |- keeps _ (ret _) => apply keeps_ret
  | |- keeps _ (throw _) => apply keeps_throw
  | |- keeps _ getW => apply keeps_getW
  | |- keeps _ (deref _) => apply keeps_deref
  | |- keeps _ (page_subarray _ _ _) => apply keeps_page_subarray
  | |- keeps _ (onHeap _) => apply keeps_onHeap
  | |- keeps _ (modW _) => apply keeps_modW; intros ? ?; done
  | |- keeps _ (send _) => apply keeps_send; intros ? ? ?; done
  | |- keeps _ (if _ then _ else _) => apply keeps_if
  | |- keeps _ (match ?x with _ => _ end) => destruct x
  end.

Lemma session_alloc w0 size :
  keeps (onWin (same_session w0)) (_allocCommandBuffer size).
Proof.
  unfold _allocCommandBuffer, _flushMutationGroup, _allocPage.
  repeat session_step.
Qed.

Lemma session_sendPing w0 : keeps (onWin (same_session w0)) sendPing.
Proof. unfold sendPing. session_step. Qed.

Lemma session_flushBlockDeleteQueue w0 :
  keeps (onWin (same_session w0)) flushBlockDeleteQueue.
Proof.
  unfold flushBlockDeleteQueue.
  apply keeps_bind; [apply keeps_getW|intros w].
  apply keeps_if; [|apply keeps_ret].
  apply keeps_bind; [apply session_alloc|intros v].
  repeat session_step.
Qed.

Lemma session_returnPages w0 ps :
  keeps (onWin (same_session w0)) (returnPages ps).
Proof. induction ps as [|r ps IH]; simpl; repeat session_step. exact IH. Qed.

(** [destroy]'s last step on a window whose page list refers to page
    objects: every page's buffer goes to the pool. *)
Lemma returnPages_spec ps : forall s,
  Forall (fun r => is_Some (objs (win s) !! r)) ps ->
  returnPages ps s =
    Ret tt (mkWS (win s)
                 (mkHeap (bufs (heap s))
                         (reverse (buffers_of (win s) ps) ++ pool (heap s)))).
Proof.
  induction ps as [|r ps IH]; intros s Hall.
  - simpl. unfold ret. by destruct s as [w [??]].
  - apply Forall_cons in Hall as [[p Hp] Hall].
    cbn [returnPages]. unfold bind at 1. unfold deref. rewrite Hp.
    unfold bind at 1. unfold onHeap, bufferPool_returnBuffer, modify.
    rewrite IH by done. cbn [win heap bufs pool].
    unfold buffers_of. simpl. rewrite Hp. simpl.
    by rewrite reverse_cons, <- app_assoc.
Qed.

Lemma onWindow_eq {A} r (m : M WS A) σ w :
  wins σ !! r = Some w ->
  onWindow r m σ = match m (mkWS w (store σ)) with
                   | Ret a s => Ret a (upd r s σ)
                   | Throw e s => Throw e (upd r s σ)
                   end.
Proof. intros H. unfold onWindow. by rewrite H. Qed.

Lemma upd_same r w σ : wins σ !! r = Some w -> upd r (mkWS w (store σ)) σ = σ.
Proof.
  destruct σ. unfold upd, set_store, set_wins. simpl. intros H.
  by rewrite list_insert_id.
Qed.

Lemma upd_lookup r s σ w :
  wins σ !! r = Some w -> wins (upd r s σ) !! r = Some (win s).
Proof.
  intros H. unfold upd. simpl. apply list_lookup_insert_eq.
  by eapply lookup_lt_Some.
Qed.

Lemma onWindow_getW r σ w : wins σ !! r = Some w -> onWindow r getW σ = Ret w σ.
Proof.
  intros H. rewrite (onWindow_eq _ _ _ _ H). unfold getW, get. simpl.
  by rewrite upd_same.
Qed.

#[local] Instance visits_preorder r : PreOrder (visits r).
Proof.
  split.
  - intros σ. by split.
  - intros σ1 σ2 σ3 [A1 A2 A3 A4] [B1 B2 B3 B4]. split.
    + intros r' Hr. by rewrite B1, A1.
    + by rewrite B2.
    + intros k Hk. rewrite B3, A3; [done..|]. by rewrite A2.
    + intros Hnd. destruct (A4 Hnd) as [Hnd2 Hs2].
      destruct (B4 Hnd2) as [Hnd3 Hs3]. split; [done|]. eauto.
Qed.

Lemma visits_upd r s σ w :
  wins σ !! r = Some w -> destroyFnCallback (win s) = destroyFnCallback w ->
  visits r σ (upd r s σ).
Proof.
  intros Hw Hcb. split; simpl.
  - intros r' Hr. by apply list_lookup_insert_ne.
  - unfold callback_of. rewrite (upd_lookup _ _ _ _ Hw), Hw. simpl. by rewrite Hcb.
  - done.
  - done.
Qed.

Lemma visits_delete r k σ :
  callback_of σ r = Some (Some k) ->
  visits r σ (set_windowMap (JsMap.delete (windowMap σ) k) σ).
Proof.
  intros Hcb. split; simpl; try done.
  - intros k' Hk'. apply JsMap_get_delete_ne. intros ->. by rewrite Hcb in Hk'.
  - intros Hnd. split; [by apply JsMap_delete_NoDup|].
    intros k' x. by apply JsMap_get_delete_Some.
Qed.

Lemma visits_onWindow {A} r (m : M WS A) :
  (forall s, destroyFnCallback (win (state_of (m s))) = destroyFnCallback (win s)) ->
  moves (visits r) (onWindow r m).
Proof.
  intros Hm σ. unfold onWindow.
  destruct (wins σ !! r) as [w|] eqn:Hw; [|reflexivity].
  specialize (Hm (mkWS w (store σ))).
  destruct (m (mkWS w (store σ))) as [a s|e s]; simpl in *;
    by apply (visits_upd r s σ w).
Qed.

Lemma session_callback {A} (m : M WS A) :
  (forall w0, keeps (onWin (same_session w0)) m) ->
  forall s, destroyFnCallback (win (state_of (m s))) = destroyFnCallback (win s).
Proof.
  intros Hm s.
  pose proof (keeps_state_of _ _ s (Hm (win s))) as H.
  apply H. by split.
Qed.

Section Sweep.

(** The reactive root's disposer leaves the window's destroy callback in
    place. *)
Hypothesis rootDisposer_callback : forall r s,
  destroyFnCallback (win (state_of (rootDisposer r s))) = destroyFnCallback (win s).

Lemma visits_destroyCallback r k :
  forall σ, callback_of σ r = Some (Some k) ->
            visits r σ (state_of (destroyCallback k σ)).
Proof.
  intros σ Hcb. unfold destroyCallback, bind, modify, get. simpl.
  pose proof (visits_delete r k σ Hcb) as Hv.
  destruct (windowDestroyCallback σ); simpl; [|done].
  etrans; [exact Hv|]. by split.
Qed.

Lemma visits_destroy r : moves (visits r) (destroy r).
Proof.
  intros σ. unfold destroy.
  destruct (wins σ !! r) as [w|] eqn:Hw.
  2:{ unfold bind at 1. unfold onWindow at 1. rewrite Hw. reflexivity. }
  unfold bind at 1. rewrite (onWindow_eq _ _ _ _ Hw).
  pose proof (rootDisposer_callback r (mkWS w (store σ))) as Hcb.
  destruct (rootDisposer r (mkWS w (store σ))) as [[] s2|e s2]; simpl in Hcb.
  2:{ simpl. by apply (visits_upd r s2 σ w). }
  pose proof (visits_upd r s2 σ w Hw Hcb) as Hv2.
  pose proof (upd_lookup r s2 σ w Hw) as Hw2.
  set (σ2 := upd r s2 σ) in *.
  unfold bind at 1. unfold bind at 1. rewrite (onWindow_getW _ _ _ Hw2).
  destruct (destroyFnCallback (win s2)) as [k|] eqn:Hk; [|exact Hv2].
  assert (Hcb2 : callback_of σ2 r = Some (Some k)).
  { unfold callback_of. rewrite Hw2. simpl. by rewrite Hk. }
  pose proof (visits_destroyCallback r k σ2 Hcb2) as Hv3.
  destruct (destroyCallback k σ2) as [[] σ3|e σ3]; simpl in Hv3.
  2:{ simpl. by etrans. }
  etrans; [exact Hv2|]. etrans; [exact Hv3|].
  apply (visits_onWindow r (w <- getW ;; returnPages (pages w))).
  apply session_callback. intros w0.
  apply keeps_bind; [apply keeps_getW|intros ?]. apply session_returnPages.
Qed.

Lemma visits_lifecycleStep now isLowMemory r :
  moves (visits r) (lifecycleStep now isLowMemory r).
Proof.
  unfold lifecycleStep.
  apply moves_bind; [apply _|apply visits_onWindow; by intros s|intros w].
  apply moves_bind; [apply _| |intros _].
  { apply moves_if; [apply visits_onWindow; by intros s|by intros σ]. }
  apply moves_bind; [apply _|apply visits_onWindow; by intros s|intros w'].
  apply moves_if; [apply visits_destroy|].
  apply moves_bind; [apply _| |intros _].
  - apply visits_onWindow, session_callback, session_sendPing.
  - apply visits_onWindow, session_callback, session_flushBlockDeleteQueue.
Qed.

Lemma registry_visits r σ σ' :
  registry_ok σ -> visits r σ σ' -> registry_ok σ'.
Proof.
  intros [Hnd Hcb] [V1 V2 V3 V4]. destruct (V4 Hnd) as [Hnd' Hsh].
  split; [done|]. intros k r1 Hk. apply Hsh, Hcb in Hk.
  destruct (decide (r1 = r)) as [->|Hne].
  - by rewrite V2.
  - unfold callback_of in *. by rewrite V1.
Qed.

Lemma sweepLoop_cons now isLowMemory k r rest σ :
  sweepLoop now isLowMemory ((k, r) :: rest) σ =
    ((if bool_decide (JsMap.get (windowMap σ) k = Some r)
      then lifecycleStep now isLowMemory r else ret tt) ;;;
     sweepLoop now isLowMemory rest) σ.
Proof. reflexivity. Qed.

(** The part of the sweep that does not reach the key [k]: the window
    registered under [k] and its registration are not touched. *)
Lemma sweep_others now isLowMemory k r entries : forall σ,
  registry_ok σ -> k ∉ entries.*1 ->
  callback_of σ r = Some (Some k) ->
  let σ' := state_of (sweepLoop now isLowMemory entries σ) in
  registry_ok σ' /\ wins σ' !! r = wins σ !! r /\
  JsMap.get (windowMap σ') k = JsMap.get (windowMap σ) k.
Proof.
  induction entries as [|[k' r'] entries IH]; intros σ Hreg Hk Hcb; [done|].
  cbn [fmap list_fmap fst] in Hk. apply not_elem_of_cons in Hk as [Hne Hk].
  cbn zeta. rewrite sweepLoop_cons.
  assert (Hstep : forall σn,
            σn = state_of ((if bool_decide (JsMap.get (windowMap σ) k' = Some r')
                            then lifecycleStep now isLowMemory r' else ret tt) σ) ->
            registry_ok σn /\ wins σn !! r = wins σ !! r /\
            JsMap.get (windowMap σn) k = JsMap.get (windowMap σ) k).
  { intros σn ->. case_bool_decide as Hreg'; [|done].
    pose proof (visits_lifecycleStep now isLowMemory r' σ) as Hv.
    pose proof (ro_callbacks _ Hreg _ _ Hreg') as Hcb'.
    split; [by eapply registry_visits|]. split.
    - apply (vi_others _ _ _ Hv). intros ->. rewrite Hcb in Hcb'. by simplify_eq.
    - apply (vi_keeps _ _ _ Hv). rewrite Hcb'. intros [= ->]. done. }
  specialize (Hstep _ eq_refl). rewrite state_of_bind.
  destruct ((if bool_decide (JsMap.get (windowMap σ) k' = Some r')
             then lifecycleStep now isLowMemory r' else ret tt) σ) as [[] σn|e σn];
    simpl in Hstep; [|exact Hstep].
  destruct Hstep as (Hreg' & Hw & Hg).
  destruct (IH σn Hreg' Hk) as (H1 & H2 & H3).
  { unfold callback_of in *. by rewrite Hw. }
  cbn zeta in H1, H2, H3. split; [done|]. split; congruence.
Qed.

Lemma sweepLoop_app now isLowMemory pre post σ :
  sweepLoop now isLowMemory (pre ++ post) σ =
    (sweepLoop now isLowMemory pre ;;; sweepLoop now isLowMemory post) σ.
Proof.
  revert σ. induction pre as [|[k r] pre IH]; intros σ; [done|].
  cbn [app]. rewrite sweepLoop_cons.
  transitivity (match sweepLoop now isLowMemory ((k, r) :: pre) σ with
                | Ret _ s => sweepLoop now isLowMemory post s
                | Throw e s => Throw e s
                end); [|reflexivity].
  rewrite sweepLoop_cons. unfold bind at 1 2.
  destruct ((if bool_decide (JsMap.get (windowMap σ) k = Some r)
             then lifecycleStep now isLowMemory r else ret tt) σ) as [[] σn|e σn];
    [|done].
  rewrite IH. done.
Qed.

(** One round of the sweep's loop on a registered window, read off the
    code: the window is marked as disconnected when its last pong is 6
    seconds old, and then it is either destroyed or pinged. *)
Lemma lifecycleStep_eq now isLowMemory r σ w :
  wins σ !! r = Some w ->
  lifecycleStep now isLowMemory r σ =
    let pongDiff := now - lastPongTime w in
    let w1 := if pongDiff >=? 6000 then set_connected false w else w in
    let σ1 := upd r (mkWS w1 (store σ)) σ in
    if negb (connected w1) && (isLowMemory || (pongDiff >=? 60000))
    then destroy r σ1
    else (onWindow r sendPing ;;; onWindow r flushBlockDeleteQueue) σ1.
Proof.
  intros Hw. unfold lifecycleStep.
  rewrite (bind_Ret _ _ _ _ _ (onWindow_getW _ _ _ Hw)). cbn zeta.
  destruct (now - lastPongTime w >=? 6000).
  - assert (E : onWindow r (modW (set_connected false)) σ =
                Ret tt (upd r (mkWS (set_connected false w) (store σ)) σ)).
    { by rewrite (onWindow_eq _ _ _ _ Hw). }
    rewrite (bind_Ret _ _ _ _ _ E).
    rewrite (bind_Ret _ _ _ _ _
               (onWindow_getW _ _ _ (upd_lookup _ _ _ _ Hw))).
    cbn [win]. by destruct (_ && _).
  - rewrite upd_same by done.
    assert (E : @ret World unit tt σ = Ret tt σ) by done.
    rewrite (bind_Ret _ _ _ _ _ E).
    rewrite (bind_Ret _ _ _ _ _ (onWindow_getW _ _ _ Hw)).
    by destruct (_ && _).
Qed.

(** [destroy] on a window whose disposer returns: the callback takes the
    window out of the registry and the buffers of all its pages go to the
    pool. *)
Lemma destroy_spec r σ w s2 k :
  wins σ !! r = Some w ->
  rootDisposer r (mkWS w (store σ)) = Ret tt s2 ->
  destroyFnCallback (win s2) = Some k ->
  Forall (fun p => is_Some (objs (win s2) !! p)) (pages (win s2)) ->
  exists σ',
    destroy r σ = Ret tt σ' /\
    windowMap σ' = JsMap.delete (windowMap σ) k /\
    wins σ' = <[r := win s2]> (wins σ) /\
    store σ' = mkHeap (bufs (heap s2))
                 (reverse (buffers_of (win s2) (pages (win s2))) ++ pool (heap s2)).
Proof.
  intros Hw Hd Hk Hrefs. unfold destroy.
  assert (E1 : onWindow r (rootDisposer r) σ = Ret tt (upd r s2 σ)).
  { by rewrite (onWindow_eq _ _ _ _ Hw), Hd. }
  rewrite (bind_Ret _ _ _ _ _ E1).
  pose proof (upd_lookup r s2 σ w Hw) as Hw2.
  rewrite (bind_Ret _ _ _ _ _ (onWindow_getW _ _ _ Hw2)). rewrite Hk.
  set (σ2 := upd r s2 σ) in *.
  assert (E3 : exists σ3, destroyCallback k σ2 = Ret tt σ3 /\
             windowMap σ3 = JsMap.delete (windowMap σ) k /\
             wins σ3 = wins σ2 /\ store σ3 = store σ2).
  { unfold destroyCallback, bind, modify, get. simpl.
    destruct (windowDestroyCallback σ); eexists; split; try reflexivity; done. }
  destruct E3 as (σ3 & E3 & Hm3 & Hwins3 & Hst3).
  rewrite (bind_Ret _ _ _ _ _ E3).
  assert (Hw3 : wins σ3 !! r = Some (win s2)) by (by rewrite Hwins3).
  rewrite (onWindow_eq _ _ _ _ Hw3).
  unfold bind at 1. unfold getW, get. cbn [win].
  rewrite (returnPages_spec (pages (win s2)) (mkWS (win s2) (store σ3))) by done.
  eexists. split; [reflexivity|]. cbn [win heap].
  unfold upd; simpl. rewrite Hm3, Hwins3, Hst3. simpl.
  split; [done|]. split; [|done].
  rewrite list_insert_insert_eq. done.
Qed.

(** The window after a ping and a flush of the block-delete queue. *)
Lemma pinged_session r σ σ' w :
  wins σ !! r = Some w ->
  (onWindow r sendPing ;;; onWindow r flushBlockDeleteQueue) σ = Ret tt σ' ->
  exists w', wins σ' !! r = Some w' /\ same_session w w'.
Proof.
  intros Hw. unfold bind at 1. rewrite (onWindow_eq _ _ _ _ Hw).
  pose proof (keeps_state_of _ _ (mkWS w (store σ)) (session_sendPing w)) as H1.
  destruct (sendPing (mkWS w (store σ))) as [[] s1|e s1]; [|done].
  specialize (H1 ltac:(by split)). simpl in H1.
  pose proof (upd_lookup r s1 σ w Hw) as Hw1.
  rewrite (onWindow_eq _ _ _ _ Hw1).
  pose proof (keeps_state_of _ _ (mkWS (win s1) (store (upd r s1 σ)))
                (session_flushBlockDeleteQueue w)) as H2.
  destruct (flushBlockDeleteQueue _) as [[] s2|e s2]; [|done].
  intros [= <-]. exists (win s2).
  split; [by eapply upd_lookup|]. by apply H2.
Qed.

End Sweep.

(** ** C10 *)

(** C10. For a windowId that is not in the registry, [disconnectWindow] is a
    silent no-op whereas [reconnectWindow] throws (a method call on
    undefined); neither changes the registry, nor anything else. *)
Theorem unknown_window_disconnect_vs_reconnect σ windowId readOffset now :
  JsMap.get (windowMap σ) windowId = None ->
  disconnectWindow windowId σ = Ret tt σ /\
  reconnectWindow windowId readOffset now σ = Throw TypeError σ /\
  windowMap (state_of (disconnectWindow windowId σ)) = windowMap σ /\
  windowMap (state_of (reconnectWindow windowId readOffset now σ)) = windowMap σ.
Proof.
  intros Hnone.
  assert (Hd : disconnectWindow windowId σ = Ret tt σ).
  { unfold disconnectWindow, bind, get, JsMap.has. by rewrite Hnone. }
  assert (Hr : reconnectWindow windowId readOffset now σ = Throw TypeError σ).
  { unfold reconnectWindow, bind, get. by rewrite Hnone. }
  rewrite Hd, Hr. done.
Qed.

(** ** C6 *)

Lemma enqueue_eq window message now σ w :
  wins σ !! window = Some w ->
  _enqueueMessage window message now σ =
    let '(under, l) := consumeSync (id w) now (messageLimiter σ) in
    Ret tt
      (if under
       then mkWorld (store σ) (<[window := w]> (wins σ)) (windowMap σ)
              (queue σ ++ [(window, message)])
              (if bool_decide (length (queue σ) = 0%nat)
               then S (wakeups σ) else wakeups σ)
              l (windowDestroyCallback σ) (destroyNotified σ)
       else mkWorld (store σ) (<[window := w]> (wins σ)) (windowMap σ)
              (queue σ) (wakeups σ) l
              (windowDestroyCallback σ) (destroyNotified σ)).
Proof.
  intros Hw. unfold _enqueueMessage, bind, get, onWindow, getW, modify, ret.
  rewrite Hw. simpl.
  destruct (consumeSync (id w) now (messageLimiter σ)) as [[] l]; simpl; [|done].
  by destruct (bool_decide (length (queue σ) = 0%nat)).
Qed.

Lemma deliver_live window w : forall arrivals σ b,
  wins σ !! window = Some w ->
  JsMap.get (buckets (messageLimiter σ)) (id w) = Some b ->
  0 <= tokens b ->
  Forall (fun a => a.1 < expires b) arrivals ->
  exists σ',
    deliver window arrivals σ = Ret tt σ' /\
    queue σ' = queue σ ++
      take (Z.to_nat (tokens b)) ((fun a => (window, a.2)) <$> arrivals).
Proof.
  induction arrivals as [|[t m] rest IH]; intros σ b Hw Hb Hpos Hall.
  - eexists. split; [done|]. simpl. by rewrite take_nil, app_nil_r.
  - apply Forall_cons in Hall as [Ht Hall]. simpl in Ht.
    cbn [deliver]. unfold bind at 1.
    rewrite (enqueue_eq _ _ _ _ w Hw).
    unfold consumeSync, live_bucket. rewrite Hb.
    apply Z.ltb_lt in Ht. rewrite Ht.
    destruct (tokens b >? 0) eqn:Htok.
    + edestruct (IH (mkWorld (store σ) (<[window := w]> (wins σ)) (windowMap σ)
                   (queue σ ++ [(window, m)])
                   (if bool_decide (length (queue σ) = 0%nat)
                    then S (wakeups σ) else wakeups σ)
                   (mkLimiter (threshold (messageLimiter σ)) (ttl (messageLimiter σ))
                      (JsMap.set (buckets (messageLimiter σ)) (id w)
                         (mkBucket (tokens b - 1) (expires b))))
                   (windowDestroyCallback σ) (destroyNotified σ))
                  (mkBucket (tokens b - 1) (expires b)))
        as (σ' & Hrun & Hq); simpl.
      * rewrite list_lookup_insert_eq; [done|]. by eapply lookup_lt_Some.
      * apply JsMap_get_set.
      * lia.
      * done.
      * exists σ'. split; [done|]. rewrite Hq. simpl.
        replace (Z.to_nat (tokens b)) with (S (Z.to_nat (tokens b - 1))) by lia.
        simpl. by rewrite <- app_assoc.
    + edestruct (IH (mkWorld (store σ) (<[window := w]> (wins σ)) (windowMap σ)
                   (queue σ) (wakeups σ)
                   (mkLimiter (threshold (messageLimiter σ)) (ttl (messageLimiter σ))
                      (JsMap.set (buckets (messageLimiter σ)) (id w) b))
                   (windowDestroyCallback σ) (destroyNotified σ)) b)
        as (σ' & Hrun & Hq); simpl.
      * rewrite list_lookup_insert_eq; [done|]. by eapply lookup_lt_Some.
      * apply JsMap_get_set.
      * lia.
      * done.
      * exists σ'. split; [done|]. rewrite Hq. simpl.
        replace (Z.to_nat (tokens b)) with 0%nat by lia. done.
Qed.

(** C6. [_enqueueMessage] never throws; a message that arrives while its
    session is over the limit leaves the shared queue as it was, a message
    under the limit is appended to it.  With the manager's limiter (8
    messages per 2 seconds), of the messages of one session that arrive
    within one interval, started by the first of them, exactly the first 8
    are appended: of 9, the 9th is dropped. *)
Theorem enqueue_drops_when_over_limit σ window w first_time first_message rest :
  wins σ !! window = Some w ->
  threshold (messageLimiter σ) = 8 ->
  ttl (messageLimiter σ) = 2 ->
  live_bucket (messageLimiter σ) (id w) first_time = None ->
  Forall (fun a => first_time <= a.1 < first_time + 2000) rest ->
  (forall message now,
     exists σ',
       _enqueueMessage window message now σ = Ret tt σ' /\
       queue σ' =
         if (consumeSync (id w) now (messageLimiter σ)).1
         then queue σ ++ [(window, message)]
         else queue σ) /\
  (exists σ',
     deliver window ((first_time, first_message) :: rest) σ = Ret tt σ' /\
     queue σ' = queue σ ++
       take 8 ((fun a => (window, a.2)) <$> (first_time, first_message) :: rest)).
Proof.
  intros Hw Hthr Httl Hfresh Hrest. split.
  - intros message now. rewrite (enqueue_eq _ _ _ _ w Hw).
    destruct (consumeSync (id w) now (messageLimiter σ)) as [[] l];
      eexists; (split; [reflexivity|done]).
  - cbn [deliver]. unfold bind at 1.
    rewrite (enqueue_eq _ _ _ _ w Hw).
    unfold consumeSync. rewrite Hfresh, Hthr, Httl. simpl.
    edestruct (deliver_live window w rest
                 (mkWorld (store σ) (<[window := w]> (wins σ)) (windowMap σ)
                    (queue σ ++ [(window, first_message)])
                    (if bool_decide (length (queue σ) = 0%nat)
                     then S (wakeups σ) else wakeups σ)
                    (mkLimiter 8 2
                       (JsMap.set (buckets (messageLimiter σ)) (id w)
                          (mkBucket 7 (first_time + 2 * 1000))))
                    (windowDestroyCallback σ) (destroyNotified σ))
                 (mkBucket 7 (first_time + 2 * 1000)))
      as (σ' & Hrun & Hq); simpl.
    + rewrite list_lookup_insert_eq; [done|]. by eapply lookup_lt_Some.
    + apply JsMap_get_set.
    + lia.
    + eapply Forall_impl; [exact Hrest|]. simpl. lia.
    + exists σ'. split; [done|]. rewrite Hq. simpl. by rewrite <- app_assoc.
Qed.

(** ** The order of the work queue *)

Section WorkQueueOrder.
Context {Node : Type} (depth : Node -> Z).

Lemma added_snoc (history : list Node) (item : Node) :
  added depth (history ++ [item]) =
    match added depth history with
    | Some q => add depth q item
    | None => None
    end.
Proof. unfold added. by rewrite foldl_app. Qed.

Lemma add_sorted (queue : list Node) (item : Node) :
  StronglySorted (fun x y => depth x <= depth y) queue ->
  exists before after,
    queue = before ++ after /\
    add depth queue item = Some (before ++ item :: after) /\
    Forall (fun y => depth y <= depth item) before /\
    Forall (fun y => depth item < depth y) after /\
    StronglySorted (fun x y => depth x <= depth y) (before ++ item :: after).
Proof.
  intros Hs.
  destruct (add_from_spec depth queue item (length queue))
    as (before & after & Hq & Hadd & Hafter & Hlast); [done| |].
  { rewrite drop_all. constructor. }
  exists before, after. split; [done|]. split; [done|].
  rewrite Hq in Hs. apply StronglySorted_app in Hs as (Hba & Hb & Ha).
  assert (Hbefore : Forall (fun y => depth y <= depth item) before).
  { destruct (decide (before = [])) as [->|Hne]; [constructor|].
    destruct (exists_last Hne) as (b' & y & ->).
    rewrite last_snoc in Hlast.
    apply StronglySorted_app in Hb as (Hby & _ & _).
    apply Forall_app. split; [|by repeat constructor].
    apply Forall_forall. intros x Hx.
    specialize (Hby x y Hx ltac:(by left)). simpl in Hby. lia. }
  split; [done|]. split; [done|].
  apply StronglySorted_app. split_and!; [|done|].
  - intros x y Hx Hy. apply elem_of_cons in Hy as [->|Hy].
    + eapply Forall_forall in Hbefore; [exact Hbefore|done].
    + by apply Hba.
  - apply StronglySorted_cons. split; [|done].
    eapply Forall_impl; [exact Hafter|]. simpl. lia.
Qed.

(** X1. [add] keeps a queue that is ordered by depth ordered: the new item
    goes between the items that are not deeper and those that are strictly
    deeper, and no other item moves. *)
Theorem WorkQueue_add_keeps_order (queue : list Node) (item : Node) :
  StronglySorted (fun x y => depth x <= depth y) queue ->
  exists before after,
    queue = before ++ after /\
    add depth queue item = Some (before ++ item :: after) /\
    Forall (fun y => depth y <= depth item) before /\
    Forall (fun y => depth item < depth y) after /\
    StronglySorted (fun x y => depth x <= depth y) (before ++ item :: after).
Proof. apply add_sorted. Qed.

Lemma added_stable (history : list Node) :
  exists q,
    added depth history = Some q /\
    StronglySorted (fun x y => depth x <= depth y) q /\
    q ≡ₚ history /\
    forall d, filter (fun x => depth x = d) q =
              filter (fun x => depth x = d) history.
Proof.
  induction history as [|item history IH] using rev_ind.
  - exists []. split; [done|]. split; [constructor|]. done.
  - destruct IH as (q & Hq & Hs & Hp & Hf).
    destruct (add_sorted q item Hs) as (before & after & Hsplit & Hadd & Hb & Ha & Hs').
    exists (before ++ item :: after). rewrite added_snoc, Hq.
    split; [done|]. split; [done|]. split.
    + rewrite <- Hp, Hsplit. rewrite <- Permutation_middle.
      by rewrite (Permutation_app_comm (before ++ after) [item]).
    + intros d. rewrite !filter_app, <- Hf, Hsplit, filter_app.
      rewrite filter_cons. destruct (decide (depth item = d)) as [Hd|Hd].
      * assert (filter (fun x => depth x = d) after = []) as ->.
        { clear -Ha Hd. induction after as [|y after IHa]; [done|].
          apply Forall_cons in Ha as [Hy Ha].
          rewrite filter_cons_False by lia. by apply IHa. }
        by rewrite app_nil_r, filter_cons_True, filter_nil.
      * by rewrite filter_cons_False, filter_nil, app_nil_r.
Qed.

(** X2. The queue that results from adding the items of [history], one by
    one, to an empty queue is their stable sort by depth: it is ordered by
    depth, holds the same items, and items of equal depth stand in the
    order in which they were added.  So [poll] returns an item of least
    depth, and of these the one added first. *)
Theorem WorkQueue_adds_stable_sort (history : list Node) :
  exists q,
    added depth history = Some q /\
    StronglySorted (fun x y => depth x <= depth y) q /\
    q ≡ₚ history /\
    (forall d, filter (fun x => depth x = d) q =
               filter (fun x => depth x = d) history) /\
    (forall x, (poll q).1 = Some x ->
       (forall y, y ∈ history -> depth x <= depth y) /\
       head (filter (fun y => depth y = depth x) history) = Some x).
Proof.
  destruct (added_stable history) as (q & Hq & Hs & Hp & Hf).
  exists q. split; [done|]. split; [done|]. split; [done|]. split; [done|].
  intros x Hx. destruct q as [|x' q]; [done|]. simpl in Hx. injection Hx as ->.
  apply StronglySorted_cons in Hs as [Hall _]. split.
  - intros y Hy. rewrite <- Hp in Hy. apply elem_of_cons in Hy as [->|Hy]; [lia|].
    eapply Forall_forall in Hall; [exact Hall|done].
  - rewrite <- Hf. by rewrite filter_cons_True.
Qed.

End WorkQueueOrder.

(** ** Pages and buffers over a window's life *)

Lemma tight_window_after windowId newPort now h ops :
  heap_ok h -> 22 < PAGE_SIZE -> Forall fits ops ->
  tight (window_after windowId newPort now h ops)
        (stream_of windowId newPort now h ops).
Proof.
  intros Hh Hsize Hfit. unfold window_after, stream_of.
  apply tight_run; [done|]. by apply tight_construct.
Qed.



Lemma buffers_of_length w rs :
  Forall (fun r => is_Some (objs w !! r)) rs ->
  length (buffers_of w rs) = length rs.
Proof.
  induction 1 as [|r rs [p Hp] _ IH]; [done|].
  unfold buffers_of in *. cbn [omap list_omap]. rewrite Hp. simpl. by rewrite IH.
Qed.

(** X4. Until a window is destroyed no buffer is held twice.  For a window
    that is constructed on a store whose blocks have [PAGE_SIZE] bytes and
    whose free list refers to blocks and holds none twice, and that has the
    store to itself, after any history of its operations (commands, token
    registrations, block cleanups, flushes, acknowledgements, pongs,
    disconnects, reconnects and pings; [destroy] is not among them): the
    buffers of the pages in the list are pairwise distinct blocks of the
    store, each of [PAGE_SIZE] bytes, and none of them is in the pool's free
    list, whose entries are distinct too. *)
Theorem pages_own_their_buffers windowId newPort now h ops :
  heap_ok h -> 0 <= PAGE_SIZE ->
  NoDup (buffers_of (win (window_after windowId newPort now h ops))
                    (pages (win (window_after windowId newPort now h ops)))
         ++ pool (heap (window_after windowId newPort now h ops))) /\
  length (buffers_of (win (window_after windowId newPort now h ops))
                     (pages (win (window_after windowId newPort now h ops)))) =
    length (pages (win (window_after windowId newPort now h ops))) /\
  (forall r p,
     r ∈ pages (win (window_after windowId newPort now h ops)) ->
     objs (win (window_after windowId newPort now h ops)) !! r = Some p ->
     (buffer p ∉ pool (heap (window_after windowId newPort now h ops))) /\
     Z.of_nat (length (content (heap (window_after windowId newPort now h ops))
                               (buffer p))) = PAGE_SIZE).
Proof.
  intros Hh Hpos.
  assert (Hok : ok (window_after windowId newPort now h ops))
    by (apply ok_run, ok_construct; done).
  set (s := window_after windowId newPort now h ops) in *.
  pose proof (ok_owned _ Hok) as Hnd. split; [done|]. split.
  - apply buffers_of_length, (wf_refs _ (ok_wf _ Hok)).
  - intros r p Hr Hp. split.
    + apply NoDup_app in Hnd as (_ & Hdisj & _). apply Hdisj.
      unfold buffers_of. apply list_elem_of_omap. exists r. by rewrite Hp.
    + by eapply ok_content_length.
Qed.

(** ** What a connected transport receives *)

#[local] Instance same_wire_preorder : PreOrder same_wire.
Proof.
  split.
  - intros s. by split.
  - intros s1 s2 s3 [A1 A2 A3 A4 A5 A6] [B1 B2 B3 B4 B5 B6].
    split; congruence.
Qed.

Lemma same_wire_onHeap {A} (m : M Heap A) : moves same_wire (onHeap m).
Proof. intros s. unfold onHeap. by destruct (m (heap s)). Qed.

Ltac wire_step_tac :=
  cbv zeta;
  lazymatch goal with
  | |- moves _ (bind _ _) => apply moves_bind; [apply _| |intros ?]
  | |- moves _ (ret _) => apply moves_still; [apply _|done]
  | |- moves _ (throw _) => apply moves_still; [apply _|done]
  | |- moves _ getW => apply moves_still; [apply _|done]
  | |- moves _ (onHeap _) => apply same_wire_onHeap
  | |- moves _ (modW _) => intros ?; by split
  | |- moves _ (if _ then _ else _) => apply moves_if
  | |- moves _ (match ?x with _ => _ end) => destruct x
  end.

Lemma wire_step_same s s1 s' :
  wire_step s s1 -> same_wire s1 s' -> wire_step s s'.
Proof.
  intros [C H] [B1 B2 B3 B4 B5 B6]. split.
  - intros Hc. rewrite B3. by apply C.
  - unfold group_start, tail_head, tail_page in *.
    rewrite B1, B2, B4, B5, B6. exact H.
Qed.

Lemma wire_step_alloc size s :
  wf (win s) -> wire_step s (state_of (_allocCommandBuffer size s)).
Proof.
  intros Hwf.
  destruct (alloc_spec size s Hwf) as (r & p & Hlast & Hp & Hfin & Hcase).
  cbn zeta in Hcase.
  assert (Htail : tail_page (win s) = Some p).
  { unfold tail_page. by rewrite Hlast. }
  destruct (_ >=? PAGE_SIZE).
  - destruct Hcase as (b & h' & Hb & ->). simpl. split; [done|].
    right. exists p. split; [done|]. simpl. split; [done|]. split; [done|].
    left. unfold tail_head, tail_page. simpl. rewrite last_snoc.
    rewrite lookup_app_r by (by rewrite length_insert).
    by rewrite length_insert, Nat.sub_diag.
  - rewrite Hcase. simpl. split; [done|]. left. simpl.
    split; [done|]. split; [done|].
    unfold tail_head, tail_page. simpl. done.
Qed.

Lemma wire_step_produce {A} size (k : View -> M WS A) s :
  wf (win s) -> (forall v, moves same_wire (k v)) ->
  wire_step s (state_of (bind (_allocCommandBuffer size) k s)).
Proof.
  intros Hwf Hk. pose proof (wire_step_alloc size s Hwf) as H.
  rewrite state_of_bind.
  destruct (_allocCommandBuffer size s) as [v s1|e s1]; simpl in H; [|done].
  eapply wire_step_same; [exact H|apply Hk].
Qed.

Lemma wire_step_refl s : wire_step s s.
Proof. split; [done|]. by left. Qed.

Lemma wire_step_flush s :
  wf (win s) -> wire_step s (state_of (_flushMutationGroup s)).
Proof.
  intros Hwf. rewrite flush_eq.
  destruct Hwf as [Hrefs (p & Htail & Hfin) Hgroup].
  destruct (mutationGroup (win s)) as [mg|] eqn:Hmg.
  2:{ simpl. split; [done|]. left. unfold group_start. simpl. by rewrite Hmg. }
  pose proof (Hgroup mg eq_refl) as Hlast.
  assert (Hpg : objs (win s) !! page mg = Some p).
  { unfold tail_page in Htail. by rewrite Hlast in Htail. }
  destruct (connected (win s) && _) eqn:Hc.
  - rewrite Hpg. simpl. split; [done|]. right. exists p.
    split; [done|]. apply andb_true_iff in Hc as [Hconn Hpos].
    unfold group_start at 1 2. rewrite Hmg. simpl. rewrite Hconn.
    split; [done|]. split; [done|]. by right.
  - simpl. split; [done|]. right. exists p. split; [done|].
    unfold group_start at 1 2. rewrite Hmg. simpl.
    split.
    + unfold flushed. rewrite Hc. by rewrite app_nil_r.
    + split; [done|]. by right.
Qed.

Lemma registerReadOffset_wire readOffset s :
  wf (win s) ->
  let s' := state_of (registerReadOffset readOffset s) in
  connected (win s') = connected (win s) /\
  port (win s') = port (win s) /\
  group_start (win s') = group_start (win s) /\
  tail_head s' = tail_head s.
Proof.
  intros Hwf.
  pose proof (registerReadOffset_spec readOffset s Hwf) as H. cbn zeta in *.
  destruct (readOffset <? _); [by rewrite H|].
  destruct H as (retired & kept & Hsplit & -> & _ & _ & Hl). simpl.
  split; [done|]. split; [done|]. split; [done|].
  unfold tail_head, tail_page. simpl. by rewrite Hl.
Qed.

Lemma wire_step_exec o s :
  wf (win s) -> on_the_wire o -> wire_step s (exec o s).
Proof.
  intros Hwf Ho. destruct o as [size|bytes|n|n|blockId| | |r|r now| |p r now|];
    cbn [exec on_the_wire] in *; try done.
  - by apply wire_step_alloc.
  - unfold emit. apply wire_step_produce; [done|]. intros v. repeat wire_step_tac.
  - destruct (JsMap.get (tokenList (win s)) n) as [i|] eqn:Hi.
    { rewrite (registerAttrKey_known n i s Hi). apply wire_step_refl. }
    rewrite registerAttrKey_state. unfold JsMap.has. rewrite Hi.
    set (s0 := mkWS _ (heap s)).
    assert (H0 : wire_step s0 (state_of (_streamModifyToken n s0))).
    { unfold _streamModifyToken. apply wire_step_produce.
      - eapply wf_frame; [..|exact Hwf]; done.
      - intros v. repeat wire_step_tac. }
    destruct H0 as [C H]. split; [exact C|exact H].
  - rewrite registerStyleKey_attrKey.
    destruct (JsMap.get (tokenList (win s)) n) as [i|] eqn:Hi.
    { rewrite (registerAttrKey_known n i s Hi). apply wire_step_refl. }
    rewrite registerAttrKey_state. unfold JsMap.has. rewrite Hi.
    set (s0 := mkWS _ (heap s)).
    assert (H0 : wire_step s0 (state_of (_streamModifyToken n s0))).
    { unfold _streamModifyToken. apply wire_step_produce.
      - eapply wf_frame; [..|exact Hwf]; done.
      - intros v. repeat wire_step_tac. }
    destruct H0 as [C H]. split; [exact C|exact H].
  - unfold _handleBlockCleanup.
    rewrite (bind_Ret getW _ s (win s) s) by done.
    rewrite state_of_bind.
    assert (H1 : wire_step s (state_of ((if deleteBlockCount (win s) =? 1000
                  then flushBlockDeleteQueue else ret tt) s))).
    { destruct (_ =? 1000); [|apply wire_step_refl].
      unfold flushBlockDeleteQueue.
      rewrite (bind_Ret getW _ s (win s) s) by done.
      destruct (_ >? 0); [|apply wire_step_refl].
      apply wire_step_produce; [done|]. intros v. repeat wire_step_tac. }
    destruct ((if deleteBlockCount (win s) =? 1000
               then flushBlockDeleteQueue else ret tt) s) as [[] s1|e s1];
      simpl in H1; [|done].
    eapply wire_step_same; [exact H1|]. clear H1. cbv beta.
    match goal with |- same_wire _ (state_of (?m s1)) =>
      revert s1; change (moves same_wire m) end.
    repeat wire_step_tac.
  - unfold flushBlockDeleteQueue.
    rewrite (bind_Ret getW _ s (win s) s) by done.
    destruct (_ >? 0); [|apply wire_step_refl].
    apply wire_step_produce; [done|]. intros v. repeat wire_step_tac.
  - by apply wire_step_flush.
  - destruct (registerReadOffset_wire r s Hwf) as (C & H).
    split; [by rewrite C|by left].
  - set (sa := mkWS (set_connected true (set_lastPongTime now (win s))) (heap s)).
    change (registerPong r now s) with (registerReadOffset r sa).
    destruct (registerReadOffset_wire r sa) as (C & H).
    { eapply wf_frame; [..|exact Hwf]; done. }
    split; [by rewrite C|by left].
Qed.







(** ** Returning the pages of a destroyed window *)


(** ** Commands written field by field *)

Lemma byte_of_Z_Some z : 0 <= z <= 255 -> exists b, byte_of_Z z = Some b.
Proof.
  intros Hz. unfold byte_of_Z.
  replace (0 <=? z) with true by (symmetry; apply Z.leb_le; lia).
  replace (z <=? 255) with true by (symmetry; apply Z.leb_le; lia).
  cbn [andb]. destruct (Byte.of_N (Z.to_N z)) as [b|] eqn:Hb; [by exists b|].
  apply Byte.of_N_None_iff in Hb. lia.
Qed.

Lemma be16_bytes z :
  0 <= z <= 65535 ->
  exists hi lo, byte_of_Z (z / 256) = Some hi /\ byte_of_Z (z mod 256) = Some lo /\
                be16 z = [hi; lo].
Proof.
  intros Hz.
  destruct (byte_of_Z_Some (z / 256)) as [hi Hhi].
  { split; [apply Z.div_pos; lia|].
    apply Z.lt_succ_r. apply Z.div_lt_upper_bound; lia. }
  destruct (byte_of_Z_Some (z mod 256)) as [lo Hlo].
  { pose proof (Z.mod_pos_bound z 256 ltac:(lia)). lia. }
  exists hi, lo. unfold be16. by rewrite Hhi, Hlo.
Qed.

Lemma be16_length z : 0 <= z <= 65535 -> length (be16 z) = 2%nat.
Proof. intros Hz. by destruct (be16_bytes z Hz) as (hi & lo & _ & _ & ->). Qed.

Lemma be16s_length ids :
  Forall (fun b => 0 <= b <= 65535) ids ->
  length (concat (be16 <$> ids)) = (2 * length ids)%nat.
Proof.
  induction 1 as [|b ids Hb _ IH]; [done|].
  cbn [fmap list_fmap concat length]. rewrite length_app, be16_length, IH by done. lia.
Qed.

Lemma writeUint16BE_inside v value offset h :
  0 <= value <= 65535 -> 0 <= offset -> offset + 2 <= v_length v ->
  writeUint16BE v value offset h = Ret tt (poke h v offset (be16 value)).
Proof.
  intros Hv H0 H1. destruct (be16_bytes value Hv) as (hi & lo & Hhi & Hlo & ->).
  unfold writeUint16BE. rewrite Hhi, Hlo.
  replace (0 <=? value) with true by (symmetry; apply Z.leb_le; lia).
  replace (value <=? 65535) with true by (symmetry; apply Z.leb_le; lia).
  replace (0 <=? offset) with true by (symmetry; by apply Z.leb_le).
  replace (offset + 2 <=? v_length v) with true by (symmetry; by apply Z.leb_le).
  done.
Qed.

Lemma copy_into_inside source target targetStart n h :
  0 <= targetStart -> 0 <= n -> targetStart + n <= v_length target ->
  copy_into source target targetStart 0 n h =
    Ret tt (poke h target targetStart (take (Z.to_nat n) source)).
Proof.
  intros H0 Hn H1. unfold copy_into.
  replace (targetStart <? 0) with false by (symmetry; apply Z.ltb_ge; lia).
  change (0 <? 0) with false. cbv zeta.
  rewrite Z.sub_0_r. rewrite (Z.max_l n 0) by lia.
  rewrite (Z.max_l _ 0) by lia. rewrite Z.min_l by lia.
  unfold slice. by rewrite drop_0.
Qed.

Lemma view_bytes_length h v :
  view_ok h v -> length (view_bytes h v) = Z.to_nat (v_length v).
Proof.
  intros (H1 & H2 & H3). destruct v as [b o l]. rewrite view_bytes_exact.
  simpl in *. apply slice_length; lia.
Qed.

Lemma pokes_on_view v fields : forall h a,
  view_ok h v -> tiled a fields -> 0 <= a ->
  a + Z.of_nat (length (concat fields.*2)) <= v_length v ->
  within v h (pokes_on v fields h) /\
  view_bytes (pokes_on v fields h) v =
    take (Z.to_nat a) (view_bytes h v) ++ concat fields.*2 ++
    drop (Z.to_nat a + length (concat fields.*2)) (view_bytes h v).
Proof.
  induction fields as [|[off bs] fields IH]; intros h a Hok Htile Ha Hfit.
  - simpl. split; [apply within_refl|]. by rewrite Nat.add_0_r, take_drop.
  - cbn [tiled fst snd] in Htile. destruct Htile as [-> Htile].
    cbn [fmap list_fmap concat snd] in Hfit |- *. rewrite length_app in Hfit |- *.
    cbn [pokes_on foldl fst snd]. fold (pokes_on v fields (poke h v a bs)).
    pose proof Hok as (V1 & V2 & V3).
    assert (Hw : within v h (poke h v a bs)) by (apply within_poke; lia).
    assert (Hok' : view_ok (poke h v a bs) v) by (by apply view_ok_poke).
    destruct (IH (poke h v a bs) (a + Z.of_nat (length bs)) Hok' Htile
                ltac:(lia) ltac:(lia)) as [Hw' Hv'].
    split; [by eapply within_trans|]. rewrite Hv'.
    rewrite view_bytes_poke by (done || lia).
    pose proof (view_bytes_length h v Hok) as Hl.
    set (l := view_bytes h v) in *.
    rewrite blit_inside by lia.
    assert (Hta : length (take (Z.to_nat a) l) = Z.to_nat a)
      by (rewrite length_take; lia).
    rewrite (app_assoc (take (Z.to_nat a) l) bs).
    replace (Z.to_nat (a + Z.of_nat (length bs)))
      with (length (take (Z.to_nat a) l ++ bs)) by (rewrite length_app; lia).
    rewrite take_app_length.
    rewrite <- drop_drop, drop_app_length.
    rewrite <- !app_assoc. f_equal. f_equal. f_equal.
    rewrite drop_drop. f_equal. lia.
Qed.

(** A command of [size] bytes written into the range that
    [_allocCommandBuffer] handed out, field after field, is what the stream
    has grown by. *)
Lemma written_fields k stream v fields s1 :
  written k stream v s1 ->
  tiled 0 fields ->
  Z.of_nat (length (concat fields.*2)) = v_length v ->
  let s' := mkWS (win s1) (pokes_on v fields (heap s1)) in
  written k stream v s' /\ view_bytes (heap s') v = concat fields.*2.
Proof.
  intros Hw Htile Hlen s'.
  destruct (pokes_on_view v fields (heap s1) 0 (wr_ok _ _ _ _ Hw) Htile
              ltac:(lia) ltac:(lia)) as [Hin Hv].
  split; [by apply (written_within k stream v s1)|].
  subst s'. cbn [heap]. rewrite Hv. change (Z.to_nat 0) with 0%nat.
  rewrite take_0, drop_ge, app_nil_r; [done|].
  rewrite (view_bytes_length _ _ (wr_ok _ _ _ _ Hw)). simpl. lia.
Qed.

Lemma appended_view s stream v s' :
  written (global_writeOffset (win s)) stream v s' ->
  appended s s' = view_bytes (heap s') v.
Proof.
  intros [_ (p & Htail & Hv) _ _]. unfold appended. rewrite Htail.
  by rewrite Hv, view_bytes_exact.
Qed.

(** ** The block-delete queue *)

Lemma produced_app ops1 : forall ops2 s,
  produced (ops1 ++ ops2) s = produced ops1 s ++ produced ops2 (run ops1 s).
Proof.
  induction ops1 as [|o ops1 IH]; intros ops2 s; simpl; [done|].
  by rewrite IH, app_assoc.
Qed.

Lemma run_app ops1 ops2 s : run (ops1 ++ ops2) s = run ops2 (run ops1 s).
Proof. unfold run. by rewrite foldl_app. Qed.

Ltac buffer_step :=
  cbv zeta;
  lazymatch goal with
  | |- keeps _ (bind _ _) => apply keeps_bind; [|intros ?]
  | |- keeps _ (ret _) => apply keeps_ret
  | |- keeps _ (throw _) => apply keeps_throw
  | |- keeps _ getW => apply keeps_getW
  | |- keeps _ (deref _) => apply keeps_deref
  | |- keeps _ (page_subarray _ _ _) => apply keeps_page_subarray
  | |- keeps _ (onHeap _) => apply keeps_onHeap
  | |- keeps _ (modW _) =>
      apply keeps_modW; intros ? ?; simpl; rewrite ?length_blit; done
  | |- keeps _ (send _) => apply keeps_send; intros ? ? ?; done
  | |- keeps _ (if _ then _ else _) => apply keeps_if
  | |- keeps _ (match ?x with _ => _ end) => destruct x
  end.

Lemma buffer_alloc n size :
  keeps (onWin (fun w => length (deleteBlockCommandBuffer w) = n))
        (_allocCommandBuffer size).
Proof.
  unfold _allocCommandBuffer, _flushMutationGroup, _allocPage.
  repeat buffer_step.
Qed.

Lemma buffer_freePages n readOffset ps :
  keeps (onWin (fun w => length (deleteBlockCommandBuffer w) = n))
        (freePages readOffset ps).
Proof. induction ps as [|r ps IH]; simpl; repeat buffer_step. exact IH. Qed.

Lemma buffer_restreamLoop n ps : forall readOffset,
  keeps (onWin (fun w => length (deleteBlockCommandBuffer w) = n))
        (restreamLoop ps readOffset).
Proof. induction ps as [|r ps IH]; intros ro; simpl; repeat buffer_step. apply IH. Qed.

Lemma buffer_flushBlockDeleteQueue n :
  keeps (onWin (fun w => length (deleteBlockCommandBuffer w) = n))
        flushBlockDeleteQueue.
Proof.
  unfold flushBlockDeleteQueue.
  apply keeps_bind; [apply keeps_getW|intros w].
  apply keeps_if; [|apply keeps_ret].
  apply keeps_bind; [apply buffer_alloc|intros v].
  repeat buffer_step.
Qed.

Lemma buffer_exec n o s :
  length (deleteBlockCommandBuffer (win s)) = n ->
  length (deleteBlockCommandBuffer (win (exec o s))) = n.
Proof.
  intros Hn.
  destruct o; cbn [exec];
    apply (keeps_state_of
             (onWin (fun w => length (deleteBlockCommandBuffer w) = n)));
    try done.
  - apply buffer_alloc.
  - unfold emit. apply keeps_bind; [apply buffer_alloc|intros v].
    repeat buffer_step.
  - unfold _registerAttrKey, _streamModifyToken.
    apply keeps_bind; [apply keeps_getW|intros w].
    apply keeps_bind; [|intros ?; repeat buffer_step].
    apply keeps_if; [|apply keeps_ret].
    apply keeps_bind; [repeat buffer_step|intros ?].
    apply keeps_bind; [apply buffer_alloc|intros v]. repeat buffer_step.
  - unfold _registerStyleKey, _streamModifyToken.
    apply keeps_bind; [apply keeps_getW|intros w].
    apply keeps_bind; [|intros ?; repeat buffer_step].
    apply keeps_if; [|apply keeps_ret].
    apply keeps_bind; [repeat buffer_step|intros ?].
    apply keeps_bind; [apply buffer_alloc|intros v]. repeat buffer_step.
  - unfold _handleBlockCleanup.
    apply keeps_bind; [apply keeps_getW|intros w].
    apply keeps_bind; [|intros ?; repeat buffer_step].
    apply keeps_if; [apply buffer_flushBlockDeleteQueue|apply keeps_ret].
  - apply buffer_flushBlockDeleteQueue.
  - unfold _flushMutationGroup. repeat buffer_step.
  - unfold registerReadOffset.
    apply keeps_bind; [apply keeps_getW|intros w].
    apply keeps_if; [apply keeps_throw|].
    apply keeps_bind; [buffer_step|intros ?]. apply buffer_freePages.
  - unfold registerPong, registerReadOffset.
    apply keeps_bind; [buffer_step|intros ?].
    apply keeps_bind; [buffer_step|intros ?].
    apply keeps_bind; [apply keeps_getW|intros w].
    apply keeps_if; [apply keeps_throw|].
    apply keeps_bind; [buffer_step|intros ?]. apply buffer_freePages.
  - unfold disconnect. buffer_step.
  - unfold reconnect, registerReadOffset, _restreamUnreadPages.
    apply keeps_bind; [buffer_step|intros ?].
    apply keeps_bind; [buffer_step|intros ?].
    apply keeps_bind; [buffer_step|intros ?].
    apply keeps_bind.
    { apply keeps_bind; [apply keeps_getW|intros w].
      apply keeps_if; [apply keeps_throw|].
      apply keeps_bind; [buffer_step|intros ?]. apply buffer_freePages. }
    intros ?. apply keeps_bind; [apply keeps_getW|intros w].
    apply keeps_if; [|apply keeps_ret].
    apply keeps_bind; [apply buffer_restreamLoop|intros ?]. repeat buffer_step.
  - unfold sendPing. buffer_step.
Qed.

Lemma buffer_window_after windowId newPort now h ops :
  length (deleteBlockCommandBuffer (win (window_after windowId newPort now h ops)))
    = 2000%nat.
Proof.
  unfold window_after.
  assert (H0 : length (deleteBlockCommandBuffer
                         (win (state_of (construct windowId newPort now h))))
               = 2000%nat).
  { unfold construct.
    apply (keeps_state_of
             (onWin (fun w => length (deleteBlockCommandBuffer w) = 2000%nat))
             _streamInitWindow); [|done].
    unfold _streamInitWindow.
    apply keeps_bind; [apply buffer_alloc|intros v]. repeat buffer_step. }
  revert H0. generalize (state_of (construct windowId newPort now h)).
  induction ops as [|o ops IH]; intros s Hs; simpl; [done|].
  apply IH. by apply buffer_exec.
Qed.

(** One more id joins the queue; nothing else changes. *)
Lemma handleBlockCleanup_pending ids blockId s :
  pending ids (win s) -> (length ids < 1000)%nat -> 0 <= blockId <= 65535 ->
  exists w',
    _handleBlockCleanup blockId s = Ret tt (mkWS w' (heap s)) /\
    pending (ids ++ [blockId]) w' /\
    objs w' = objs (win s) /\ pages w' = pages (win s) /\
    mutationGroup w' = mutationGroup (win s) /\
    global_writeOffset w' = global_writeOffset (win s) /\
    global_readOffset w' = global_readOffset (win s) /\
    port w' = port (win s).
Proof.
  intros [Hc Hl Hb Hids] Hlt Hid. unfold _handleBlockCleanup.
  rewrite (bind_Ret getW _ s (win s) s) by done.
  replace (deleteBlockCount (win s) =? 1000) with false
    by (symmetry; apply Z.eqb_neq; lia).
  rewrite (bind_Ret (ret tt) _ s tt s) by done.
  rewrite (bind_Ret getW _ s (win s) s) by done. cbv zeta.
  destruct (be16_bytes blockId Hid) as (hi & lo & Hhi & Hlo & Hbe).
  replace (0 <=? blockId) with true by (symmetry; apply Z.leb_le; lia).
  replace (blockId <=? 65535) with true by (symmetry; apply Z.leb_le; lia).
  cbn [andb]. rewrite Hhi, Hlo.
  replace (0 <=? deleteBlockCount (win s) * 2) with true
    by (symmetry; apply Z.leb_le; lia).
  replace (deleteBlockCount (win s) * 2 + 2 <=?
           Z.of_nat (length (deleteBlockCommandBuffer (win s)))) with true
    by (symmetry; apply Z.leb_le; lia).
  cbn [andb]. unfold bind, modW. cbn [win heap].
  eexists. split; [reflexivity|]. split; [|done].
  split; cbn [deleteBlockCount deleteBlockCommandBuffer set_deleteBlockCount
              set_deleteBlockCommandBuffer].
  - rewrite length_app. cbn [length]. lia.
  - by rewrite length_blit.
  - rewrite Hc. replace (Z.to_nat (Z.of_nat (length ids) * 2))
      with (2 * length ids)%nat by lia.
    rewrite blit_inside by (cbn [length]; lia).
    rewrite fmap_app, concat_app. cbn [fmap list_fmap concat].
    rewrite app_nil_r, Hbe, <- Hb.
    rewrite (app_assoc _ [hi; lo]).
    assert (Hta : length (take (2 * length ids) (deleteBlockCommandBuffer (win s)))
                  = (2 * length ids)%nat) by (rewrite length_take; lia).
    replace (2 * length (ids ++ [blockId]))%nat
      with (length (take (2 * length ids) (deleteBlockCommandBuffer (win s))
                    ++ [hi; lo])).
    + by rewrite take_app_length.
    + rewrite !length_app, Hta. cbn [length]. lia.
  - apply Forall_app. split; [done|]. by apply Forall_singleton.
Qed.

(** A run of cleanups only fills the queue. *)
Lemma cleanups_pending stream ids : forall ids0 s,
  tight s stream -> pending ids0 (win s) ->
  (length ids0 + length ids <= 1000)%nat ->
  Forall (fun b => 0 <= b <= 65535) ids ->
  let s1 := run (HandleBlockCleanup <$> ids) s in
  produced (HandleBlockCleanup <$> ids) s = [] /\
  tight s1 stream /\ pending (ids0 ++ ids) (win s1) /\
  port (win s1) = port (win s).
Proof.
  induction ids as [|b ids IH]; intros ids0 s Ht Hp Hlen Hids; cbn zeta.
  - simpl. by rewrite app_nil_r.
  - apply Forall_cons in Hids as [Hb Hids]. simpl in Hlen.
    destruct (handleBlockCleanup_pending ids0 b s Hp ltac:(lia) Hb)
      as (w' & Hrun & Hp' & Ho & Hpg & Hm & Hw & Hr & Hport).
    cbn [fmap list_fmap produced run foldl exec]. rewrite Hrun. cbn [state_of].
    fold (run (HandleBlockCleanup <$> ids) (mkWS w' (heap s))).
    assert (Ht' : tight (mkWS w' (heap s)) stream).
    { apply tight_frame; try done; try lia.
      - apply ok_frame; try done. apply Ht.
      - rewrite (pe_count _ _ Hp'). rewrite length_app. simpl. lia. }
    destruct (IH (ids0 ++ [b]) (mkWS w' (heap s)) Ht' Hp'
                ltac:(rewrite length_app; simpl; lia) Hids)
      as (Hprod & Ht1 & Hp1 & Hport1).
    rewrite Hprod, appended_same by done.
    rewrite <- app_assoc in Hp1. simpl in Hp1.
    split; [done|]. split; [done|]. split; [done|].
    by rewrite Hport1.
Qed.

(** The queue is emitted as one command. *)
Lemma flushBlockDeleteQueue_pending stream ids s :
  2003 <= PAGE_SIZE -> tight s stream -> pending ids (win s) ->
  ids <> [] -> (length ids <= 1000)%nat ->
  exists s',
    flushBlockDeleteQueue s = Ret tt s' /\
    appended s s' = remove_blocks_command ids /\
    deleteBlockCount (win s') = 0.
Proof.
  intros Hsize Ht [Hc Hl Hb Hids] Hne Hlen. unfold flushBlockDeleteQueue.
  rewrite (bind_Ret getW _ s (win s) s) by done.
  assert (Hpos : (0 < length ids)%nat) by (destruct ids; [done|simpl; lia]).
  replace (deleteBlockCount (win s) >? 0) with true
    by (symmetry; apply Z.gtb_lt; lia).
  set (c := deleteBlockCount (win s)) in *.
  destruct (tight_alloc stream (1 + 2 * c + 2) s ltac:(lia) Ht)
    as (v & s1 & Hrun & Hvl & Hw).
  rewrite (bind_Ret _ _ _ _ _ Hrun).
  set (body := concat (be16 <$> ids)) in *.
  assert (Hbl : length body = (2 * length ids)%nat) by (by apply be16s_length).
  set (fields := [(0, [x09]); (1, body); (1 + 2 * c, [x00; x00])]).
  assert (Hvl' : v_length v = 1 + 2 * c + 2) by done.
  set (h1 := poke (heap s1) v 0 [x09]).
  set (h2 := poke h1 v 1 body).
  assert (E1 : onHeap (writeUint8 v CMD_REMOVE_BLOCKS 0) s1 =
               Ret tt (mkWS (win s1) h1)).
  { apply onHeap_Ret, writeUint8_inside; [done|lia|lia]. }
  assert (E2 : onHeap (copy_into (deleteBlockCommandBuffer (win s)) v 1 0 (c * 2))
                 (mkWS (win s1) h1) =
               Ret tt (mkWS (win s1) h2)).
  { apply (onHeap_Ret _ (mkWS (win s1) h1)). rewrite copy_into_inside by lia.
    replace (Z.to_nat (c * 2)) with (2 * length ids)%nat by lia.
    by rewrite Hb. }
  assert (E3 : onHeap (writeUint16BE v 0 (1 + 2 * c)) (mkWS (win s1) h2) =
               Ret tt (mkWS (win s1) (pokes_on v fields (heap s1)))).
  { apply (onHeap_Ret _ (mkWS (win s1) h2)).
    by rewrite writeUint16BE_inside by lia. }
  rewrite (bind_Ret _ _ _ _ _ E1), (bind_Ret _ _ _ _ _ E2), (bind_Ret _ _ _ _ _ E3).
  unfold modW. cbn [win heap].
  eexists. split; [reflexivity|].
  destruct (written_fields _ stream v fields s1 Hw) as [Hw' Hv'].
  { cbn [tiled fields fst snd length]. split; [done|]. split; [done|].
    split; [lia|done]. }
  { unfold fields. cbn [fmap list_fmap concat snd].
    rewrite app_nil_r, !length_app. cbn [length]. lia. }
  cbn zeta in Hw', Hv'.
  split; [|done].
  assert (Hw2 : written (global_writeOffset (win s)) stream v
                  (mkWS (set_deleteBlockCount 0 (win s1))
                        (pokes_on v fields (heap s1)))).
  { apply (written_modW _ _ _ (set_deleteBlockCount 0)
             ltac:(intros w; simpl; split_and!; try done; lia) _ Hw'). }
  rewrite (appended_view _ stream v _ Hw2). cbn [heap].
  cbn [heap] in Hv'. rewrite Hv'. unfold fields, remove_blocks_command.
  cbn [fmap list_fmap concat snd]. rewrite app_nil_r. done.
Qed.

(** X7. Block deletions are batched.  On a window after any history whose
    delete queue is empty, up to 1000 calls of [_handleBlockCleanup] with
    16-bit block ids emit nothing and send nothing, and the next
    [flushBlockDeleteQueue] appends exactly one REMOVE_BLOCKS command to
    the stream: opcode 9, the ids in call order, two bytes each with the
    most significant first, and the end marker 0; the queue is empty
    again. *)
Theorem block_deletions_are_batched windowId newPort now h ops ids :
  heap_ok h -> 2003 <= PAGE_SIZE -> Forall fits ops ->
  deleteBlockCount (win (window_after windowId newPort now h ops)) = 0 ->
  ids <> [] -> (length ids <= 1000)%nat ->
  Forall (fun b => 0 <= b <= 65535) ids ->
  let cleanups := HandleBlockCleanup <$> ids in
  stream_of windowId newPort now h (ops ++ cleanups) =
    stream_of windowId newPort now h ops /\
  port (win (window_after windowId newPort now h (ops ++ cleanups))) =
    port (win (window_after windowId newPort now h ops)) /\
  deleteBlockCount (win (window_after windowId newPort now h (ops ++ cleanups))) =
    Z.of_nat (length ids) /\
  stream_of windowId newPort now h (ops ++ cleanups ++ [FlushBlockDeleteQueue]) =
    stream_of windowId newPort now h ops ++ remove_blocks_command ids /\
  deleteBlockCount
    (win (window_after windowId newPort now h
            (ops ++ cleanups ++ [FlushBlockDeleteQueue]))) = 0.
Proof.
  intros Hh Hsize Hfit Hc Hne Hlen Hids cleanups.
  set (s := window_after windowId newPort now h ops) in *.
  set (stream := stream_of windowId newPort now h ops).
  assert (Ht : tight s stream) by (apply tight_window_after; [done|lia|done]).
  assert (Hp : pending [] (win s)).
  { split; [done|apply buffer_window_after|done|done]. }
  destruct (cleanups_pending stream ids [] s Ht Hp ltac:(simpl; lia) Hids)
    as (Hprod & Ht1 & Hp1 & Hport1).
  fold cleanups in Hprod, Ht1, Hp1, Hport1. cbn [app] in Hp1.
  destruct (flushBlockDeleteQueue_pending stream ids (run cleanups s)
              Hsize Ht1 Hp1 Hne Hlen) as (s2 & Hrun & Happ & Hc2).
  unfold stream_of, window_after in *.
  rewrite !produced_app, !run_app. fold s. rewrite Hprod.
  cbn [produced run foldl exec]. fold (run cleanups s).
  rewrite Hrun. cbn [state_of]. rewrite Happ, !app_nil_r, Hc2.
  split_and!; try done.
  - apply (pe_count _ _ Hp1).
  - cbn [app]. by rewrite app_assoc.
Qed.

(** ** ATTACH_ANCHOR commands *)

Lemma toInt32_small z : -2147483648 <= z < 2147483648 -> toInt32 z = z.
Proof. intros Hz. unfold toInt32. rewrite Z.mod_small by lia. lia. Qed.

Lemma lor_top_bit b :
  0 <= b <= 65535 -> 32768 <= Z.lor b 32768 <= 65535.
Proof.
  intros Hb.
  assert (H0 : 0 <= Z.lor b 32768) by (apply Z.lor_nonneg; lia).
  split.
  - destruct (Z_lt_le_dec (Z.lor b 32768) 32768) as [Hlt|]; [|done].
    assert (Hbit : Z.testbit (Z.lor b 32768) 15 = true).
    { rewrite Z.lor_spec. change (Z.testbit 32768 15) with true.
      apply orb_true_r. }
    destruct (Z.eq_dec (Z.lor b 32768) 0) as [Hz|Hnz].
    { rewrite Hz in Hbit. by rewrite Z.bits_0 in Hbit. }
    rewrite Z.bits_above_log2 in Hbit; [done|lia|].
    apply Z.log2_lt_pow2; [lia|]. change (2 ^ 15) with 32768. lia.
  - destruct (Z.eq_dec (Z.lor b 32768) 0) as [Hz|Hnz]; [lia|].
    assert (Hlog : Z.log2 (Z.lor b 32768) < 16).
    { rewrite Z.log2_lor by lia. change (Z.log2 32768) with 15.
      destruct (Z.eq_dec b 0) as [->|Hb0]; [simpl; lia|].
      assert (Z.log2 b < 16); [|lia].
      apply Z.log2_lt_pow2; [lia|]. change (2 ^ 16) with 65536. lia. }
    apply Z.log2_lt_pow2 in Hlog; [|lia]. change (2 ^ 16) with 65536 in Hlog. lia.
Qed.

Lemma js_or_top_bit b : 0 <= b <= 65535 -> js_or b (Z.shiftl 1 15) = Z.lor b 32768.
Proof.
  intros Hb. unfold js_or. change (Z.shiftl 1 15) with 32768.
  by rewrite !toInt32_small by lia.
Qed.

Lemma be8_byte z : 0 <= z <= 255 -> exists b, byte_of_Z z = Some b /\ be8 z = [b].
Proof.
  intros Hz. destruct (byte_of_Z_Some z Hz) as [b Hb]. exists b.
  unfold be8. by rewrite Hb.
Qed.

Lemma be16_marker : be16 65535 = [xff; xff].
Proof. reflexivity. Qed.

(** The head of an ATTACH_ANCHOR command: the range is requested and the
    opcode, the block and the anchor are written. *)
Lemma attach_head stream size blockId anchorIndex s :
  4 <= size <= PAGE_SIZE -> tight s stream ->
  0 <= blockId <= 65535 -> 0 <= anchorIndex <= 255 ->
  exists v s1,
    _allocCommandBuffer size s = Ret v s1 /\
    v_length v = size /\
    written (global_writeOffset (win s)) stream v s1 /\
    forall A (k : M WS A),
      (onHeap (writeUint8 v CMD_ATTACH_ANCHOR 0) ;;;
       onHeap (writeUint16BE v blockId 1) ;;;
       onHeap (writeUint8 v anchorIndex 3) ;;; k) s1 =
      k (mkWS (win s1)
           (pokes_on v [(0, [x03]); (1, be16 blockId); (3, be8 anchorIndex)]
                     (heap s1))).
Proof.
  intros Hsize Ht Hb Ha.
  destruct (tight_alloc stream size s ltac:(lia) Ht) as (v & s1 & Hrun & Hvl & Hw).
  exists v, s1. split; [done|]. split; [done|]. split; [done|]. intros A k.
  destruct (be8_byte anchorIndex Ha) as (a & Hab & Hae).
  erewrite bind_Ret
    by (apply onHeap_Ret, (writeUint8_inside _ _ _ _ x03); [done|lia|lia]).
  erewrite bind_Ret
    by (apply (onHeap_Ret _ (mkWS _ _)), writeUint16BE_inside; lia).
  erewrite bind_Ret
    by (apply (onHeap_Ret _ (mkWS _ _)), (writeUint8_inside _ _ _ _ a);
        [done|lia|lia]).
  by rewrite Hae.
Qed.

Lemma streamTextInitCommand_spec stream blockId anchorIndex value s :
  tight s stream ->
  0 <= blockId <= 65535 -> 0 <= anchorIndex <= 255 ->
  Z.of_nat (String.length value) <= 32677 ->
  8 + Z.of_nat (String.length value) <= PAGE_SIZE ->
  exists s',
    _streamTextInitCommand blockId anchorIndex value s = Ret tt s' /\
    appended s s' = text_command blockId anchorIndex value /\
    tight s' (stream ++ text_command blockId anchorIndex value).
Proof.
  intros Ht Hb Ha Hlen Hsize. unfold _streamTextInitCommand. cbv zeta.
  rewrite length_list_byte_of_string.
  set (L := Z.of_nat (String.length value)) in *.
  set (bs := String.list_byte_of_string value).
  assert (Hbl : Z.of_nat (length bs) = L)
    by (unfold bs; by rewrite length_list_byte_of_string).
  destruct (attach_head stream (1 + 2 + 1 + 2 + L + 2) blockId anchorIndex s
              ltac:(lia) Ht Hb Ha) as (v & s1 & Hrun & Hvl & Hw & Hhead).
  rewrite (bind_Ret _ _ _ _ _ Hrun), Hhead.
  replace (L >? 32677) with false by (symmetry; rewrite Z.gtb_ltb; apply Z.ltb_ge; lia).
  erewrite bind_Ret by reflexivity.
  erewrite bind_Ret
    by (apply (onHeap_Ret _ (mkWS _ _)), writeUint16BE_inside; lia).
  erewrite bind_Ret
    by (apply (onHeap_Ret _ (mkWS _ _)), copy_into_inside; lia).
  erewrite (onHeap_Ret _ (mkWS _ _))
    by (apply writeUint16BE_inside; cbn [win heap]; lia).
  cbn [win heap]. eexists. split; [reflexivity|].
  replace (take (Z.to_nat L) bs) with bs
    by (symmetry; apply take_ge; lia).
  set (fields := [(0, [x03]); (1, be16 blockId); (3, be8 anchorIndex);
                  (4, be16 L); (6, bs); (6 + L, be16 65535)]).
  pose proof (be16_length blockId Hb) as Hl1.
  pose proof (be16_length L ltac:(lia)) as Hl2.
  destruct (be8_byte anchorIndex Ha) as (a & _ & Hae).
  destruct (written_fields _ stream v fields s1 Hw) as [Hw' Hv'].
  { cbn [tiled fields fst snd]. rewrite Hl1, Hl2, Hae. cbn [length].
    split_and!; try done; lia. }
  { unfold fields. cbn [fmap list_fmap concat snd].
    rewrite app_nil_r, !length_app, Hl1, Hl2, Hae, be16_marker. cbn [length]. lia. }
  cbn zeta in Hw', Hv'.
  assert (Hcmd : concat fields.*2 = text_command blockId anchorIndex value).
  { unfold fields, text_command. cbn [fmap list_fmap concat snd].
    by rewrite app_nil_r, be16_marker. }
  rewrite Hcmd in Hv'.
  change (mkWS (win s1) _) with (mkWS (win s1) (pokes_on v fields (heap s1))).
  split.
  - by rewrite (appended_view _ stream v _ Hw').
  - rewrite <- Hv'. apply Hw'.
Qed.

Lemma streamAttachBlockCommand_spec stream parentBlockId anchorIndex blockId s :
  tight s stream -> 8 <= PAGE_SIZE ->
  0 <= parentBlockId <= 65535 -> 0 <= anchorIndex <= 255 ->
  0 <= blockId <= 65535 ->
  exists s',
    _streamAttachBlockCommand parentBlockId anchorIndex blockId s = Ret tt s' /\
    appended s s' = block_command parentBlockId anchorIndex blockId /\
    tight s' (stream ++ block_command parentBlockId anchorIndex blockId).
Proof.
  intros Ht Hsize Hp Ha Hb. unfold _streamAttachBlockCommand.
  destruct (attach_head stream (1 + 2 + 1 + 2 + 2) parentBlockId anchorIndex s
              ltac:(lia) Ht Hp Ha) as (v & s1 & Hrun & Hvl & Hw & Hhead).
  rewrite (bind_Ret _ _ _ _ _ Hrun), Hhead.
  rewrite js_or_top_bit by done.
  pose proof (lor_top_bit blockId Hb) as Hlor.
  erewrite bind_Ret
    by (apply (onHeap_Ret _ (mkWS _ _)), writeUint16BE_inside; lia).
  erewrite (onHeap_Ret _ (mkWS _ _))
    by (apply writeUint16BE_inside; cbn [win heap]; lia).
  cbn [win heap]. eexists. split; [reflexivity|].
  set (fields := [(0, [x03]); (1, be16 parentBlockId); (3, be8 anchorIndex);
                  (4, be16 (Z.lor blockId 32768)); (6, be16 65535)]).
  pose proof (be16_length parentBlockId Hp) as Hl1.
  pose proof (be16_length (Z.lor blockId 32768) ltac:(lia)) as Hl2.
  destruct (be8_byte anchorIndex Ha) as (a & _ & Hae).
  destruct (written_fields _ stream v fields s1 Hw) as [Hw' Hv'].
  { cbn [tiled fields fst snd]. rewrite Hl1, Hl2, Hae. cbn [length].
    split_and!; try done; lia. }
  { unfold fields. cbn [fmap list_fmap concat snd].
    rewrite app_nil_r, !length_app, Hl1, Hl2, Hae, be16_marker. cbn [length]. lia. }
  cbn zeta in Hw', Hv'.
  assert (Hcmd : concat fields.*2 = block_command parentBlockId anchorIndex blockId).
  { unfold fields, block_command. cbn [fmap list_fmap concat snd].
    by rewrite app_nil_r, be16_marker. }
  rewrite Hcmd in Hv'.
  change (mkWS (win s1) _) with (mkWS (win s1) (pokes_on v fields (heap s1))).
  split.
  - by rewrite (appended_view _ stream v _ Hw').
  - rewrite <- Hv'. apply Hw'.
Qed.

Lemma byte_of_Z_to_N z b : byte_of_Z z = Some b -> Z.of_N (Byte.to_N b) = z.
Proof.
  unfold byte_of_Z. destruct (_ && _) eqn:Hr; [|done].
  apply andb_true_iff in Hr as [H0 _]. apply Z.leb_le in H0.
  intros Hb. apply Byte.to_of_N in Hb. rewrite Hb. lia.
Qed.

Lemma anchor_field p a z rest hi :
  0 <= p <= 65535 -> 0 <= a <= 255 -> 0 <= z <= 65535 ->
  ([x03] ++ be16 p ++ be8 a ++ be16 z ++ rest) !! 4%nat = Some hi ->
  Z.of_N (Byte.to_N hi) = z / 256.
Proof.
  intros Hp Ha Hz.
  destruct (be16_bytes p Hp) as (p1 & p2 & _ & _ & ->).
  destruct (be8_byte a Ha) as (a1 & _ & ->).
  destruct (be16_bytes z Hz) as (z1 & z2 & Hz1 & _ & ->).
  simpl. intros [= <-]. by apply byte_of_Z_to_N.
Qed.

Lemma land_top_bit b : 0 <= b < 32768 -> Z.land b 32768 = 0.
Proof.
  intros Hb. apply Z.bits_inj'. intros n Hn.
  rewrite Z.land_spec, Z.bits_0.
  destruct (Z.eq_dec n 15) as [->|Hne].
  - destruct (Z.eq_dec b 0) as [->|Hb0]; [done|].
    rewrite (Z.bits_above_log2 b 15); [done|lia|].
    apply Z.log2_lt_pow2; [lia|]. change (2 ^ 15) with 32768. lia.
  - change 32768 with (2 ^ 15). rewrite Z.pow2_bits_false by done.
    apply andb_false_r.
Qed.

Lemma lor_top_bit_again b :
  0 <= b < 32768 -> Z.lor (b + 32768) 32768 = Z.lor b 32768.
Proof.
  intros Hb. pose proof (Z.add_lor_land b 32768) as H.
  rewrite land_top_bit in H by done.
  replace (b + 32768) with (Z.lor b 32768) by lia.
  by rewrite <- Z.lor_assoc, Z.lor_diag.
Qed.

(** X8. ATTACH_ANCHOR commands on a window after any history.  For a
    16-bit block id, an anchor index below 256 and a text of at most 32677
    bytes whose command fits a page, [_streamTextInitCommand] appends
    exactly one command to the stream: opcode 3, the block id, the anchor
    index, the length of the text, the text and the marker 65535, numbers
    with the most significant byte first.  [_streamAttachBlockCommand]
    appends opcode 3, the parent's id, the anchor index, the block's id with
    bit 15 set, and the marker.  The top bit of the byte at offset 4 is
    clear in the first and set in the second, and a block id from 32768 on
    is sent as the id 32768 below it is. *)
Theorem attach_anchor_commands windowId newPort now h ops :
  heap_ok h -> 22 < PAGE_SIZE -> Forall fits ops ->
  let s := window_after windowId newPort now h ops in
  let stream := stream_of windowId newPort now h ops in
  (forall blockId anchorIndex value,
     0 <= blockId <= 65535 -> 0 <= anchorIndex <= 255 ->
     Z.of_nat (String.length value) <= 32677 ->
     8 + Z.of_nat (String.length value) <= PAGE_SIZE ->
     exists s',
       _streamTextInitCommand blockId anchorIndex value s = Ret tt s' /\
       appended s s' = text_command blockId anchorIndex value /\
       tight s' (stream ++ text_command blockId anchorIndex value) /\
       forall hi, text_command blockId anchorIndex value !! 4%nat = Some hi ->
                  (Byte.to_N hi < 128)%N) /\
  (forall parentBlockId anchorIndex blockId,
     0 <= parentBlockId <= 65535 -> 0 <= anchorIndex <= 255 ->
     0 <= blockId <= 65535 ->
     exists s',
       _streamAttachBlockCommand parentBlockId anchorIndex blockId s = Ret tt s' /\
       appended s s' = block_command parentBlockId anchorIndex blockId /\
       tight s' (stream ++ block_command parentBlockId anchorIndex blockId) /\
       (forall hi, block_command parentBlockId anchorIndex blockId !! 4%nat = Some hi ->
                   (128 <= Byte.to_N hi)%N) /\
       (blockId < 32768 ->
        block_command parentBlockId anchorIndex (blockId + 32768) =
        block_command parentBlockId anchorIndex blockId)).
Proof.
  intros Hh Hsize Hfit s stream.
  assert (Ht : tight s stream) by (by apply tight_window_after).
  split.
  - intros blockId anchorIndex value Hb Ha Hlen Hpage.
    destruct (streamTextInitCommand_spec stream blockId anchorIndex value s
                Ht Hb Ha Hlen Hpage) as (s' & Hrun & Happ & Ht').
    exists s'. split_and!; try done.
    intros hi Hhi. unfold text_command in Hhi.
    apply anchor_field in Hhi; [|done|done|lia].
    assert (Z.of_nat (String.length value) / 256 < 128)
      by (apply Z.div_lt_upper_bound; lia).
    lia.
  - intros parentBlockId anchorIndex blockId Hp Ha Hb.
    destruct (streamAttachBlockCommand_spec stream parentBlockId anchorIndex
                blockId s Ht ltac:(lia) Hp Ha Hb) as (s' & Hrun & Happ & Ht').
    exists s'. split_and!; try done.
    + intros hi Hhi. unfold block_command in Hhi.
      pose proof (lor_top_bit blockId Hb) as Hlor.
      apply anchor_field in Hhi; [|done|done|lia].
      assert (128 <= Z.lor blockId 32768 / 256)
        by (apply Z.div_le_lower_bound; lia).
      lia.
    + intros Hlt. unfold block_command. by rewrite lor_top_bit_again by lia.
Qed.

(** X9. A text of more than 32677 bytes.  On a window after any history,
    [_streamTextInitCommand] for such a text whose command would fit a page
    throws its error only after the range has been requested and the head
    of the command written: the write offset has advanced by the size of
    the whole command, and the stream has grown by that many bytes, of
    which the first four are the opcode, the block id and the anchor
    index. *)
Theorem long_text_leaves_partial_command windowId newPort now h ops
    blockId anchorIndex value :
  heap_ok h -> 22 < PAGE_SIZE -> Forall fits ops ->
  0 <= blockId <= 65535 -> 0 <= anchorIndex <= 255 ->
  32677 < Z.of_nat (String.length value) ->
  8 + Z.of_nat (String.length value) <= PAGE_SIZE ->
  let s := window_after windowId newPort now h ops in
  let stream := stream_of windowId newPort now h ops in
  exists s',
    _streamTextInitCommand blockId anchorIndex value s = Throw PlainError s' /\
    global_writeOffset (win s') =
      global_writeOffset (win s) + (8 + Z.of_nat (String.length value)) /\
    Z.of_nat (length (appended s s')) = 8 + Z.of_nat (String.length value) /\
    take 4 (appended s s') = [x03] ++ be16 blockId ++ be8 anchorIndex /\
    tight s' (stream ++ appended s s').
Proof.
  intros Hh Hsize Hfit Hb Ha Hlen Hpage s stream.
  assert (Ht : tight s stream) by (by apply tight_window_after).
  unfold _streamTextInitCommand. cbv zeta.
  rewrite length_list_byte_of_string.
  set (L := Z.of_nat (String.length value)) in *.
  destruct (attach_head stream (1 + 2 + 1 + 2 + L + 2) blockId anchorIndex s
              ltac:(lia) Ht Hb Ha) as (v & s1 & Hrun & Hvl & Hw & Hhead).
  rewrite (bind_Ret _ _ _ _ _ Hrun), Hhead.
  replace (L >? 32677) with true by (symmetry; apply Z.gtb_lt; lia).
  erewrite bind_Throw by reflexivity.
  eexists. split; [reflexivity|].
  set (fields := [(0, [x03]); (1, be16 blockId); (3, be8 anchorIndex)]).
  pose proof (be16_length blockId Hb) as Hl1.
  destruct (be8_byte anchorIndex Ha) as (a & _ & Hae).
  assert (Hcl : length (concat fields.*2) = 4%nat).
  { unfold fields. cbn [fmap list_fmap concat snd].
    rewrite app_nil_r, !length_app, Hl1, Hae. done. }
  destruct (pokes_on_view v fields (heap s1) 0 (wr_ok _ _ _ _ Hw)) as [Hin Hv].
  { cbn [tiled fields fst snd]. rewrite Hl1. cbn [length]. split_and!; done. }
  { lia. }
  { rewrite Hcl. lia. }
  pose proof (written_within _ stream v s1 _ Hin Hw) as Hw'.
  rewrite (appended_view _ stream v _ Hw'). cbn [win heap].
  pose proof (view_bytes_length _ _ (wr_ok _ _ _ _ Hw')) as Hvlen.
  cbn [heap] in Hvlen.
  split_and!.
  - destruct Hw as [_ (p & _ & Hv0) _ _]. rewrite Hv0 in Hvl. simpl in Hvl. lia.
  - rewrite Hvlen. lia.
  - rewrite Hv. change (Z.to_nat 0) with 0%nat. rewrite take_0. cbn [app].
    rewrite <- Hcl at 1. rewrite take_app_length.
    unfold fields. cbn [fmap list_fmap concat snd]. by rewrite app_nil_r.
  - apply Hw'.
Qed.

(** ** A window without a connection *)

Lemma connected_alloc c size :
  keeps (onWin (fun w => connected w = c)) (_allocCommandBuffer size).
Proof.
  unfold _allocCommandBuffer, _flushMutationGroup, _allocPage.
  repeat buffer_step.
Qed.

Lemma connected_freePages c readOffset ps :
  keeps (onWin (fun w => connected w = c)) (freePages readOffset ps).
Proof. induction ps as [|r ps IH]; simpl; repeat buffer_step. exact IH. Qed.

Lemma connected_flushBlockDeleteQueue c :
  keeps (onWin (fun w => connected w = c)) flushBlockDeleteQueue.
Proof.
  unfold flushBlockDeleteQueue.
  apply keeps_bind; [apply keeps_getW|intros w].
  apply keeps_if; [|apply keeps_ret].
  apply keeps_bind; [apply connected_alloc|intros v].
  repeat buffer_step.
Qed.

Lemma connected_exec o s :
  on_the_wire o -> quiet o -> connected (win (exec o s)) = connected (win s).
Proof.
  intros Hw Hq.
  destruct o; cbn [exec on_the_wire quiet] in *; try done;
    apply (keeps_state_of (onWin (fun w => connected w = connected (win s))));
    try done.
  - apply connected_alloc.
  - unfold emit. apply keeps_bind; [apply connected_alloc|intros v].
    repeat buffer_step.
  - unfold _registerAttrKey, _streamModifyToken.
    apply keeps_bind; [apply keeps_getW|intros w].
    apply keeps_bind; [|intros ?; repeat buffer_step].
    apply keeps_if; [|apply keeps_ret].
    apply keeps_bind; [repeat buffer_step|intros ?].
    apply keeps_bind; [apply connected_alloc|intros v]. repeat buffer_step.
  - unfold _registerStyleKey, _streamModifyToken.
    apply keeps_bind; [apply keeps_getW|intros w].
    apply keeps_bind; [|intros ?; repeat buffer_step].
    apply keeps_if; [|apply keeps_ret].
    apply keeps_bind; [repeat buffer_step|intros ?].
    apply keeps_bind; [apply connected_alloc|intros v]. repeat buffer_step.
  - unfold _handleBlockCleanup.
    apply keeps_bind; [apply keeps_getW|intros w].
    apply keeps_bind; [|intros ?; repeat buffer_step].
    apply keeps_if; [apply connected_flushBlockDeleteQueue|apply keeps_ret].
  - apply connected_flushBlockDeleteQueue.
  - unfold _flushMutationGroup. repeat buffer_step.
  - unfold registerReadOffset.
    apply keeps_bind; [apply keeps_getW|intros w].
    apply keeps_if; [apply keeps_throw|].
    apply keeps_bind; [buffer_step|intros ?]. apply connected_freePages.
Qed.

Lemma silent_exec o s :
  wf (win s) -> connected (win s) = false -> quiet o ->
  wf (win (exec o s)) /\ connected (win (exec o s)) = false /\
  port (win (exec o s)) = port (win s).
Proof.
  intros Hwf Hc Hq. split; [by apply wf_exec|].
  assert (Hcase : o = Disconnect \/ on_the_wire o)
    by (destruct o; cbn [quiet on_the_wire] in *; auto).
  destruct Hcase as [->|Hw]; [done|].
  rewrite connected_exec by done. split; [done|].
  destruct (wire_step_exec o s Hwf Hw) as [_ [(Hp & _)|(p & _ & Hp & _)]];
    [done|].
  rewrite Hp, Hc. unfold flushed. cbn [andb]. by rewrite app_nil_r.
Qed.

(** X10. A window that has lost its connection sends nothing.  After a
    disconnect that follows any history, commands, cleanups, flushes and
    acknowledgements leave the port as it was and the window disconnected;
    only a reconnect, a pong or a ping of the sweep reach the port again. *)
Theorem disconnected_window_sends_nothing windowId newPort now h ops later :
  heap_ok h -> Forall quiet later ->
  let before := window_after windowId newPort now h ops in
  let after := window_after windowId newPort now h (ops ++ Disconnect :: later) in
  port (win after) = port (win before) /\
  connected (win after) = false.
Proof.
  intros Hh Hq before after.
  assert (Hwf : wf (win before)).
  { apply ok_wf. unfold before, window_after. apply ok_run. by apply ok_construct. }
  assert (Hrun : after = run later (exec Disconnect before)).
  { unfold after, before, window_after. by rewrite run_app. }
  assert (Hgen : forall s, wf (win s) -> connected (win s) = false ->
            port (win (run later s)) = port (win s) /\
            connected (win (run later s)) = false).
  { clear Hrun. induction later as [|o later IH]; intros s Hs Hc; [done|].
    apply Forall_cons in Hq as [Ho Hq]. cbn [run foldl].
    destruct (silent_exec o s Hs Hc Ho) as (Hs' & Hc' & Hp').
    destruct (IH Hq (exec o s) Hs' Hc') as [H1 H2].
    split; [by rewrite <- Hp'|done]. }
  destruct (Hgen (exec Disconnect before)) as [H1 H2];
    [by apply wf_exec|done|].
  rewrite Hrun. by split.
Qed.

(** ** Cookie strings *)

Section CookieRoundTrip.
Context {Decoded : Type} (decodeURIComponent : JsString -> Decoded).

Lemma trim_name key : Forall name_unit key -> trim key = key.
Proof.
  intros Hkey.
  assert (Hd : forall s, Forall name_unit s -> drop_spaces s = s).
  { intros [|c s] Hs; [done|]. apply Forall_cons in Hs as [(_ & _ & Hc) _].
    simpl. by rewrite Hc. }
  unfold trim. rewrite (Hd key Hkey), Hd.
  - apply reverse_involutive.
  - by apply Forall_reverse.
Qed.

Lemma substring_prefix (s : JsString) n :
  (n <= length s)%nat -> substring s 0 (Z.of_nat n) = take n s.
Proof.
  intros Hn. unfold substring, slice.
  rewrite (Z.min_l 0) by lia. rewrite (Z.max_l 0 0) by lia.
  rewrite (Z.min_l (Z.of_nat n)) by lia. rewrite (Z.max_r 0 (Z.of_nat n)) by lia.
  rewrite Z.min_l, Z.max_r by lia. change (Z.to_nat 0) with 0%nat.
  rewrite drop_0. f_equal. lia.
Qed.

Lemma scanCookies_name cookieString key name : forall rest i,
  Forall name_unit name ->
  scanCookies cookieString key (name ++ rest) i 0 =
  scanCookies cookieString key rest (i + Z.of_nat (length name)) 0.
Proof.
  induction name as [|c name IH]; intros rest i Hname.
  - simpl. f_equal. lia.
  - apply Forall_cons in Hname as [(He & Hs & Hw) Hname].
    assert (Hsp : (c =? SPACE)%N = false).
    { apply N.eqb_neq. intros ->. done. }
    cbn [app scanCookies].
    replace (c =? EQUALS)%N with false by (symmetry; by apply N.eqb_neq).
    replace (c =? SEMICOLON)%N with false by (symmetry; by apply N.eqb_neq).
    rewrite Hsp. cbn [andb orb negb]. change (0 =? -1) with false. cbn [andb].
    rewrite IH by done. f_equal. cbn [length]. lia.
Qed.

Lemma scanValue_value value rest : forall valueEnd,
  Forall (fun c => c <> SEMICOLON) value ->
  scanValue (value ++ SEMICOLON :: rest) valueEnd =
    valueEnd + Z.of_nat (length value).
Proof.
  induction value as [|c value IH]; intros valueEnd Hvalue.
  - simpl. lia.
  - apply Forall_cons in Hvalue as [Hc Hvalue]. cbn [app scanValue].
    replace (c =? SEMICOLON)%N with false by (symmetry; by apply N.eqb_neq).
    rewrite IH by done. cbn [length]. lia.
Qed.

(** The first cookie of a string is found. *)
Lemma getCookieValue_first key value rest :
  key <> [] -> Forall name_unit key ->
  Forall (fun c => c <> SEMICOLON) value ->
  getCookieValue decodeURIComponent
    (key ++ [EQUALS] ++ value ++ [SEMICOLON] ++ rest) key =
    Some (decodeURIComponent value).
Proof.
  intros Hne Hkey Hvalue. unfold getCookieValue.
  set (cs := key ++ [EQUALS] ++ value ++ [SEMICOLON] ++ rest).
  assert (Hpos : (0 < length key)%nat) by (destruct key; [done|simpl; lia]).
  assert (Hscan : scanCookies cs key cs 0 0 = Break (Z.of_nat (length key) + 1)).
  { unfold cs at 2. rewrite scanCookies_name by done.
    cbn [app scanCookies]. rewrite Z.add_0_l.
    change (EQUALS =? EQUALS)%N with true.
    replace (0 =? Z.of_nat (length key)) with false
      by (symmetry; apply Z.eqb_neq; lia).
    cbn [andb negb].
    rewrite substring_prefix by (unfold cs; rewrite length_app; lia).
    unfold cs. rewrite take_app_length, trim_name by done.
    by rewrite bool_decide_eq_true_2. }
  rewrite Hscan. cbv zeta. f_equal. f_equal.
  set (v := Z.of_nat (length key) + 1).
  assert (Hdrop : drop (Z.to_nat v) cs = value ++ SEMICOLON :: rest).
  { replace (Z.to_nat v) with (length (key ++ [EQUALS]))
      by (rewrite length_app; simpl; lia).
    unfold cs. rewrite (app_assoc key). apply drop_app_length. }
  assert (Hlen : length cs = (length key + 1 + length value + 1 + length rest)%nat).
  { unfold cs. rewrite !length_app. simpl. lia. }
  rewrite Hdrop, scanValue_value by done.
  unfold substring, slice.
  rewrite !Z.min_l by lia. rewrite !Z.max_r by lia.
  rewrite Hdrop.
  replace (Z.to_nat _) with (length value) by lia.
  by rewrite take_app_length.
Qed.

Lemma indexOf_from_range s searchString : forall k,
  indexOf_from s searchString k = -1 \/ k <= indexOf_from s searchString k.
Proof.
  induction s as [|c s IH]; intros k; simpl.
  - destruct (bool_decide _); [right; lia|by left].
  - destruct (bool_decide _); [right; lia|].
    destruct (IH (k + 1)) as [->|H]; [by left|right; lia].
Qed.

(** When the name is new to the cookie string, or is its first cookie, the
    cookie is put in front. *)
Lemma setCookieValue_front cookieString key value :
  indexOf cookieString (key ++ [EQUALS]) 0 <= 0 ->
  exists rest,
    setCookieValue cookieString key value =
      key ++ [EQUALS] ++ value ++ [SEMICOLON] ++ rest.
Proof.
  intros Hidx. unfold setCookieValue. cbv zeta.
  set (k := indexOf cookieString (key ++ [EQUALS]) 0) in *.
  assert (Hk : k = -1 \/ k = 0).
  { unfold k, indexOf in *. cbv zeta in *.
    rewrite Z.min_l, Z.max_l in * by lia. change (Z.to_nat 0) with 0%nat in *.
    rewrite drop_0 in *.
    destruct (indexOf_from_range cookieString (key ++ [EQUALS]) 0); [by left|].
    right. lia. }
  destruct Hk as [->| ->].
  - change (negb (-1 =? -1)) with false. cbv iota.
    destruct (negb _).
    + exists ([SPACE] ++ cookieString).
      cbn [app]. rewrite <- (app_assoc key). cbn [app].
      by rewrite <- (app_assoc value).
    + exists []. by rewrite app_nil_r.
  - change (negb (0 =? -1)) with true. cbv iota.
    eexists. rewrite (substring_prefix _ 0) by lia. rewrite take_0.
    cbn [app]. rewrite <- ?(app_assoc key). cbn [app].
    rewrite <- (app_assoc value). reflexivity.
Qed.

(** X11. A cookie that was set is read back.  For a name that is not
    empty and has no ['='], no [';'] and no white space, and a value without
    [';']: when the cookie string does not contain the name followed by
    ['='], or begins with it, [getCookieValue] finds in the string that
    [setCookieValue] made the value that was set, and hands it to
    [decodeURIComponent], although it was stored as it came. *)
Theorem cookie_set_then_get cookieString key value :
  key <> [] -> Forall name_unit key ->
  Forall (fun c => c <> SEMICOLON) value ->
  indexOf cookieString (key ++ [EQUALS]) 0 <= 0 ->
  getCookieValue decodeURIComponent (setCookieValue cookieString key value) key =
    Some (decodeURIComponent value).
Proof.
  intros Hne Hkey Hvalue Hidx.
  destruct (setCookieValue_front cookieString key value Hidx) as [rest ->].
  by apply getCookieValue_first.
Qed.

End CookieRoundTrip.

(** ** Event handlers *)

Section HandlerIds.
Context {Handler Data : Type}.

Lemma handler_get_set (m : list (Z * Handler)) k v :
  JsMap.get (JsMap.set m k v) k = Some v.
Proof.
  induction m as [|[k' v'] m IH]; simpl.
  - by rewrite decide_True.
  - destruct (decide (k' = k)); simpl.
    + by rewrite decide_True.
    + by rewrite decide_False.
Qed.

Lemma handler_get_set_ne (m : list (Z * Handler)) k k' v :
  k' <> k -> JsMap.get (JsMap.set m k v) k' = JsMap.get m k'.
Proof.
  intros Hne. induction m as [|[k1 v1] m IH]; simpl.
  - by rewrite decide_False.
  - destruct (decide (k1 = k)) as [->|]; simpl.
    + by rewrite !decide_False.
    + destruct (decide (k1 = k')); [done|apply IH].
Qed.

Lemma handler_get_none (m : list (Z * Handler)) k :
  JsMap.get m k = None <-> k ∉ m.*1.
Proof.
  induction m as [|[k1 v1] m IH]; simpl.
  - split; [intros _; apply not_elem_of_nil|done].
  - rewrite not_elem_of_cons. destruct (decide (k1 = k)) as [->|].
    + split; [done|]. by intros [? _].
    + rewrite IH. split; [by split|by intros [_ ?]].
Qed.

Lemma handler_delete_keys (m : list (Z * Handler)) k :
  (JsMap.delete m k).*1 ⊆ m.*1.
Proof.
  induction m as [|[k1 v1] m IH]; simpl; [done|].
  destruct (decide (k1 = k)); simpl.
  - by apply list_subseteq_cons.
  - intros x. rewrite !elem_of_cons. intros [->|Hx]; [by left|right; by apply IH].
Qed.

Lemma handler_set_keys (m : list (Z * Handler)) k v x :
  x ∈ (JsMap.set m k v).*1 -> x = k \/ x ∈ m.*1.
Proof.
  induction m as [|[k1 v1] m IH]; simpl.
  - rewrite list_elem_of_singleton. by left.
  - destruct (decide (k1 = k)) as [->|]; simpl; rewrite !elem_of_cons.
    + intros [->|Hx]; [by left|right; by right].
    + intros [->|Hx]; [right; by left|].
      destruct (IH Hx) as [->|?]; [by left|right; by right].
Qed.

Lemma handed_out_deallocate ids : forall t : @Handlers Handler,
  handed_out t ->
  handed_out (_deallocateEventHandlers ids t) /\
  lastEventHandlerId (_deallocateEventHandlers ids t) = lastEventHandlerId t /\
  (eventHandlers (_deallocateEventHandlers ids t)).*1 ⊆ (eventHandlers t).*1.
Proof.
  induction ids as [|k ids IH]; intros t [H0 Hk]; [done|].
  cbn [_deallocateEventHandlers foldl].
  set (t1 := mkHandlers _ _).
  assert (Hsub : (eventHandlers t1).*1 ⊆ (eventHandlers t).*1)
    by apply handler_delete_keys.
  assert (H1 : handed_out t1).
  { split; [done|]. apply Forall_forall. intros x Hx.
    eapply Forall_forall in Hk; [exact Hk|by apply Hsub]. }
  destruct (IH t1 H1) as (H2 & H3 & H4).
  split; [done|]. split; [done|]. by etrans.
Qed.

Lemma handed_out_step o (t : @Handlers Handler) :
  handed_out t ->
  handed_out (handlerStep t o) /\
  lastEventHandlerId t <= lastEventHandlerId (handlerStep t o) /\
  forall k, k <= lastEventHandlerId t ->
            k ∈ (eventHandlers (handlerStep t o)).*1 -> k ∈ (eventHandlers t).*1.
Proof.
  intros [H0 Hk]. destruct o as [h|ids]; cbn [handlerStep].
  - unfold _allocateEventHandler. cbv zeta.
    cbn [snd lastEventHandlerId eventHandlers].
    split; [split; [simpl; lia|]|split; [lia|]]; cbn [lastEventHandlerId eventHandlers].
    + apply Forall_forall. intros x Hx.
      apply handler_set_keys in Hx as [->|Hx]; [lia|].
      eapply Forall_forall in Hk; [|exact Hx]. simpl in Hk. lia.
    + intros k Hle Hx. apply handler_set_keys in Hx as [->|Hx]; [lia|done].
  - destruct (handed_out_deallocate ids t (conj H0 Hk)) as (H1 & H2 & H3).
    split; [done|]. split; [lia|]. intros k _ Hx. by apply H3.
Qed.

Lemma handed_out_after ops : forall t : @Handlers Handler,
  handed_out t ->
  handed_out (handlersAfter ops t) /\
  lastEventHandlerId t <= lastEventHandlerId (handlersAfter ops t) /\
  forall k, k <= lastEventHandlerId t ->
            k ∈ (eventHandlers (handlersAfter ops t)).*1 -> k ∈ (eventHandlers t).*1.
Proof.
  induction ops as [|o ops IH]; intros t Ht; [by split|].
  cbn [handlersAfter foldl]. fold (handlersAfter ops (handlerStep t o)).
  destruct (handed_out_step o t Ht) as (H1 & H2 & H3).
  destruct (IH _ H1) as (H4 & H5 & H6).
  split; [done|]. split; [lia|].
  intros k Hk Hx. apply H3; [done|]. apply H6; [lia|done].
Qed.

(** X12. Handler ids are never reused.  On the handler table of a window
    after any sequence of allocations and deallocations: an allocation
    returns the id after the last one handed out, under which there was no
    handler; an event for that id then runs the new handler, and events for
    other ids are treated as before.  An id that has been handed out and
    has no handler any more, such as a deallocated one, never gets one
    again: events for it run no handler, whatever happens later. *)
Theorem handler_ids_are_never_reused (ops : list HandlerOp) :
  let t := handlersAfter ops (@noHandlers Handler) in
  (forall handlerFunction (data : Data),
     let '(id, t') := _allocateEventHandler handlerFunction t in
     id = lastEventHandlerId t + 1 /\
     lastEventHandlerId t' = id /\
     _executeClientEvent id data t = None /\
     _executeClientEvent id data t' = Some (handlerFunction, data) /\
     forall other, other <> id ->
       _executeClientEvent other data t' = _executeClientEvent other data t) /\
  (forall id (data : Data) later,
     id <= lastEventHandlerId t ->
     _executeClientEvent id data t = None ->
     _executeClientEvent id data (handlersAfter later t) = None).
Proof.
  intros t.
  assert (H0 : handed_out (@noHandlers Handler)).
  { split; [done|]. constructor. }
  destruct (handed_out_after ops _ H0) as ([Hpos Hkeys] & _ & _). fold t in Hpos, Hkeys.
  split.
  - intros h data. unfold _allocateEventHandler, _executeClientEvent.
    cbv zeta. cbn [lastEventHandlerId eventHandlers].
    split; [done|]. split; [done|].
    assert (Hnew : JsMap.get (eventHandlers t) (lastEventHandlerId t + 1) = None).
    { apply handler_get_none. intros Hx.
      eapply Forall_forall in Hkeys; [|exact Hx]. simpl in Hkeys. lia. }
    rewrite Hnew, handler_get_set. split; [done|]. split; [done|].
    intros other Hne. by rewrite handler_get_set_ne.
  - intros id data later Hid Hdead. unfold _executeClientEvent in *.
    destruct (JsMap.get (eventHandlers t) id) eqn:Hget; [done|].
    apply handler_get_none in Hget.
    destruct (handed_out_after later t (conj Hpos Hkeys)) as (_ & _ & Hold).
    assert (Hnone : JsMap.get (eventHandlers (handlersAfter later t)) id = None).
    { apply handler_get_none. intros Hx. apply Hget. by apply Hold. }
    by rewrite Hnone.
Qed.

End HandlerIds.

(** ** Element updates *)

Lemma js_length_ascii s : ascii_text s -> js_length s = Z.of_nat (String.length s).
Proof.
  unfold ascii_text, js_length. rewrite <- length_list_byte_of_string.
  induction 1 as [|b bs Hb _ IH]; [done|].
  cbn [foldr length]. rewrite IH. unfold utf16_units. cbv zeta.
  replace (Z.of_N (Byte.to_N b) <? 128) with true
    by (symmetry; apply Z.ltb_lt; lia).
  lia.
Qed.






(** ** ATTACH_ANCHOR commands for lists *)


Lemma tiled_app fields1 : forall a fields2,
  tiled a (fields1 ++ fields2) <->
  tiled a fields1 /\ tiled (a + Z.of_nat (length (concat fields1.*2))) fields2.
Proof.
  induction fields1 as [|f fields1 IH]; intros a fields2.
  - simpl. rewrite Z.add_0_r. tauto.
  - cbn [app tiled fmap list_fmap concat]. rewrite IH, length_app.
    replace (a + Z.of_nat (length f.2 + length (concat fields1.*2)))
      with (a + Z.of_nat (length f.2) + Z.of_nat (length (concat fields1.*2)))
      by lia.
    tauto.
Qed.




(** ** Event handlers of a block *)

Lemma bind_fields_tiled ids : forall offset,
  Forall (fun b => 0 <= b <= 65535) ids ->
  tiled offset (bind_fields ids offset) /\
  concat (bind_fields ids offset).*2 = concat (be16 <$> ids).
Proof.
  induction ids as [|id ids IH]; intros offset Hids; [done|].
  apply Forall_cons in Hids as [Hid Hids].
  destruct (IH (offset + 2) Hids) as [H1 H2].
  cbn [bind_fields tiled fmap list_fmap concat fst snd].
  rewrite H2, be16_length by done. done.
Qed.

Lemma writeBindIds_fields v ids : forall offset s,
  Forall (fun b => 0 <= b <= 65535) ids -> 0 <= offset ->
  offset + 2 * Z.of_nat (length ids) <= v_length v ->
  writeBindIds v ids offset s =
    Ret (offset + 2 * Z.of_nat (length ids))
        (mkWS (win s) (pokes_on v (bind_fields ids offset) (heap s))).
Proof.
  induction ids as [|id ids IH]; intros offset s Hids H0 Hfit.
  - simpl. unfold ret. rewrite Z.add_0_r. by destruct s.
  - apply Forall_cons in Hids as [Hid Hids]. cbn [length] in Hfit |- *.
    cbn [writeBindIds bind_fields].
    erewrite bind_Ret by (apply onHeap_Ret, writeUint16BE_inside; lia).
    rewrite IH by (done || cbn [win heap]; lia).
    cbn [win heap pokes_on foldl fst snd]. f_equal. lia.
Qed.

Lemma streamEventInitCommandV2_spec stream blockId targetId eventType clientFnId
    ids s :
  tight s stream ->
  0 <= blockId <= 65535 -> 0 <= targetId <= 255 -> 0 <= eventType <= 255 ->
  0 <= clientFnId <= 65535 -> Forall (fun b => 0 <= b <= 65535) ids ->
  9 + 2 * Z.of_nat (length ids) <= PAGE_SIZE ->
  exists s',
    _streamEventInitCommandV2 blockId targetId eventType clientFnId ids s
      = Ret tt s' /\
    appended s s' = event_command blockId targetId eventType clientFnId ids /\
    tight s' (stream ++ event_command blockId targetId eventType clientFnId ids).
Proof.
  intros Ht Hb Htg Hty Hc Hids Hsize. unfold _streamEventInitCommandV2.
  set (n := Z.of_nat (length ids)) in *.
  destruct (tight_alloc stream (1 + 2 + 1 + 1 + 2 + (n * 2 + 2)) s ltac:(lia) Ht)
    as (v & s1 & Hrun & Hvl & Hw).
  rewrite (bind_Ret _ _ _ _ _ Hrun).
  destruct (be8_byte targetId Htg) as (t1 & Ht1 & Hte).
  destruct (be8_byte eventType Hty) as (e1 & He1 & Hee).
  erewrite bind_Ret
    by (apply onHeap_Ret, (writeUint8_inside _ _ _ _ x05); [done|lia|lia]).
  erewrite bind_Ret
    by (apply (onHeap_Ret _ (mkWS _ _)), writeUint16BE_inside; lia).
  erewrite bind_Ret
    by (apply (onHeap_Ret _ (mkWS _ _)), (writeUint8_inside _ _ _ _ t1);
        [done|lia|lia]).
  erewrite bind_Ret
    by (apply (onHeap_Ret _ (mkWS _ _)), (writeUint8_inside _ _ _ _ e1);
        [done|lia|lia]).
  erewrite bind_Ret
    by (apply (onHeap_Ret _ (mkWS _ _)), writeUint16BE_inside; lia).
  erewrite bind_Ret
    by (apply writeBindIds_fields; [done|lia|cbn [win heap]; fold n; lia]).
  fold n.
  erewrite (onHeap_Ret _ (mkWS _ _))
    by (apply writeUint16BE_inside; cbn [win heap]; lia).
  cbn [win heap]. eexists. split; [reflexivity|].
  set (head := [(0, [x05]); (1, be16 blockId); (3, be8 targetId);
                (4, be8 eventType); (5, be16 clientFnId)]).
  set (fields := head ++ bind_fields ids 7 ++ [(7 + 2 * n, be16 0)]).
  pose proof (be16_length blockId Hb) as Hl1.
  pose proof (be16_length clientFnId Hc) as Hl2.
  pose proof (be16s_length ids Hids) as Hl3.
  destruct (bind_fields_tiled ids 7 Hids) as [Htile Hcat].
  assert (Hcmd : concat fields.*2 =
                 event_command blockId targetId eventType clientFnId ids).
  { unfold fields, head, event_command. rewrite !fmap_app, !concat_app, Hcat.
    cbn [fmap list_fmap concat snd]. rewrite !app_nil_r.
    by rewrite <- !app_assoc. }
  assert (Hcl : Z.of_nat (length
                  (event_command blockId targetId eventType clientFnId ids)) =
                9 + 2 * n).
  { unfold event_command. rewrite !length_app, Hl1, Hl2, Hl3, Hte, Hee.
    cbn [length]. lia. }
  destruct (written_fields _ stream v fields s1 Hw) as [Hw' Hv'].
  { unfold fields. apply tiled_app. split.
    - unfold head. cbn [tiled fst snd]. rewrite Hl1, Hte, Hee. cbn [length].
      split_and!; done.
    - unfold head. cbn [fmap list_fmap concat snd].
      rewrite app_nil_r, !length_app, Hl1, Hl2, Hte, Hee.
      cbn [length]. apply tiled_app. split; [exact Htile|].
      rewrite Hcat, Hl3. cbn [tiled fst snd]. split; [lia|done]. }
  { rewrite Hcmd, Hcl. lia. }
  cbn zeta in Hw', Hv'. rewrite Hcmd in Hv'.
  assert (Hstate : pokes_on v fields (heap s1) =
            poke (pokes_on v (bind_fields ids 7) (pokes_on v head (heap s1)))
                 v (7 + 2 * n) (be16 0)).
  { unfold fields, pokes_on. by rewrite !foldl_app. }
  rewrite <- Hte, <- Hee.
  change (poke (pokes_on v (bind_fields ids 7) _) v (7 + 2 * n) (be16 0))
    with (poke (pokes_on v (bind_fields ids 7) (pokes_on v head (heap s1)))
               v (7 + 2 * n) (be16 0)).
  rewrite <- Hstate.
  split.
  - by rewrite (appended_view _ stream v _ Hw').
  - rewrite <- Hv'. apply Hw'.
Qed.

Lemma writeUint16BE_cases v value offset h :
  (exists h', writeUint16BE v value offset h = Ret tt h') \/
  writeUint16BE v value offset h = Throw RangeError h.
Proof.
  unfold writeUint16BE. destruct (_ && _); [|by right].
  destruct (byte_of_Z _); [|by right]. destruct (byte_of_Z _); [|by right].
  destruct (_ && _); [left; eauto|by right].
Qed.

Lemma writeUint16BE_outside v value offset h :
  ~ 0 <= value <= 65535 -> writeUint16BE v value offset h = Throw RangeError h.
Proof.
  intros Hv. unfold writeUint16BE.
  destruct (0 <=? value) eqn:H0; [|done]. destruct (value <=? 65535) eqn:H1; [|done].
  apply Z.leb_le in H0, H1. lia.
Qed.

(** Among the ids is one that does not fit two bytes: the loop that writes
    them throws, having written inside the range only. *)
Lemma writeBindIds_overflow v ids : forall offset s,
  view_ok (heap s) v -> ~ Forall (fun b => 0 <= b <= 65535) ids ->
  exists h',
    writeBindIds v ids offset s = Throw RangeError (mkWS (win s) h') /\
    within v (heap s) h'.
Proof.
  induction ids as [|id ids IH]; intros offset s Hok Hbad.
  - destruct Hbad. constructor.
  - cbn [writeBindIds].
    pose proof (within_writeUint16BE v id offset (heap s) Hok) as Hin.
    destruct (writeUint16BE_cases v id offset (heap s)) as [[h1 Hret]|Hthrow].
    + rewrite Hret in Hin. cbn [state_of] in Hin.
      erewrite bind_Ret by (apply onHeap_Ret; exact Hret).
      destruct (decide (0 <= id <= 65535)) as [Hid|Hid].
      * destruct (IH (offset + 2) (mkWS (win s) h1)) as (h' & Hrun & Hin').
        { cbn [heap]. by eapply within_view_ok. }
        { intros Hall. apply Hbad. by constructor. }
        exists h'. split; [done|]. by eapply within_trans.
      * by rewrite (writeUint16BE_outside v id offset (heap s) Hid) in Hret.
    + exists (heap s). split; [|apply within_refl].
      apply bind_Throw. unfold onHeap. rewrite Hthrow. by destruct s.
Qed.

(** The ATTACH_EVENT_V2 command with an id that does not fit two bytes: the
    range has been requested and the head of the command written when the
    id is rejected. *)
Lemma streamEventInitCommandV2_overflow stream blockId targetId eventType clientFnId
    ids s :
  tight s stream ->
  0 <= blockId <= 65535 -> 0 <= targetId <= 255 -> 0 <= eventType <= 255 ->
  0 <= clientFnId <= 65535 -> ~ Forall (fun b => 0 <= b <= 65535) ids ->
  9 + 2 * Z.of_nat (length ids) <= PAGE_SIZE ->
  exists s',
    _streamEventInitCommandV2 blockId targetId eventType clientFnId ids s
      = Throw RangeError s' /\
    global_writeOffset (win s') =
      global_writeOffset (win s) + (9 + 2 * Z.of_nat (length ids)) /\
    tight s' (stream ++ appended s s').
Proof.
  intros Ht Hb Htg Hty Hc Hids Hsize. unfold _streamEventInitCommandV2.
  set (n := Z.of_nat (length ids)) in *.
  destruct (tight_alloc stream (1 + 2 + 1 + 1 + 2 + (n * 2 + 2)) s ltac:(lia) Ht)
    as (v & s1 & Hrun & Hvl & Hw).
  rewrite (bind_Ret _ _ _ _ _ Hrun).
  destruct (be8_byte targetId Htg) as (t1 & Ht1 & Hte).
  destruct (be8_byte eventType Hty) as (e1 & He1 & Hee).
  erewrite bind_Ret
    by (apply onHeap_Ret, (writeUint8_inside _ _ _ _ x05); [done|lia|lia]).
  erewrite bind_Ret
    by (apply (onHeap_Ret _ (mkWS _ _)), writeUint16BE_inside; lia).
  erewrite bind_Ret
    by (apply (onHeap_Ret _ (mkWS _ _)), (writeUint8_inside _ _ _ _ t1);
        [done|lia|lia]).
  erewrite bind_Ret
    by (apply (onHeap_Ret _ (mkWS _ _)), (writeUint8_inside _ _ _ _ e1);
        [done|lia|lia]).
  erewrite bind_Ret
    by (apply (onHeap_Ret _ (mkWS _ _)), writeUint16BE_inside; lia).
  cbn [win heap].
  set (head := [(0, [x05]); (1, be16 blockId); (3, be8 targetId);
                (4, be8 eventType); (5, be16 clientFnId)]).
  rewrite <- Hte, <- Hee.
  match goal with |- context [mkWS (win s1) ?h] =>
    change h with (pokes_on v head (heap s1)) end.
  pose proof (be16_length blockId Hb) as Hl1.
  pose proof (be16_length clientFnId Hc) as Hl2.
  destruct (pokes_on_view v head (heap s1) 0 (wr_ok _ _ _ _ Hw)) as [Hin _].
  { unfold head. cbn [tiled fst snd]. rewrite Hl1, Hte, Hee. cbn [length].
    split_and!; done. }
  { lia. }
  { unfold head. cbn [fmap list_fmap concat snd].
    rewrite app_nil_r, !length_app, Hl1, Hl2, Hte, Hee. cbn [length]. lia. }
  destruct (writeBindIds_overflow v ids 7 (mkWS (win s1) (pokes_on v head (heap s1))))
    as (h' & Hthrow & Hin'); [|done|].
  { cbn [heap]. eapply within_view_ok; [exact Hin|]. apply Hw. }
  rewrite (bind_Throw _ _ _ _ _ Hthrow). cbn [win heap] in *.
  eexists. split; [reflexivity|].
  pose proof (written_within _ stream v s1 h' (within_trans _ _ _ _ Hin Hin') Hw)
    as Hw'.
  cbn [win]. split.
  - destruct Hw as [_ (p & _ & Hv0) _ _]. rewrite Hv0 in Hvl. simpl in Hvl. lia.
  - rewrite (appended_view _ stream v _ Hw'). apply Hw'.
Qed.

Section BlockEventIds.
Context {Handler Data : Type} (clientFnString : Z -> string).

Lemma allocateHandlers_spec binds : forall σ : @Session Handler,
  handed_out (table σ) ->
  exists t',
    allocateHandlers binds σ =
      Ret (seqZ (lastEventHandlerId (table σ) + 1) (Z.of_nat (length binds)))
          (mkSession (ws σ) t' (clientFunctionInstallationSet σ)) /\
    handed_out t' /\
    lastEventHandlerId t' =
      lastEventHandlerId (table σ) + Z.of_nat (length binds) /\
    (forall k f, binds !! k = Some f ->
       JsMap.get (eventHandlers t') (lastEventHandlerId (table σ) + 1 + Z.of_nat k)
         = Some f) /\
    (forall id, id <= lastEventHandlerId (table σ) ->
       JsMap.get (eventHandlers t') id = JsMap.get (eventHandlers (table σ)) id).
Proof.
  induction binds as [|f binds IH]; intros σ Hσ.
  - exists (table σ). cbn [allocateHandlers length]. unfold ret.
    split; [by destruct σ|]. split; [done|]. split; [lia|]. by split.
  - cbn [allocateHandlers]. unfold bind at 1. unfold allocateHandler.
    set (last := lastEventHandlerId (table σ)) in *.
    cbn [_allocateEventHandler lastEventHandlerId eventHandlers]. fold last.
    set (t1 := mkHandlers (last + 1) (JsMap.set (eventHandlers (table σ)) (last + 1) f)).
    set (σ1 := mkSession (ws σ) t1 (clientFunctionInstallationSet σ)).
    assert (H1 : handed_out (table σ1)).
    { destruct Hσ as [H0 Hk]. fold last in H0, Hk. split; [simpl; lia|].
      cbn [σ1 table t1 lastEventHandlerId eventHandlers].
      apply Forall_forall. intros x Hx.
      apply handler_set_keys in Hx as [->|Hx]; [lia|].
      eapply Forall_forall in Hk; [|exact Hx]. simpl in Hk. lia. }
    destruct (IH σ1 H1) as (t' & Hrun & Ht' & Hlast & Hget & Hold).
    cbn [σ1 table ws clientFunctionInstallationSet t1 lastEventHandlerId] in Hrun, Hlast, Hget, Hold.
    exists t'. unfold bind. rewrite Hrun. unfold ret. cbn [length].
    split.
    { f_equal. rewrite (seqZ_cons (last + 1)) by lia. f_equal. f_equal; lia. }
    split; [done|]. split; [lia|]. split.
    + intros [|k] g Hk; cbn [lookup list_lookup] in Hk.
      * injection Hk as <-. rewrite Hold by lia.
        cbn [eventHandlers]. replace (last + 1 + Z.of_nat 0) with (last + 1) by lia.
        apply handler_get_set.
      * replace (last + 1 + Z.of_nat (S k)) with (last + 1 + 1 + Z.of_nat k) by lia.
        by apply Hget.
    + intros id Hid. rewrite Hold by lia. cbn [eventHandlers].
      apply handler_get_set_ne. lia.
Qed.

Lemma streamFunctionInstallCommand_spec stream functionId (σ : @Session Handler) :
  tight (ws σ) stream ->
  (1 < functionId -> functionId ∉ clientFunctionInstallationSet σ ->
   functionId <= 65535 /\ ascii_text (clientFnString functionId) /\
   Z.of_nat (String.length (clientFnString functionId)) <= 65535 /\
   5 + Z.of_nat (String.length (clientFnString functionId)) <= PAGE_SIZE) ->
  let sent :=
    if (functionId >? 1)
       && negb (bool_decide (functionId ∈ clientFunctionInstallationSet σ))
    then install_command functionId (clientFnString functionId) else [] in
  exists σ',
    _streamFunctionInstallCommand clientFnString functionId σ = Ret tt σ' /\
    tight (ws σ') (stream ++ sent) /\
    table σ' = table σ /\
    (1 < functionId -> functionId ∈ clientFunctionInstallationSet σ').
Proof.
  intros Ht Hfn sent. subst sent. unfold _streamFunctionInstallCommand.
  rewrite (bind_Ret get _ σ σ σ) by done.
  destruct (functionId >? 1) eqn:Hgt; cbn [andb].
  2:{ exists σ. rewrite app_nil_r.
      split; [done|]. split; [done|]. split; [done|].
      rewrite Z.gtb_ltb in Hgt. apply Z.ltb_ge in Hgt. lia. }
  apply Z.gtb_lt in Hgt.
  destruct (bool_decide (functionId ∈ clientFunctionInstallationSet σ)) eqn:Hin;
    cbn [negb].
  { exists σ. rewrite app_nil_r.
    split; [done|]. split; [done|]. split; [done|].
    intros _. by apply bool_decide_eq_true in Hin. }
  apply bool_decide_eq_false in Hin.
  destruct (Hfn ltac:(lia) Hin) as (Hid & Hascii & Hlen & Hpage).
  cbv zeta.
  rewrite js_length_ascii by done.
  set (text := clientFnString functionId) in *.
  set (L := Z.of_nat (String.length text)) in *.
  set (bs := String.list_byte_of_string text).
  assert (Hbl : Z.of_nat (length bs) = L)
    by (unfold bs; by rewrite length_list_byte_of_string).
  destruct (tight_alloc stream (1 + 2 + 2 + L) (ws σ) ltac:(lia) Ht)
    as (v & s1 & Hrun & Hvl & Hw).
  assert (Hlift : forall A (m : M WS A) a s s' (t : @Handlers Handler) i,
            m s = Ret a s' ->
            onWS m (mkSession s t i) = Ret a (mkSession s' t i)).
  { intros A m a s s' t i Hm. unfold onWS. cbn [ws table clientFunctionInstallationSet].
    by rewrite Hm. }
  destruct σ as [s t installed]. cbn [ws table clientFunctionInstallationSet] in *.
  erewrite bind_Ret by (apply Hlift; exact Hrun).
  erewrite bind_Ret
    by (apply Hlift, onHeap_Ret, (writeUint8_inside _ _ _ _ x0a); [done|lia|lia]).
  erewrite bind_Ret
    by (apply Hlift, (onHeap_Ret _ (mkWS _ _)), writeUint16BE_inside; lia).
  erewrite bind_Ret
    by (apply Hlift, (onHeap_Ret _ (mkWS _ _)), writeUint16BE_inside; lia).
  replace (v_length v - 5) with (Z.of_nat (length bs)) by lia.
  erewrite bind_Ret
    by (apply Hlift, (onHeap_Ret _ (mkWS _ _)), write_inside; cbn [win heap]; lia).
  unfold modify. cbn [ws table clientFunctionInstallationSet win heap].
  eexists. split; [reflexivity|].
  cbn [ws table clientFunctionInstallationSet].
  set (fields := [(0, [x0a]); (1, be16 functionId); (3, be16 L); (5, bs)]).
  pose proof (be16_length functionId ltac:(lia)) as Hl1.
  pose proof (be16_length L ltac:(lia)) as Hl2.
  destruct (written_fields _ stream v fields s1 Hw) as [Hw' Hv'].
  { cbn [tiled fields fst snd]. rewrite Hl1, Hl2. cbn [length].
    split_and!; done. }
  { unfold fields. cbn [fmap list_fmap concat snd].
    rewrite app_nil_r, !length_app, Hl1, Hl2. cbn [length]. lia. }
  cbn zeta in Hw', Hv'.
  assert (Hcmd : concat fields.*2 = install_command functionId text).
  { unfold fields, install_command. cbn [fmap list_fmap concat snd].
    by rewrite app_nil_r. }
  rewrite Hcmd in Hv'.
  change (mkWS (win s1) _) with (mkWS (win s1) (pokes_on v fields (heap s1))).
  split; [rewrite <- Hv'; apply Hw'|]. split; [done|].
  intros _. apply elem_of_app. right. by apply list_elem_of_singleton.
Qed.

(** X15. The handler ids in a command are the ids of the registered
    handlers, as long as they fit two bytes.  For an event handler of a
    block that stands for a client function and [n] bound server functions
    (a plain server function counts as the built-in client function 1 with
    itself bound), on a window after any history of commands that fit a
    page and a handler table in which every id has been handed out, with a
    block id and a client function id below 65536, an element id and an
    event type below 256, a command that fits a page and a client function
    whose text can be installed: the body of the loop of
    [_handleBlockEventHandlers] hands out the next [n] ids and installs
    the client function first if its id is above 1 and it is not installed
    yet.  If no id is handed out or the last of them is at most 65535, it
    then appends the ATTACH_EVENT_V2 command that lists exactly these ids
    in order, and an event for the [k]-th of them runs the [k]-th bound
    function.  If the last id handed out is above 65535, the handlers are
    registered all the same and an event for the [k]-th id runs the [k]-th
    bound function, but the call throws a RangeError where the command
    writes that id, after the range of the command has been requested. *)
Theorem event_command_names_registered_handlers windowId newPort now h ops
    (t : @Handlers Handler) installed newBlockId eventHandler clientFnId binds :
  heap_ok h -> 22 < PAGE_SIZE -> Forall fits ops ->
  handed_out t ->
  bound_fns (fn eventHandler) = Some (clientFnId, binds) ->
  0 <= newBlockId <= 65535 ->
  0 <= targetId eventHandler <= 255 -> 0 <= type eventHandler <= 255 ->
  0 <= clientFnId <= 65535 ->
  9 + 2 * Z.of_nat (length binds) <= PAGE_SIZE ->
  (1 < clientFnId -> clientFnId ∉ installed ->
   ascii_text (clientFnString clientFnId) /\
   Z.of_nat (String.length (clientFnString clientFnId)) <= 65535 /\
   5 + Z.of_nat (String.length (clientFnString clientFnId)) <= PAGE_SIZE) ->
  let σ := mkSession (window_after windowId newPort now h ops) t installed in
  let stream := stream_of windowId newPort now h ops in
  let ids := seqZ (lastEventHandlerId t + 1) (Z.of_nat (length binds)) in
  let install :=
    if (clientFnId >? 1) && negb (bool_decide (clientFnId ∈ installed))
    then install_command clientFnId (clientFnString clientFnId) else [] in
  (binds = [] \/ lastEventHandlerId t + Z.of_nat (length binds) <= 65535 ->
   exists σ',
     handleEventHandler clientFnString newBlockId eventHandler σ = Ret ids σ' /\
     tight (ws σ')
       (stream ++ install ++
        event_command newBlockId (targetId eventHandler) (type eventHandler)
                      clientFnId ids) /\
     lastEventHandlerId (table σ') =
       lastEventHandlerId t + Z.of_nat (length binds) /\
     (forall k f (data : Data),
        binds !! k = Some f ->
        _executeClientEvent (lastEventHandlerId t + 1 + Z.of_nat k) data (table σ')
          = Some (f, data)) /\
     (1 < clientFnId -> clientFnId ∈ clientFunctionInstallationSet σ')) /\
  (binds <> [] -> 65535 < lastEventHandlerId t + Z.of_nat (length binds) ->
   exists σ' rest,
     handleEventHandler clientFnString newBlockId eventHandler σ
       = Throw RangeError σ' /\
     tight (ws σ') (stream ++ install ++ rest) /\
     Z.of_nat (length rest) = 9 + 2 * Z.of_nat (length binds) /\
     lastEventHandlerId (table σ') =
       lastEventHandlerId t + Z.of_nat (length binds) /\
     (forall k f (data : Data),
        binds !! k = Some f ->
        _executeClientEvent (lastEventHandlerId t + 1 + Z.of_nat k) data (table σ')
          = Some (f, data)) /\
     (1 < clientFnId -> clientFnId ∈ clientFunctionInstallationSet σ')).
Proof.
  intros Hh Hsize Hfit Ht Hfn Hb Htg Hty Hc Hpage Htext σ stream ids install.
  assert (Htight : tight (ws σ) stream) by (by apply tight_window_after).
  assert (Hgo : handleEventHandler clientFnString newBlockId eventHandler σ =
            (serverBindIds <- allocateHandlers binds ;;
             _streamFunctionInstallCommand clientFnString clientFnId ;;;
             onWS (_streamEventInitCommandV2 newBlockId (targetId eventHandler)
                     (type eventHandler) clientFnId serverBindIds) ;;;
             ret serverBindIds) σ).
  { unfold handleEventHandler. destruct (fn eventHandler) as [|f|c bs|];
      cbn [bound_fns] in Hfn; try done.
    - by injection Hfn as <- <-.
    - destruct (c =? 0); [done|]. by injection Hfn as <- <-. }
  rewrite Hgo.
  destruct (allocateHandlers_spec binds σ Ht)
    as (t' & Hrun & Ht' & Hlast' & Hget & _).
  cbn [σ ws table clientFunctionInstallationSet] in Hrun, Hlast', Hget.
  rewrite (bind_Ret _ _ _ _ _ Hrun). fold ids.
  set (σ1 := mkSession (window_after windowId newPort now h ops) t' installed).
  destruct (streamFunctionInstallCommand_spec stream clientFnId σ1 Htight)
    as (σ2 & Hrun2 & Ht2 & Htab2 & Hinst2).
  { intros Hgt Hnin. destruct (Htext Hgt Hnin) as (? & ? & ?). split_and!; try done. lia. }
  cbn [σ1 clientFunctionInstallationSet] in Ht2. fold install in Ht2.
  rewrite (bind_Ret _ _ _ _ _ Hrun2).
  assert (Hlen : length ids = length binds).
  { unfold ids. rewrite length_seqZ. lia. }
  split.
  - intros Hlast.
    assert (Hids : Forall (fun b => 0 <= b <= 65535) ids).
    { destruct Hlast as [->|Hlast]; [constructor|].
      apply Forall_forall. intros x Hx. unfold ids in Hx.
      apply elem_of_seqZ in Hx. destruct Ht as [H0 _]. lia. }
    destruct (streamEventInitCommandV2_spec (stream ++ install) newBlockId
                (targetId eventHandler) (type eventHandler) clientFnId ids (ws σ2)
                Ht2 Hb Htg Hty Hc Hids ltac:(rewrite Hlen; lia))
      as (s3 & Hrun3 & _ & Ht3).
    unfold bind at 1. unfold onWS. rewrite Hrun3. unfold ret.
    eexists. split; [reflexivity|]. cbn [ws table clientFunctionInstallationSet].
    split; [by rewrite <- app_assoc in Ht3|]. rewrite Htab2. cbn [σ1 table].
    split; [done|]. split.
    + intros k f data Hk. unfold _executeClientEvent. by rewrite (Hget k f Hk).
    + done.
  - intros Hne Hlast.
    assert (Hids : ~ Forall (fun b => 0 <= b <= 65535) ids).
    { intros Hall. rewrite Forall_forall in Hall.
      assert (Hin : lastEventHandlerId t + Z.of_nat (length binds) ∈ ids).
      { unfold ids. apply elem_of_seqZ. destruct binds; [done|]. simpl. lia. }
      specialize (Hall _ Hin). simpl in Hall. lia. }
    destruct (streamEventInitCommandV2_overflow (stream ++ install) newBlockId
                (targetId eventHandler) (type eventHandler) clientFnId ids (ws σ2)
                Ht2 Hb Htg Hty Hc Hids ltac:(rewrite Hlen; lia))
      as (s3 & Hrun3 & Hwo3 & Ht3).
    unfold bind at 1. unfold onWS. rewrite Hrun3.
    eexists _, (appended (ws σ2) s3). split; [reflexivity|].
    cbn [ws table clientFunctionInstallationSet].
    split; [by rewrite <- app_assoc in Ht3|]. split.
    { pose proof (ti_length _ _ Ht3) as H3. pose proof (ti_length _ _ Ht2) as H2.
      rewrite length_app in H3. rewrite Hlen in Hwo3. lia. }
    rewrite Htab2. cbn [σ1 table]. split; [done|]. split.
    + intros k f data Hk. unfold _executeClientEvent. by rewrite (Hget k f Hk).
    + done.
Qed.

End BlockEventIds.

(** ** Replay on reconnect *)











(** ** The sweep runs to its end *)

Lemma store_ok_poke h v off bs : store_ok h -> store_ok (poke h v off bs).
Proof.
  intros [H1 H2]. unfold poke.
  destruct (bufs h !! v_buffer v) as [c|] eqn:Hc; [|done].
  split; simpl; rewrite ?length_insert; [|done].
  apply Forall_insert; [done|]. rewrite length_blit.
  eapply Forall_lookup_1 in H1; eauto.
Qed.

Lemma length_bufs_poke h v off bs : length (bufs (poke h v off bs)) = length (bufs h).
Proof.
  unfold poke. destruct (bufs h !! v_buffer v); [|done].
  simpl. by rewrite length_insert.
Qed.

Lemma sound_frame s w' h' :
  objs w' = objs (win s) -> pages w' = pages (win s) ->
  mutationGroup w' = mutationGroup (win s) ->
  global_writeOffset (win s) <= global_writeOffset w' ->
  0 <= deleteBlockCount w' <= 1000 ->
  store_ok h' -> grows (heap s) h' ->
  sound s -> sound (mkWS w' h').
Proof.
  intros Ho Hp Hm Hw Hc Hst Hg [H1 H2 H3 H4 H5]. split; simpl; try done.
  - by eapply wf_frame.
  - unfold tail_page. rewrite Hp, Ho. intros p Htp.
    specialize (H2 p Htp). lia.
  - rewrite Ho. intros r p Hrp. specialize (H4 r p Hrp). unfold grows in Hg. lia.
Qed.

Lemma sound_poke s v off bs : sound s -> sound (mkWS (win s) (poke (heap s) v off bs)).
Proof.
  intros Hs. apply (sound_frame s); try done; try lia.
  - apply Hs.
  - apply store_ok_poke, Hs.
  - unfold grows. by rewrite length_bufs_poke.
Qed.

Lemma bufferPool_alloc_store h b h' :
  0 <= PAGE_SIZE -> store_ok h -> bufferPool_alloc h = Ret b h' ->
  store_ok h' /\ (b < length (bufs h'))%nat /\ grows h h' /\
  buffer_length h' b = PAGE_SIZE.
Proof.
  intros Hpos [H1 H2]. unfold bufferPool_alloc, grows, buffer_length.
  destruct (pool h) as [|b0 rest] eqn:Hpool; intros [= <- <-]; simpl.
  - split_and!.
    + split; simpl; [|done].
      apply Forall_app. split; [done|]. repeat constructor.
      by rewrite length_replicate.
    + rewrite length_app. simpl. lia.
    + rewrite length_app. lia.
    + rewrite lookup_app_r by lia. rewrite Nat.sub_diag. simpl.
      rewrite length_replicate. lia.
  - apply Forall_cons in H2 as [Hb Hrest].
    split_and!; [by split|done|done|].
    apply lookup_lt_is_Some in Hb as [c Hc]. rewrite Hc.
    eapply Forall_lookup_1 in H1; [|exact Hc]. simpl in H1. lia.
Qed.

Lemma sound_buffer_length s r p :
  0 <= PAGE_SIZE -> sound s -> objs (win s) !! r = Some p ->
  buffer_length (heap s) (buffer p) = PAGE_SIZE.
Proof.
  intros Hpos Hs Hp. unfold buffer_length.
  pose proof (so_buffers _ Hs _ _ Hp) as Hlt.
  apply lookup_lt_is_Some in Hlt as [c Hc]. rewrite Hc.
  pose proof (st_blocks _ (so_store _ Hs)) as Hb.
  eapply Forall_lookup_1 in Hb; [|exact Hc]. simpl in Hb. lia.
Qed.

(** A command that fits a page is given exactly the range it asks for,
    and the window stays sound. *)
Lemma sound_alloc size s :
  0 <= size <= PAGE_SIZE -> sound s ->
  exists v s1,
    _allocCommandBuffer size s = Ret v s1 /\
    v_length v = size /\ sound s1 /\ grows (heap s) (heap s1) /\
    deleteBlockCount (win s1) = deleteBlockCount (win s) /\
    deleteBlockCommandBuffer (win s1) = deleteBlockCommandBuffer (win s).
Proof.
  intros Hsize Hs.
  pose proof (wf_alloc size s (so_wf _ Hs)) as Hwf'.
  destruct (alloc_spec size s (so_wf _ Hs)) as (r & p & Hlast & Hp & Hfin & Hcase).
  cbn zeta in Hcase.
  assert (Htp : tail_page (win s) = Some p) by (unfold tail_page; by rewrite Hlast).
  pose proof (so_tail _ Hs p Htp) as Hhead.
  assert (Hr : (r < length (objs (win s)))%nat) by (by eapply lookup_lt_Some).
  destruct (_ >=? PAGE_SIZE) eqn:Hov.
  - destruct Hcase as (b & h' & Hb & Hrun). rewrite Hrun in Hwf'.
    destruct (bufferPool_alloc_store _ _ _ ltac:(lia) (so_store _ Hs) Hb)
      as (Hst & Hblt & Hg & Hlen).
    eexists _, _. split; [exact Hrun|].
    rewrite subarray_whole_exact by lia.
    split; [done|]. split; [|done].
    split; simpl; try done.
    + unfold tail_page. simpl. rewrite last_snoc.
      rewrite lookup_app_r by (rewrite length_insert; lia).
      rewrite length_insert, Nat.sub_diag. simpl. intros q [= <-]. simpl. lia.
    + intros r' q Hq. unfold grows in Hg.
      apply lookup_app_Some in Hq as [Hq|[_ Hq]].
      * apply list_lookup_insert_Some in Hq as [(-> & <- & _)|[_ Hq]]; simpl.
        -- pose proof (so_buffers _ Hs _ _ Hp). lia.
        -- pose proof (so_buffers _ Hs _ _ Hq). lia.
      * rewrite length_insert in Hq.
        destruct (r' - length (objs (win s)))%nat; simpl in Hq; [|done].
        injection Hq as <-. done.
    + apply Hs.
  - rewrite Hcase in Hwf'. rewrite Z.geb_leb in Hov. apply Z.leb_gt in Hov.
    eexists _, _. split; [exact Hcase|].
    rewrite subarray_whole_exact;
      [|lia|lia|rewrite (sound_buffer_length s r p) by (done || lia); lia].
    split; [done|]. split; [|by unfold grows].
    split; simpl; try done; try apply Hs.
    unfold tail_page. simpl. rewrite Hlast, Hp. intros q [= <-]. lia.
Qed.

Lemma sound_flushBlockDeleteQueue s :
  2003 <= PAGE_SIZE -> sound s ->
  exists s',
    flushBlockDeleteQueue s = Ret tt s' /\ sound s' /\ grows (heap s) (heap s').
Proof.
  intros Hsize Hs. unfold flushBlockDeleteQueue.
  rewrite (bind_Ret getW _ s (win s) s) by done.
  pose proof (so_count _ Hs) as Hc.
  destruct (deleteBlockCount (win s) >? 0) eqn:Hpos.
  2:{ exists s. split; [done|]. split; [done|]. by unfold grows. }
  apply Z.gtb_lt in Hpos.
  set (c := deleteBlockCount (win s)) in *.
  destruct (sound_alloc (1 + 2 * c + 2) s ltac:(lia) Hs)
    as (v & s1 & Hrun & Hvl & Hs1 & Hg & _).
  rewrite (bind_Ret _ _ _ _ _ Hrun).
  erewrite bind_Ret
    by (apply onHeap_Ret, (writeUint8_inside _ _ _ _ x09); [done|lia|lia]).
  erewrite bind_Ret
    by (apply (onHeap_Ret _ (mkWS _ _)), copy_into_inside; lia).
  erewrite bind_Ret
    by (apply (onHeap_Ret _ (mkWS _ _)), writeUint16BE_inside; lia).
  eexists. split; [reflexivity|]. cbn [win heap].
  match goal with |- sound (mkWS _ ?h) /\ _ => set (h3 := h) end.
  assert (H3 : sound (mkWS (win s1) h3)).
  { subst h3. repeat apply (sound_poke (mkWS _ _)). by destruct s1. }
  split.
  - apply (sound_frame (mkWS (win s1) h3)); cbn [win heap];
      [done|done|done|simpl; lia|simpl; lia|apply H3|by unfold grows|done].
  - unfold grows in *. subst h3. rewrite !length_bufs_poke. done.
Qed.

(** ** The manager's worlds are sound *)

Lemma write_returns v bs offset len h :
  0 <= offset <= v_length v -> 0 <= len <= v_length v ->
  exists written, write v bs offset len h = Ret tt (poke h v offset written).
Proof.
  intros H0 H1. unfold write.
  replace (0 <=? offset) with true by (symmetry; apply Z.leb_le; lia).
  replace (offset <=? v_length v) with true by (symmetry; apply Z.leb_le; lia).
  replace (0 <=? len) with true by (symmetry; apply Z.leb_le; lia).
  replace (len <=? v_length v) with true by (symmetry; apply Z.leb_le; lia).
  simpl. eauto.
Qed.

(** The constructor on a sound store returns a sound window without a
    destroy callback. *)
Lemma sound_construct windowId newPort now h :
  22 < PAGE_SIZE -> store_ok h ->
  exists s,
    construct windowId newPort now h = Ret tt s /\ sound s /\
    grows h (heap s) /\ destroyFnCallback (win s) = None.
Proof.
  intros Hsize Hh. unfold construct, _streamInitWindow.
  destruct (alloc_first (1 + 21) (mkWS (blank windowId newPort now) h))
    as (b & h' & s1 & Hb & Hs1 & Hwf & Hrun); [reflexivity..|].
  destruct (bufferPool_alloc_store _ _ _ ltac:(lia) Hh Hb)
    as (Hst & Hblt & Hg & Hlen).
  assert (Hsound1 : sound s1).
  { subst s1. split; simpl in *; try done.
    - unfold tail_page. simpl. intros p [= <-]. simpl. lia.
    - intros [|[|r]] p; simpl; intros [= <-]; simpl; lia. }
  destruct (sound_alloc (1 + 21) s1 ltac:(lia) Hsound1)
    as (v & s2 & Hrun2 & Hvl & Hs2 & Hg2 & _).
  assert (Hcb : destroyFnCallback (win s2) = None).
  { pose proof (keeps_state_of _ _ s1
                  (session_alloc (win s1) (1 + 21)) ltac:(by split)) as H.
    rewrite Hrun2 in H. destruct H as (H & _). simpl in H. rewrite H.
    by subst s1. }
  unfold bind at 1. rewrite Hrun, Hrun2.
  rewrite (bind_Ret getW _ s2 (win s2) s2) by done.
  erewrite bind_Ret
    by (apply onHeap_Ret, (writeUint8_inside _ _ _ _ x02); [done|lia|lia]).
  destruct (write_returns v (String.list_byte_of_string (id (win s2))) 1 21
              (poke (heap s2) v 0 [x02])) as (written & Hw); [lia..|].
  rewrite (onHeap_Ret _ (mkWS (win s2) _) _ _ Hw).
  eexists. split; [reflexivity|]. cbn [win heap]. split; [|split; [|done]].
  - repeat apply (sound_poke (mkWS _ _)). by destruct s2.
  - unfold grows in *. rewrite !length_bufs_poke. subst s1. simpl in Hg2. lia.
Qed.

Lemma JsMap_get_set_ne {V} (m : list (string * V)) k k' v :
  k' <> k -> JsMap.get (JsMap.set m k v) k' = JsMap.get m k'.
Proof.
  intros Hne. induction m as [|[k1 v1] m IH]; simpl.
  - by rewrite decide_False.
  - destruct (decide (k1 = k)) as [->|]; simpl.
    + by rewrite !decide_False.
    + destruct (decide (k1 = k')); [done|apply IH].
Qed.

Lemma JsMap_set_in {V} (m : list (string * V)) k v x :
  x ∈ (JsMap.set m k v).*1 -> x = k \/ x ∈ m.*1.
Proof.
  induction m as [|[k1 v1] m IH]; simpl.
  - rewrite list_elem_of_singleton. by left.
  - destruct (decide (k1 = k)) as [->|]; simpl; rewrite !elem_of_cons.
    + intros [->|Hx]; [by left|right; by right].
    + intros [->|Hx]; [right; by left|].
      destruct (IH Hx) as [->|?]; [by left|right; by right].
Qed.

Lemma JsMap_set_keys {V} (m : list (string * V)) k v :
  NoDup m.*1 -> NoDup (JsMap.set m k v).*1.
Proof.
  induction m as [|[k1 v1] m IH]; simpl; intros Hnd.
  - apply NoDup_singleton.
  - apply NoDup_cons in Hnd as [Hn Hnd].
    destruct (decide (k1 = k)) as [->|Hne]; simpl.
    + by apply NoDup_cons.
    + apply NoDup_cons. split; [|by apply IH].
      intros Hin. by destruct (JsMap_set_in _ _ _ _ Hin).
Qed.

Lemma world_ok_newManager h : store_ok h -> world_ok (newManager h).
Proof.
  intros Hh. split; [split| |]; simpl; try done. constructor.
Qed.

(** [initWindow] on a sound manager returns, and the manager with the new
    session is sound. *)
Lemma world_ok_initWindow windowId port2 now σ :
  22 < PAGE_SIZE -> world_ok σ ->
  returned (initWindow windowId port2 now σ) = Some tt /\
  world_ok (state_of (initWindow windowId port2 now σ)).
Proof.
  intros Hsize [Hreg Hst Hwin].
  destruct (sound_construct windowId port2 now (store σ) Hsize Hst)
    as (s & Hc & Hs & Hg & Hcb).
  set (r := length (wins σ)).
  set (σ1 := set_store (heap s) (set_wins (wins σ ++ [win s]) σ)).
  set (σ2 := set_windowMap (JsMap.set (windowMap σ1) windowId r) σ1).
  set (w' := set_destroyFnCallback (Some windowId) (win s)).
  assert (Hr : wins σ2 !! r = Some (win s)).
  { unfold σ2, σ1, r. simpl. rewrite lookup_app_r by lia.
    by rewrite Nat.sub_diag. }
  assert (E : initWindow windowId port2 now σ =
              Ret tt (upd r (mkWS w' (store σ2)) σ2)).
  { unfold initWindow. rewrite Hc. cbn [state_of]. fold r. fold σ1.
    unfold bind, modify. fold σ2. by rewrite (onWindow_eq _ _ _ _ Hr). }
  rewrite E. cbn [state_of returned]. split; [done|].
  assert (Hold : forall r' w, wins σ !! r' = Some w ->
            wins (upd r (mkWS w' (store σ2)) σ2) !! r' = Some w).
  { intros r' w Hw. pose proof (lookup_lt_Some _ _ _ Hw) as Hlt.
    unfold upd. simpl. rewrite list_lookup_insert_ne by (unfold r; lia).
    by rewrite lookup_app_l. }
  assert (Hnew : wins (upd r (mkWS w' (store σ2)) σ2) !! r = Some w').
  { by apply (upd_lookup r (mkWS w' (store σ2)) σ2 (win s)). }
  split.
  - split.
    + simpl. apply JsMap_set_keys, Hreg.
    + intros k r' Hk. simpl in Hk.
      destruct (decide (k = windowId)) as [->|Hne].
      * rewrite JsMap_get_set in Hk. injection Hk as <-.
        unfold callback_of. by rewrite Hnew.
      * rewrite JsMap_get_set_ne in Hk by done.
        pose proof (ro_callbacks _ Hreg _ _ Hk) as H. unfold callback_of in *.
        destruct (wins σ !! r') as [w|] eqn:Hw; [|done].
        by rewrite (Hold _ _ Hw).
  - simpl. apply Hs.
  - intros k r' Hk. simpl in Hk.
    destruct (decide (k = windowId)) as [->|Hne].
    + rewrite JsMap_get_set in Hk. injection Hk as <-.
      exists w'. split; [done|].
      apply (sound_frame s); cbn [win heap];
        [done|done|done|simpl; lia|apply Hs|apply Hs|by unfold grows|done].
    + rewrite JsMap_get_set_ne in Hk by done.
      destruct (Hwin _ _ Hk) as (w & Hw & Hsw).
      exists w. split; [by apply Hold|].
      apply (sound_frame (mkWS w (store σ))); cbn [win heap];
        [done|done|done|lia|apply Hsw|apply Hs|done|done].
Qed.

Lemma world_ok_step r σ σ' :
  world_ok σ -> visits r σ σ' ->
  store_ok (store σ') -> grows (store σ) (store σ') ->
  (forall k, JsMap.get (windowMap σ') k = Some r ->
     exists w, wins σ' !! r = Some w /\ sound (mkWS w (store σ'))) ->
  world_ok σ'.
Proof.
  intros [Hreg Hst Hw] Hv Hst' Hg Hr. split.
  - by eapply registry_visits.
  - done.
  - intros k r' Hk. destruct (decide (r' = r)) as [->|Hne]; [by eapply Hr|].
    destruct (vi_shrinks _ _ _ Hv (ro_keys _ Hreg)) as [_ Hsh].
    apply Hsh in Hk. destruct (Hw _ _ Hk) as (w & Hw' & Hs).
    exists w. split; [by rewrite (vi_others _ _ _ Hv)|].
    apply (sound_frame (mkWS w (store σ))); cbn [win heap];
      [done|done|done|lia|apply Hs|done|done|done].
Qed.

(** The ping and the flush of the block-delete queue on a sound window. *)
Lemma pinged_sound r σ w :
  2003 <= PAGE_SIZE -> wins σ !! r = Some w -> sound (mkWS w (store σ)) ->
  exists σ' w',
    (onWindow r sendPing ;;; onWindow r flushBlockDeleteQueue) σ = Ret tt σ' /\
    windowMap σ' = windowMap σ /\
    wins σ' !! r = Some w' /\ sound (mkWS w' (store σ')) /\
    grows (store σ) (store σ') /\ same_session w w'.
Proof.
  intros Hsize Hw Hs.
  set (s1 := mkWS (set_port (port w ++ [[x00]]) w) (store σ)).
  assert (E1 : onWindow r sendPing σ = Ret tt (upd r s1 σ)).
  { by rewrite (onWindow_eq _ _ _ _ Hw). }
  pose proof (upd_lookup r s1 σ w Hw) as Hw1.
  assert (Hs1 : sound (mkWS (win s1) (store (upd r s1 σ)))).
  { apply (sound_frame (mkWS w (store σ))); cbn [win heap];
      [done|done|done|simpl; lia|apply Hs|apply Hs|by unfold grows|done]. }
  destruct (sound_flushBlockDeleteQueue _ Hsize Hs1) as (s' & Hrun & Hs' & Hg).
  assert (E2 : onWindow r flushBlockDeleteQueue (upd r s1 σ) =
               Ret tt (upd r s' (upd r s1 σ))).
  { by rewrite (onWindow_eq _ _ _ _ Hw1), Hrun. }
  assert (E : (onWindow r sendPing ;;; onWindow r flushBlockDeleteQueue) σ =
              Ret tt (upd r s' (upd r s1 σ))).
  { by rewrite (bind_Ret _ _ _ _ _ E1). }
  exists (upd r s' (upd r s1 σ)), (win s').
  split; [done|]. split; [done|].
  split; [by eapply upd_lookup|]. split; [by destruct s'|]. split; [done|].
  destruct (pinged_session _ _ _ _ Hw E) as (w' & Hw' & Hsame).
  rewrite (upd_lookup r s' _ _ Hw1) in Hw'. by injection Hw' as <-.
Qed.

Lemma buffers_of_valid s ps :
  sound s -> Forall (fun b => (b < length (bufs (heap s)))%nat)
                    (buffers_of (win s) ps).
Proof.
  intros Hs. apply Forall_forall. intros b Hb.
  unfold buffers_of in Hb. apply list_elem_of_omap in Hb as (r & _ & Hr).
  destruct (objs (win s) !! r) as [p|] eqn:Hp; [|done].
  injection Hr as <-. by eapply so_buffers.
Qed.

Section SweepReturns.

(** The reactive root's disposer leaves the window's destroy callback in
    place. *)
Hypothesis rootDisposer_callback : forall r s,
  destroyFnCallback (win (state_of (rootDisposer r s))) = destroyFnCallback (win s).

(** On a sound window the disposer returns, and the window is still sound
    on a store that has every block it had. *)
Hypothesis rootDisposer_returns : forall r s, sound s ->
  exists s', rootDisposer r s = Ret tt s' /\ sound s' /\ grows (heap s) (heap s').

(** [destroy] on a sound window with a destroy callback. *)
Lemma destroy_sound r σ w k :
  wins σ !! r = Some w -> sound (mkWS w (store σ)) ->
  destroyFnCallback w = Some k ->
  exists s2 σ',
    rootDisposer r (mkWS w (store σ)) = Ret tt s2 /\
    destroy r σ = Ret tt σ' /\
    windowMap σ' = JsMap.delete (windowMap σ) k /\
    wins σ' = <[r := win s2]> (wins σ) /\
    store σ' = mkHeap (bufs (heap s2))
                 (reverse (buffers_of (win s2) (pages (win s2))) ++ pool (heap s2)) /\
    store_ok (store σ') /\ grows (store σ) (store σ').
Proof.
  intros Hw Hs Hk.
  destruct (rootDisposer_returns r _ Hs) as (s2 & Hd & Hs2 & Hg).
  pose proof (rootDisposer_callback r (mkWS w (store σ))) as Hcb.
  rewrite Hd in Hcb. simpl in Hcb. rewrite Hk in Hcb.
  destruct (destroy_spec _ _ _ _ _ Hw Hd Hcb (wf_refs _ (so_wf _ Hs2)))
    as (σ' & Hrun & Hmap & Hwins & Hstore).
  exists s2, σ'. split_and!; try done.
  - rewrite Hstore. destruct (so_store _ Hs2) as [Hb Hp]. split; simpl; [done|].
    apply Forall_app. split; [|done].
    rewrite Forall_forall. intros b Hb'. rewrite elem_of_reverse in Hb'.
    pose proof (buffers_of_valid s2 (pages (win s2)) Hs2) as Hv.
    rewrite Forall_forall in Hv. exact (Hv b Hb').
  - rewrite Hstore. exact Hg.
Qed.

(** One round of the sweep on a registered, sound window returns: the
    window, marked as disconnected when its last pong is 6 seconds old, is
    destroyed or pinged. *)
Lemma lifecycleStep_sound now isLowMemory k r σ w :
  2003 <= PAGE_SIZE -> world_ok σ ->
  JsMap.get (windowMap σ) k = Some r -> wins σ !! r = Some w ->
  let pongDiff := now - lastPongTime w in
  let w1 := if pongDiff >=? 6000 then set_connected false w else w in
  exists σ',
    lifecycleStep now isLowMemory r σ = Ret tt σ' /\ world_ok σ' /\
    if negb (connected w1) && (isLowMemory || (pongDiff >=? 60000)) then
      exists s2,
        rootDisposer r (mkWS w1 (store σ)) = Ret tt s2 /\
        windowMap σ' = JsMap.delete (windowMap σ) k /\
        wins σ' = <[r := win s2]> (wins σ) /\
        store σ' = mkHeap (bufs (heap s2))
                     (reverse (buffers_of (win s2) (pages (win s2)))
                        ++ pool (heap s2))
    else
      windowMap σ' = windowMap σ /\
      exists w', wins σ' !! r = Some w' /\ same_session w1 w'.
Proof.
  intros Hsize Hok Hk Hw pongDiff w1.
  pose proof (visits_lifecycleStep rootDisposer_callback now isLowMemory r σ) as Hv.
  rewrite (lifecycleStep_eq _ _ _ _ _ Hw) in Hv |- *. cbn zeta in Hv |- *.
  fold pongDiff in Hv |- *. fold w1 in Hv |- *.
  set (σ1 := upd r (mkWS w1 (store σ)) σ) in *.
  assert (Hw1 : wins σ1 !! r = Some w1) by (by eapply upd_lookup).
  destruct (wo_windows _ Hok _ _ Hk) as (w0 & Hw0 & Hs0).
  assert (w0 = w) as -> by congruence.
  assert (Hs1 : sound (mkWS w1 (store σ1))).
  { apply (sound_frame (mkWS w (store σ))); cbn [win heap];
      [unfold w1; by destruct (pongDiff >=? 6000)..| | | | |done].
    - unfold w1. destruct (pongDiff >=? 6000); simpl; lia.
    - unfold w1. destruct (pongDiff >=? 6000); apply Hs0.
    - apply Hs0.
    - by unfold grows. }
  assert (Hcb : destroyFnCallback w1 = Some k).
  { pose proof (ro_callbacks _ (wo_registry _ Hok) _ _ Hk) as H.
    unfold callback_of in H. rewrite Hw in H. simpl in H. injection H as H.
    unfold w1. by destruct (pongDiff >=? 6000). }
  destruct (negb (connected w1) && (isLowMemory || (pongDiff >=? 60000))) eqn:Hc.
  - destruct (destroy_sound r σ1 w1 k Hw1 Hs1 Hcb)
      as (s2 & σ' & Hd & Hrun & Hmap & Hwins & Hstore & Hst & Hg).
    rewrite Hrun in Hv. simpl in Hv.
    exists σ'. split; [done|]. split.
    + apply (world_ok_step r σ σ' Hok Hv Hst Hg).
      intros k' Hk'. exfalso.
      destruct (vi_shrinks _ _ _ Hv (ro_keys _ (wo_registry _ Hok))) as [_ Hsh].
      pose proof (Hsh _ _ Hk') as Hk0.
      pose proof (ro_callbacks _ (wo_registry _ Hok) _ _ Hk0) as Hcb0.
      pose proof (ro_callbacks _ (wo_registry _ Hok) _ _ Hk) as Hcb1.
      assert (k' = k) as -> by congruence.
      rewrite Hmap in Hk'. simpl in Hk'.
      rewrite JsMap_get_delete in Hk'; [done|].
      apply (ro_keys _ (wo_registry _ Hok)).
    + exists s2. split; [done|]. split; [done|]. split; [|done].
      rewrite Hwins. unfold σ1, upd. simpl. by rewrite list_insert_insert_eq.
  - destruct (pinged_sound r σ1 w1 Hsize Hw1 Hs1)
      as (σ' & w' & Hrun & Hmap & Hw' & Hs' & Hg & Hsame).
    rewrite Hrun in Hv. simpl in Hv.
    exists σ'. split; [done|]. split.
    + apply (world_ok_step r σ σ' Hok Hv); [apply Hs'|done|].
      intros k' _. by exists w'.
    + split; [done|]. by exists w'.
Qed.

Lemma sweepLoop_returns now isLowMemory entries : forall σ,
  2003 <= PAGE_SIZE -> world_ok σ ->
  exists σ', sweepLoop now isLowMemory entries σ = Ret tt σ' /\ world_ok σ'.
Proof.
  induction entries as [|[k r] entries IH]; intros σ Hsize Hok.
  - by exists σ.
  - rewrite sweepLoop_cons. case_bool_decide as Hk.
    + destruct (wo_windows _ Hok _ _ Hk) as (w & Hw & Hs).
      destruct (lifecycleStep_sound now isLowMemory k r σ w Hsize Hok Hk Hw)
        as (σ1 & Hrun & Hok1 & _).
      rewrite (bind_Ret _ _ _ _ _ Hrun). by apply IH.
    + rewrite (bind_Ret (ret tt) _ σ tt σ) by done. by apply IH.
Qed.

(** C5. The periodic sweep on a manager whose registered windows are sound,
    with blocks of at least 2003 bytes and root disposers that return on a
    sound window, leaving it sound and its destroy callback in place.  The
    sweep returns and the manager is as sound as before.  For every
    registered window the sweep runs its round, in registration order, on
    the window as it was at the start.  In that round the window is marked
    as disconnected when its last pong is at least 6 seconds old.  If it is
    then disconnected and memory is low (the resident set size exceeds the
    configured number of megabytes) or its last pong is at least 60 seconds
    old, the round destroys it: the disposer runs, the window's key leaves
    the registry and the buffer of every page the window then lists is put
    on the free list of the pool; the key is still absent when the sweep
    ends.  Otherwise the window stays registered, with the connection flag
    of that round and its last pong time, when the sweep ends. *)
Theorem sweep_disconnects_and_destroys now rss σ k r w :
  2003 <= PAGE_SIZE -> world_ok σ ->
  JsMap.get (windowMap σ) k = Some r -> wins σ !! r = Some w ->
  let isLowMemory := rss >? RSS_LOW_MEMORY_THRESHOLD * 1024 * 1024 in
  let pongDiff := now - lastPongTime w in
  let w1 := if pongDiff >=? 6000 then set_connected false w else w in
  exists pre post σ1 σ2 σ',
    windowMap σ = pre ++ (k, r) :: post /\
    sweepLoop now isLowMemory pre σ = Ret tt σ1 /\
    JsMap.get (windowMap σ1) k = Some r /\ wins σ1 !! r = Some w /\
    lifecycleStep now isLowMemory r σ1 = Ret tt σ2 /\
    sweepLoop now isLowMemory post σ2 = Ret tt σ' /\
    lifecycleTick now rss σ = Ret tt σ' /\
    world_ok σ' /\
    (6000 <= pongDiff -> connected w1 = false) /\
    (connected w = false \/ 6000 <= pongDiff ->
     RSS_LOW_MEMORY_THRESHOLD * 1024 * 1024 < rss \/ 60000 <= pongDiff ->
     negb (connected w1) && (isLowMemory || (pongDiff >=? 60000)) = true) /\
    if negb (connected w1) && (isLowMemory || (pongDiff >=? 60000)) then
      exists s2,
        rootDisposer r (mkWS w1 (store σ1)) = Ret tt s2 /\
        windowMap σ2 = JsMap.delete (windowMap σ1) k /\
        wins σ2 = <[r := win s2]> (wins σ1) /\
        bufs (store σ2) = bufs (heap s2) /\
        pool (store σ2) =
          reverse (buffers_of (win s2) (pages (win s2))) ++ pool (heap s2) /\
        (forall pr p, pr ∈ pages (win s2) -> objs (win s2) !! pr = Some p ->
                      buffer p ∈ pool (store σ2)) /\
        JsMap.get (windowMap σ') k = None
    else
      exists w',
        JsMap.get (windowMap σ') k = Some r /\ wins σ' !! r = Some w' /\
        connected w' = connected w1 /\ lastPongTime w' = lastPongTime w.
Proof.
  intros Hsize Hok Hk Hw lm pongDiff w1.
  pose proof (wo_registry _ Hok) as Hreg.
  pose proof (JsMap_get_elem _ _ _ Hk) as Hin.
  apply list_elem_of_split in Hin as (pre & post & Hsplit).
  pose proof (ro_keys _ Hreg) as Hnd. rewrite Hsplit in Hnd.
  rewrite fmap_app, fmap_cons in Hnd. simpl in Hnd.
  apply NoDup_app in Hnd as (_ & Hpre & Hnd).
  apply NoDup_cons in Hnd as [Hpost _].
  assert (Hpre' : k ∉ pre.*1).
  { intros H. apply (Hpre _ H). by left. }
  pose proof (ro_callbacks _ Hreg _ _ Hk) as Hcb.
  destruct (sweepLoop_returns now lm pre σ Hsize Hok) as (σ1 & Hrun1 & Hok1).
  destruct (sweep_others rootDisposer_callback now lm k r pre σ Hreg Hpre' Hcb)
    as (_ & Hw1 & Hk1).
  cbn zeta in Hw1, Hk1. rewrite Hrun1 in Hw1, Hk1. simpl in Hw1, Hk1.
  rewrite Hw in Hw1. rewrite Hk in Hk1.
  destruct (lifecycleStep_sound now lm k r σ1 w Hsize Hok1 Hk1 Hw1)
    as (σ2 & Hstep & Hok2 & Hcase).
  cbn zeta in Hcase. fold pongDiff in Hcase. fold w1 in Hcase.
  destruct (sweepLoop_returns now lm post σ2 Hsize Hok2) as (σ' & Hrun3 & Hok').
  pose proof (visits_lifecycleStep rootDisposer_callback now lm r σ1) as Hv.
  rewrite Hstep in Hv. simpl in Hv.
  assert (Hcb2 : callback_of σ2 r = Some (Some k)).
  { rewrite (vi_callback _ _ _ Hv). unfold callback_of in *.
    by rewrite Hw1, <- Hw. }
  destruct (sweep_others rootDisposer_callback now lm k r post σ2
              (wo_registry _ Hok2) Hpost Hcb2) as (_ & Hw' & Hk').
  cbn zeta in Hw', Hk'. rewrite Hrun3 in Hw', Hk'. simpl in Hw', Hk'.
  assert (Htick : lifecycleTick now rss σ = Ret tt σ').
  { unfold lifecycleTick. unfold bind at 1. unfold get. fold lm.
    rewrite Hsplit, sweepLoop_app, (bind_Ret _ _ _ _ _ Hrun1).
    rewrite sweepLoop_cons, bool_decide_true by done.
    by rewrite (bind_Ret _ _ _ _ _ Hstep). }
  assert (Hmark : 6000 <= pongDiff -> connected w1 = false).
  { intros H. unfold w1.
    replace (pongDiff >=? 6000) with true; [done|].
    symmetry. rewrite Z.geb_leb. by apply Z.leb_le. }
  exists pre, post, σ1, σ2, σ'.
  split; [done|]. split; [done|]. split; [done|]. split; [done|].
  split; [done|]. split; [done|]. split; [done|]. split; [done|].
  split; [done|]. split.
  { intros Hdis Hwhy.
    assert (connected w1 = false) as ->.
    { destruct Hdis as [Hd|H6]; [|by apply Hmark].
      unfold w1. by destruct (pongDiff >=? 6000). }
    simpl. destruct Hwhy as [Hlow|H60].
    - unfold lm. replace (rss >? _) with true; [done|].
      symmetry. by apply Z.gtb_lt.
    - replace (pongDiff >=? 60000) with true; [by rewrite orb_true_r|].
      symmetry. rewrite Z.geb_leb. by apply Z.leb_le. }
  destruct (negb (connected w1) && (lm || (pongDiff >=? 60000))).
  - destruct Hcase as (s2 & Hd & Hmap & Hwins & Hstore).
    exists s2. rewrite Hstore. simpl.
    split; [done|]. split; [done|]. split; [done|]. split; [done|].
    split; [done|]. split.
    + intros pr p Hpr Hp. apply elem_of_app. left. apply elem_of_reverse.
      unfold buffers_of. apply list_elem_of_omap. exists pr. split; [done|].
      by rewrite Hp.
    + rewrite Hk', Hmap. apply JsMap_get_delete. apply (wo_registry _ Hok1).
  - destruct Hcase as (Hmap & w' & Hw2 & _ & Hconn & Hpong).
    exists w'. rewrite Hk', Hw', Hmap.
    split; [done|]. split; [done|]. split; [done|].
    rewrite Hpong. unfold w1. by destruct (pongDiff >=? 6000).
Qed.

End SweepReturns.

End Model.

(** * Instances

    The theorems at the sample inputs, on pages of 64 bytes. *)

Lemma empty_heap_ok (PAGE_SIZE : Z) : heap_ok PAGE_SIZE empty_heap.
Proof. split; constructor. Qed.

(** After [two_commands], a request for 40 bytes is served from one page. *)
Lemma allocCommandBuffer_stays_in_one_page_witness :
  exists v s',
    _allocCommandBuffer 64 (Z.of_nat 40)
      (window_after 64 "w1" [] 0 empty_heap two_commands) = Ret v s' /\
    0 <= v_offset v /\ v_offset v + v_length v <= 64 /\
    v_length v = 40.
Proof.
  destruct (allocCommandBuffer_stays_in_one_page 64 "w1" [] 0 empty_heap
              two_commands 40 (empty_heap_ok 64) ltac:(lia))
    as (v & s' & q & p & Hrun & _ & _ & _ & _ & _ & H1 & _ & H2 & H3 & _).
  exists v, s'. split; [exact Hrun|].
  split; [exact H1|]. split; [exact H2|].
  apply H3. lia.
Defined.


(** The id "w2" is not registered in [one_window]. *)
Lemma unknown_window_disconnect_vs_reconnect_witness :
  JsMap.get (windowMap one_window) "w2"%string = None /\
  disconnectWindow "w2" one_window = Ret tt one_window /\
  reconnectWindow "w2" 0 0 one_window = Throw TypeError one_window.
Proof.
  split; [reflexivity|].
  pose proof (unknown_window_disconnect_vs_reconnect one_window "w2" 0 0 eq_refl)
    as (H1 & H2 & _).
  exact (conj H1 H2).
Defined.

(** Of [nine_arrivals] the first eight are queued. *)
Lemma enqueue_drops_when_over_limit_witness :
  exists σ',
    deliver 0 nine_arrivals one_window = Ret tt σ' /\
    queue σ' = replicate 8 (0%nat, [x01]).
Proof.
  destruct (enqueue_drops_when_over_limit one_window 0
              (set_destroyFnCallback (Some "w1"%string) (blank "w1" [] 0))
              1000 [x01] (tail nine_arrivals))
    as (_ & σ' & Hrun & Hq).
  - reflexivity.
  - reflexivity.
  - reflexivity.
  - reflexivity.
  - unfold nine_arrivals. simpl. repeat constructor; simpl; lia.
  - exists σ'. split; [exact Hrun|exact Hq].
Defined.



(** The window of [two_commands] registers the attribute name "class". *)
Lemma token_registration_is_stable_witness :
  exists s',
    _registerAttrKey 64 "class"
      (window_after 64 "w1" [] 0 empty_heap two_commands) =
      Ret (Some (JsMap.size
                   (tokenList (win (window_after 64 "w1" [] 0 empty_heap
                                      two_commands))))) s' /\
    appended (window_after 64 "w1" [] 0 empty_heap two_commands) s' =
      token_command x05 "class" /\
    _registerStyleKey 64 "class" s' =
      Ret (Some (JsMap.size
                   (tokenList (win (window_after 64 "w1" [] 0 empty_heap
                                      two_commands))))) s'.
Proof.
  destruct (token_registration_is_stable 64 "class") as (Htwice & _ & _ & Hfirst).
  destruct (Hfirst "w1"%string [] 0 empty_heap two_commands x05 (empty_heap_ok 64))
    as (s' & Hrun & _ & Happ & _).
  - lia.
  - repeat constructor; simpl; lia.
  - vm_compute. reflexivity.
  - reflexivity.
  - simpl. lia.
  - exists s'. split; [exact Hrun|]. split; [exact Happ|].
    destruct (Htwice (window_after 64 "w1" [] 0 empty_heap two_commands))
      as (i & _ & Hret & _ & Hagain).
    rewrite Hrun in Hret, Hagain. cbn [state_of returned] in Hret, Hagain.
    rewrite (Hret _ eq_refl). exact Hagain.
Defined.

Lemma empty_store_ok (PAGE_SIZE : Z) : store_ok PAGE_SIZE empty_heap.
Proof. split; constructor. Qed.

Lemma two_sessions_sound : world_ok 2048 (two_sessions 2048).
Proof.
  apply world_ok_initWindow; [lia|].
  apply world_ok_initWindow; [lia|].
  apply world_ok_newManager, empty_store_ok.
Qed.

(** The sweep at time 61000 on two sessions whose last pongs came at times
    0 and 58000, with no memory in use: the sweep returns and the first
    session, silent for 61 seconds, is gone from the registry. *)
Lemma sweep_disconnects_and_destroys_witness :
  exists σ',
    lifecycleTick 2048 no_disposer 180 61000 0 (two_sessions 2048) = Ret tt σ' /\
    JsMap.get (windowMap σ') "w1"%string = None.
Proof.
  assert (Hw : wins (two_sessions 2048) !! 0%nat =
               Some (default (blank "" [] 0) (wins (two_sessions 2048) !! 0%nat)))
    by (vm_compute; reflexivity).
  destruct (sweep_disconnects_and_destroys 2048 no_disposer 180
              (fun _ _ => eq_refl)
              (fun _ s Hs => ex_intro _ s (conj eq_refl (conj Hs (le_n _))))
              61000 0 (two_sessions 2048) "w1"%string 0%nat _
              ltac:(lia) two_sessions_sound ltac:(vm_compute; reflexivity) Hw)
    as (pre & post & σ1 & σ2 & σ' & _ & _ & _ & _ & _ & _ & Htick & _ & _ &
        Hwhen & Hcase).
  rewrite Hwhen in Hcase.
  - destruct Hcase as (s2 & _ & _ & _ & _ & _ & _ & Hgone).
    exists σ'. exact (conj Htick Hgone).
  - right. vm_compute. discriminate.
  - right. vm_compute. discriminate.
Defined.

(** One session whose last pong is 10 seconds old, with a threshold of 180
    megabytes.  With a resident set of 100 megabytes, below the threshold,
    the sweep marks the window as disconnected and keeps it; with a
    resident set of 200 megabytes, above the threshold, the sweep destroys
    it and its page's buffer is in the pool. *)
Lemma sweep_destroys_above_memory_threshold :
  (exists σ',
     lifecycleTick 2048 no_disposer 180 10000 (100 * 1024 * 1024)
       (one_session 2048) = Ret tt σ' /\
     JsMap.get (windowMap σ') "w1"%string = Some 0%nat /\
     connected <$> wins σ' !! 0%nat = Some false /\
     pool (store σ') = []) /\
  (exists σ',
     lifecycleTick 2048 no_disposer 180 10000 (200 * 1024 * 1024)
       (one_session 2048) = Ret tt σ' /\
     JsMap.get (windowMap σ') "w1"%string = None /\
     pool (store σ') = [0%nat]).
Proof.
  split.
  - eexists. split; [vm_compute; reflexivity|]. by vm_compute.
  - eexists. split; [vm_compute; reflexivity|]. by vm_compute.
Qed.

(** After [three_adds] the queue is a, c, b.  A fourth item of depth 2 goes
    behind b, the last item of the queue that is not deeper, and not behind
    c, the item inserted most recently. *)
Lemma WorkQueue_add_not_after_most_recent :
  added snd three_adds =
    Some [("a"%string, 1); ("c"%string, 1); ("b"%string, 2)] /\
  most_recent snd three_adds ("d"%string, 2) = Some ("c"%string, 1) /\
  add snd [("a"%string, 1); ("c"%string, 1); ("b"%string, 2)] ("d"%string, 2) =
    Some [("a"%string, 1); ("c"%string, 1); ("b"%string, 2); ("d"%string, 2)] /\
  ~ add_after_most_recent snd three_adds ("d"%string, 2).
Proof.
  split; [reflexivity|]. split; [reflexivity|]. split; [reflexivity|].
  intros H.
  destruct (H _ _ eq_refl eq_refl) as (before & after & Heq).
  injection Heq as Heq.
  destruct before as [|x1 [|x2 [|x3 [|x4 [|x5 before]]]]]; simplify_eq.
Qed.


(** A queue of three items ordered by depth receives an item of depth 2. *)
Lemma WorkQueue_add_keeps_order_witness :
  exists before after,
    [("a"%string, 1); ("c"%string, 1); ("b"%string, 2)] = before ++ after /\
    add snd [("a"%string, 1); ("c"%string, 1); ("b"%string, 2)] ("d"%string, 2) =
      Some (before ++ ("d"%string, 2) :: after) /\
    StronglySorted (fun x y : string * Z => x.2 <= y.2)
      (before ++ ("d"%string, 2) :: after).
Proof.
  destruct (WorkQueue_add_keeps_order snd
              [("a"%string, 1); ("c"%string, 1); ("b"%string, 2)] ("d"%string, 2))
    as (before & after & H1 & H2 & _ & _ & H3).
  - repeat (apply StronglySorted_cons; split; [repeat constructor; simpl; lia|]).
    constructor.
  - exists before, after. exact (conj H1 (conj H2 H3)).
Defined.


(** After [two_commands] the two pages hold two different buffers. *)
Lemma pages_own_their_buffers_witness :
  NoDup (buffers_of (win (window_after 64 "w1" [] 0 empty_heap two_commands))
           (pages (win (window_after 64 "w1" [] 0 empty_heap two_commands)))
         ++ pool (heap (window_after 64 "w1" [] 0 empty_heap two_commands))).
Proof.
  exact (proj1 (pages_own_their_buffers 64 "w1" [] 0 empty_heap two_commands
                  (empty_heap_ok 64) ltac:(lia))).
Defined.



(** On pages of 4096 bytes, the blocks 11 and 12 of a new window are
    deleted by one command. *)
Lemma block_deletions_are_batched_witness :
  stream_of 4096 "w1" [] 0 empty_heap
    ([] ++ (HandleBlockCleanup <$> [11; 12]) ++ [FlushBlockDeleteQueue]) =
  stream_of 4096 "w1" [] 0 empty_heap [] ++ remove_blocks_command [11; 12].
Proof.
  refine (proj1 (proj2 (proj2 (proj2
            (block_deletions_are_batched 4096 "w1" [] 0 empty_heap [] [11; 12]
               (empty_heap_ok 4096) _ _ _ _ _ _))))).
  - lia.
  - constructor.
  - vm_compute. reflexivity.
  - discriminate.
  - simpl. lia.
  - repeat constructor; lia.
Defined.

(** After [two_commands], the text "hi" is attached to anchor 0 of
    block 11. *)
Lemma attach_anchor_commands_witness :
  exists s',
    _streamTextInitCommand 64 11 0 "hi"
      (window_after 64 "w1" [] 0 empty_heap two_commands) = Ret tt s' /\
    appended (window_after 64 "w1" [] 0 empty_heap two_commands) s' =
      text_command 11 0 "hi".
Proof.
  destruct (proj1 (attach_anchor_commands 64 "w1" [] 0 empty_heap two_commands
                     (empty_heap_ok 64) ltac:(lia)
                     ltac:(repeat constructor; simpl; lia))
              11 0 "hi"%string ltac:(lia) ltac:(lia) ltac:(simpl; lia)
              ltac:(simpl; lia))
    as (s' & H1 & H2 & _).
  exists s'. exact (conj H1 H2).
Defined.

(** On pages of 65536 bytes, [long_text] is refused after its range has
    been taken. *)
Lemma long_text_leaves_partial_command_witness :
  exists s',
    _streamTextInitCommand 65536 11 0 long_text
      (window_after 65536 "w1" [] 0 empty_heap []) = Throw PlainError s'.
Proof.
  destruct (long_text_leaves_partial_command 65536 "w1" [] 0 empty_heap []
              11 0 long_text (empty_heap_ok 65536)) as (s' & H1 & _).
  - lia.
  - constructor.
  - lia.
  - lia.
  - vm_compute. reflexivity.
  - vm_compute. discriminate.
  - exists s'. exact H1.
Defined.

(** The last command of [dropped_session] comes after the disconnect and is
    not sent. *)
Lemma disconnected_window_sends_nothing_witness :
  port (win (window_after 64 "w1" [] 0 empty_heap dropped_session)) =
  port (win (window_after 64 "w1" [] 0 empty_heap (take 2 dropped_session))).
Proof.
  exact (proj1 (disconnected_window_sends_nothing 64 "w1" [] 0 empty_heap
                  (take 2 dropped_session) (drop 3 dropped_session)
                  (empty_heap_ok 64) ltac:(repeat constructor))).
Defined.

(** The cookie theme=dark is added to the string sid=1 and read back, with
    the identity in place of the decoder. *)
Lemma cookie_set_then_get_witness :
  getCookieValue (fun s => s)
    (setCookieValue (js "sid=1") (js "theme") (js "dark")) (js "theme") =
    Some (js "dark").
Proof.
  apply (cookie_set_then_get (fun s => s) (js "sid=1") (js "theme") (js "dark")).
  - discriminate.
  - repeat constructor; discriminate.
  - repeat constructor; discriminate.
  - vm_compute. discriminate.
Defined.

(** The handler "a" gets the id 1 and is deallocated; the handler "b",
    allocated later, does not receive the events for 1. *)
Lemma handler_ids_are_never_reused_witness :
  _executeClientEvent 1 tt
    (handlersAfter [Allocate "b"%string]
       (handlersAfter [Allocate "a"%string; Deallocate [1]] noHandlers)) = None.
Proof.
  apply (proj2 (handler_ids_are_never_reused
                  [Allocate "a"%string; Deallocate [1]]) 1 tt [Allocate "b"%string]).
  - vm_compute. discriminate.
  - reflexivity.
Defined.



(** A click handler "onClick" on element 3 of block 11 of a new window, on
    pages of 64 bytes: it is registered under the id 1, and an event for 1
    runs it. *)
Lemma event_command_names_registered_handlers_witness :
  exists σ',
    handleEventHandler 64 (fun _ => "") 11
      (mkEventHandler (ServerFn "onClick"%string) 3 1)
      (mkSession (window_after 64 "w1" [] 0 empty_heap []) noHandlers []) =
      Ret [1] σ' /\
    _executeClientEvent 1 tt (table σ') = Some ("onClick"%string, tt).
Proof.
  destruct (event_command_names_registered_handlers (Data := unit) 64
              (fun _ => "") "w1" [] 0 empty_heap [] noHandlers [] 11
              (mkEventHandler (ServerFn "onClick"%string) 3 1) 1 ["onClick"%string]
              (empty_heap_ok 64) ltac:(lia) ltac:(constructor)
              ltac:(split; [done|constructor]) eq_refl
              ltac:(lia) ltac:(simpl; lia) ltac:(simpl; lia) ltac:(lia)
              ltac:(simpl; lia) ltac:(lia))
    as [Hfits _].
  destruct Hfits as (σ' & H1 & _ & _ & H4 & _); [right; simpl; lia|].
  exists σ'. split; [exact H1|]. exact (H4 0%nat "onClick"%string tt eq_refl).
Defined.

